(** * AgentOrchestrator: a shallow embedding of the task scheduler

    The development follows [extension/src/core/orchestrator.ts]: the
    priority queue, the admission loop bounded by [maxConcurrent], the
    timeout race of one attempt, the retry policy of [handleTaskError],
    agent selection and the status introspection.

    Conventions of the embedding.
    - JavaScript numbers that hold integers (priorities, counters, clock
      values in milliseconds, configuration limits) are [Z]; the confidence
      of a task and the cost of a result are [Q] (comparison of two doubles
      is exact, so a rational comparison gives the same answer).
    - The class instance is a record [State]; every method is a function
      from [State] to [State]; the one method that throws returns its
      completion next to the state.
    - One synchronous run of a method reads one clock value [now].
    - Pending promise chains of [executeTask] are the [pending] component
      of the state: the JavaScript run time keeps them, the class does not. *)

From Stdlib Require Import ZArith QArith Bool List String Ascii Lia.
From Stdlib Require Import Permutation Sorted DecimalString.
Import ListNotations.

Local Open Scope string_scope.
Local Open Scope list_scope.
Local Open Scope Z_scope.

Set Implicit Arguments.

(** ** Types of [../types] used by the orchestrator *)

(** Modelled from the spec: the declaration of [RARVPhase] is in the types
    module, which is not part of the sources at hand; its five members are
    the keys of [phaseTimings] and [phaseProgress] in the orchestrator. *)
Inductive RARVPhase : Type := idle | reason | act | reflect | verify.

(** Modelled from the spec: the declaration of [AgentType] is in the types
    module; its fifteen members are the kinds [inferAgentType] returns and
    the agent classes the package exports. *)
Inductive AgentType : Type :=
| frontend | backend | database | api | devops | qa
| code_review | security_review | test_gen | perf
| docs | refactor | migration
| architect | decomposition.

(** The [type] field of a task: an agent kind, or the literal ['general']. *)
Inductive TaskType : Type :=
| general
| typed (k : AgentType).

(** Modelled from the spec: the priority tier of a task
    (critical / high / medium / low), declared in the types module. *)
Inductive TaskPriority : Type := critical | high | medium | low.

(** The fields of [Task] the orchestrator reads. *)
Record Task : Type := mkTask {
  task_id : string;
  task_description : string;
  task_type : TaskType;
  task_priority : TaskPriority;
  task_confidence : Q;
  task_files : list string        (* task.context.files *)
}.

Record TaskQueueItem : Type := mkItem {
  item_task : Task;
  priority : Z;
  addedAt : Z;
  attempts : Z;
  lastAttemptAt : option Z;
  item_error : option string
}.

Record TaskError : Type := mkError {
  err_code : string;
  err_message : string;
  err_phase : RARVPhase;
  err_recoverable : bool
}.

Record TaskMetrics : Type := mkMetrics {
  totalTokens : Z;
  inputTokens : Z;
  outputTokens : Z;
  cost : Q;
  duration : Z;
  phaseTimings : RARVPhase -> Z
}.

Record TaskResult : Type := mkResult {
  res_taskId : string;
  success : bool;
  output : string;
  artifacts : list string;
  learnings : list string;
  metrics : TaskMetrics;
  errors : list TaskError;
  retryCount : Z
}.

Record OrchestratorConfig : Type := mkConfig {
  maxConcurrent : Z;
  queueSize : Z;
  taskTimeout : Z;
  retryFailedTasks : bool;
  maxRetries : Z;
  priorityBoostOnAge : bool;
  priorityBoostThreshold : Z
}.

Definition DEFAULT_CONFIG : OrchestratorConfig :=
  {| maxConcurrent := 4;
     queueSize := 100;
     taskTimeout := 300000;
     retryFailedTasks := true;
     maxRetries := 3;
     priorityBoostOnAge := true;
     priorityBoostThreshold := 60000 |}.

Record ActiveAgentInfo : Type := mkActive {
  executionId : string;
  agentType : AgentType;
  act_taskId : string;
  startedAt : Z;
  phase : RARVPhase
}.

(** The envelope [emitEvent] builds, with the two entries of its payload
    that the orchestrator itself writes; the phase and the timestamp of the
    envelope play no part in scheduling and are left out. *)
Record RARVEvent : Type := mkEvent {
  ev_type : string;
  ev_taskId : string;
  ev_data_taskId : option string;
  ev_data_executionId : option string
}.

(** ** Decidable equalities *)

Definition phase_eqb (p q : RARVPhase) : bool :=
  match p, q with
  | idle, idle | reason, reason | act, act
  | reflect, reflect | verify, verify => true
  | _, _ => false
  end.

(** ** Strings *)

(** [String.prototype.toLowerCase] on the ASCII range: a description is
    modelled as its sequence of code units, each an ASCII character (see
    [isAscii]); on these the method turns [A]-[Z] into [a]-[z] and leaves
    every other character alone.  Its action on characters outside ASCII is
    not modelled. *)
Definition lower_ascii (c : ascii) : ascii :=
  let n := nat_of_ascii c in
  if ((65 <=? n)%nat && (n <=? 90)%nat)%bool then ascii_of_nat (n + 32) else c.

Fixpoint toLowerCase (s : string) : string :=
  match s with
  | EmptyString => EmptyString
  | String c s' => String (lower_ascii c) (toLowerCase s')
  end.

(** [needle] occurs somewhere in [hay]. *)
Fixpoint includes (needle hay : string) : bool :=
  if String.prefix needle hay then true
  else match hay with
       | EmptyString => false
       | String _ hay' => includes needle hay'
       end.

(** [s.match(/a|b|c/)] is non-null: some alternative occurs in [s].  Every
    pattern of [inferAgentType] is an alternation of literal words. *)
Definition matches (alternatives : list string) (s : string) : bool :=
  existsb (fun a => includes a s) alternatives.

(** Decimal rendering of a number inside a template literal. *)
Definition show_Z (z : Z) : string := NilZero.string_of_int (Z.to_int z).

(** ** Agent selection *)

Definition inferAgentType (description : string) : AgentType :=
  let lower := toLowerCase description in
  (* Engineering patterns *)
  if matches ["react"; "vue"; "angular"; "css"; "html"; "component"; "ui";
              "frontend"; "style"] lower then frontend
  else if matches ["api"; "rest"; "graphql"; "endpoint"; "route";
                   "controller"] lower then api
  else if matches ["database"; "sql"; "schema"; "migration"; "query";
                   "table"] lower then database
  else if matches ["docker"; "kubernetes"; "k8s"; "ci"; "cd"; "deploy";
                   "pipeline"; "infra"] lower then devops
  else if matches ["test"; "spec"; "e2e"; "integration"] lower then qa
  else if matches ["node"; "python"; "go"; "java"; "server"; "backend";
                   "service"] lower then backend
  (* Quality patterns *)
  else if matches ["review"; "code quality"; "lint"] lower then code_review
  else if matches ["security"; "vulnerability"; "owasp"; "secret"] lower
       then security_review
  else if matches ["performance"; "optimize"; "latency"] lower then perf
  else if matches ["generate test"; "unit test"; "test coverage"] lower
       then test_gen
  (* Support patterns *)
  else if matches ["document"; "readme"; "api doc"] lower then docs
  else if matches ["refactor"; "clean"; "modernize"] lower then refactor
  else if matches ["migrate"; "upgrade"; "version"] lower then migration
  (* Planning patterns *)
  else if matches ["architect"; "design"; "system"] lower then architect
  else if matches ["break down"; "decompose"; "split"] lower
       then decomposition
  (* Default to backend *)
  else backend.

Definition selectAgent (task : Task) : AgentType :=
  match task_type task with
  | typed k => k
  | general => inferAgentType (task_description task)
  end.

(** ** Priority *)

Definition priorityMap (p : TaskPriority) : Z :=
  match p with
  | critical => 100
  | high => 75
  | medium => 50
  | low => 25
  end.

(** [x || d] on numbers: [d] when [x] is zero. *)
Definition or_default (x d : Z) : Z := if x =? 0 then d else x.

(** [a >= b] on confidences. *)
Definition Qge_bool (a b : Q) : bool := Qle_bool b a.

Definition calculatePriority (task : Task) : Z :=
  let priority := 0 in
  let priority := priority + or_default (priorityMap (task_priority task)) 50 in
  let priority :=
    if Qge_bool (task_confidence task) (9 # 10) then priority + 20
    else if Qge_bool (task_confidence task) (6 # 10) then priority + 10
    else priority in
  let priority :=
    if (5 <? Z.of_nat (List.length (task_files task))) then priority - 10
    else priority in
  priority.

(** ** Sorting

    [Array.prototype.sort] with the comparator [(a, b) => b.key - a.key]:
    descending by key, and stable (ECMAScript 2019), so the result is the
    one list that is sorted and keeps equal keys in their former order.
    Insertion from the right computes that list. *)

Section StableSort.
Variable A : Type.
Variable key : A -> Z.

Fixpoint insert_desc (x : A) (l : list A) : list A :=
  match l with
  | [] => [x]
  | y :: l' => if key y <=? key x then x :: y :: l'
               else y :: insert_desc x l'
  end.

Definition sort_desc (l : list A) : list A :=
  fold_right insert_desc [] l.

(** The order of a sorted list: no key grows from left to right. *)
Definition key_ge (a b : A) : Prop := key b <= key a.

(** The first item of largest key of the non-empty list [x :: l]. *)
Fixpoint first_max (x : A) (l : list A) : A :=
  match l with
  | [] => x
  | y :: l' => let m := first_max y l' in
               if key m <=? key x then x else m
  end.
End StableSort.

(** ** The [activeAgents] map

    A JavaScript [Map] iterates in insertion order; [set] on a present key
    replaces the value in place. *)

Section OrderedMap.
Variable V : Type.

Fixpoint map_set (k : string) (v : V) (m : list (string * V))
  : list (string * V) :=
  match m with
  | [] => [(k, v)]
  | (k', v') :: m' =>
      if String.eqb k' k then (k', v) :: m'
      else (k', v') :: map_set k v m'
  end.

Fixpoint map_get (k : string) (m : list (string * V)) : option V :=
  match m with
  | [] => None
  | (k', v') :: m' => if String.eqb k' k then Some v' else map_get k m'
  end.

Fixpoint map_delete (k : string) (m : list (string * V))
  : list (string * V) :=
  match m with
  | [] => []
  | (k', v') :: m' =>
      if String.eqb k' k then m' else (k', v') :: map_delete k m'
  end.

Definition map_values (m : list (string * V)) : list V := map snd m.
Definition map_size (m : list (string * V)) : Z := Z.of_nat (List.length m).
End OrderedMap.

(** ** Orchestrator state *)

(** One promise chain built by [executeTask]:
    [executionPromise.then(..).catch(..).finally(..)].  [handled] is set
    once the [then]/[catch] reaction has run; the [finally] reaction runs in
    a later job. *)
Record Execution : Type := mkExec {
  exec_id : string;
  exec_item : TaskQueueItem;
  handled : bool
}.

(** The fields of the class that scheduling reads or writes.  [agents],
    [agentFactory], [provider] and [memoryStore] are collaborators;
    [rarvCycles] has the keys of [activeAgents] and is never read;
    [eventHandlers] is seen through [emitted]. *)
Record State : Type := mkState {
  activeAgents : list (string * ActiveAgentInfo);
  taskQueue : list TaskQueueItem;
  completedTasks : list TaskResult;
  failedTasks : list TaskResult;
  isRunning : bool;
  isPaused : bool;
  startTime : Z;
  totalCost : Q;
  emitted : list RARVEvent;       (* what the event handlers have seen *)
  pending : list Execution        (* promise chains not yet finished *)
}.

Definition initial : State :=
  {| activeAgents := []; taskQueue := []; completedTasks := [];
     failedTasks := []; isRunning := false; isPaused := false;
     startTime := 0; totalCost := 0%Q; emitted := []; pending := [] |}.

Definition set_activeAgents (m : list (string * ActiveAgentInfo)) (s : State) :=
  mkState m (taskQueue s) (completedTasks s) (failedTasks s) (isRunning s)
          (isPaused s) (startTime s) (totalCost s) (emitted s) (pending s).
Definition set_taskQueue (q : list TaskQueueItem) (s : State) :=
  mkState (activeAgents s) q (completedTasks s) (failedTasks s) (isRunning s)
          (isPaused s) (startTime s) (totalCost s) (emitted s) (pending s).
Definition set_completedTasks (l : list TaskResult) (s : State) :=
  mkState (activeAgents s) (taskQueue s) l (failedTasks s) (isRunning s)
          (isPaused s) (startTime s) (totalCost s) (emitted s) (pending s).
Definition set_failedTasks (l : list TaskResult) (s : State) :=
  mkState (activeAgents s) (taskQueue s) (completedTasks s) l (isRunning s)
          (isPaused s) (startTime s) (totalCost s) (emitted s) (pending s).
Definition set_isRunning (b : bool) (s : State) :=
  mkState (activeAgents s) (taskQueue s) (completedTasks s) (failedTasks s) b
          (isPaused s) (startTime s) (totalCost s) (emitted s) (pending s).
Definition set_isPaused (b : bool) (s : State) :=
  mkState (activeAgents s) (taskQueue s) (completedTasks s) (failedTasks s)
          (isRunning s) b (startTime s) (totalCost s) (emitted s) (pending s).
Definition set_startTime (t : Z) (s : State) :=
  mkState (activeAgents s) (taskQueue s) (completedTasks s) (failedTasks s)
          (isRunning s) (isPaused s) t (totalCost s) (emitted s) (pending s).
Definition set_totalCost (c : Q) (s : State) :=
  mkState (activeAgents s) (taskQueue s) (completedTasks s) (failedTasks s)
          (isRunning s) (isPaused s) (startTime s) c (emitted s) (pending s).
Definition set_emitted (l : list RARVEvent) (s : State) :=
  mkState (activeAgents s) (taskQueue s) (completedTasks s) (failedTasks s)
          (isRunning s) (isPaused s) (startTime s) (totalCost s) l (pending s).
Definition set_pending (l : list Execution) (s : State) :=
  mkState (activeAgents s) (taskQueue s) (completedTasks s) (failedTasks s)
          (isRunning s) (isPaused s) (startTime s) (totalCost s) (emitted s) l.

(** ** Events *)

(** [emitEvent(type, data)]: the envelope takes [data.taskId] when it is a
    non-empty string and ['orchestrator'] otherwise; every handler then sees
    the event, and a handler that throws is caught. *)
Definition emitEvent (type : string) (taskId executionId : option string)
    (s : State) : State :=
  let envelope_id :=
    match taskId with
    | Some id => if String.eqb id "" then "orchestrator" else id
    | None => "orchestrator"
    end in
  set_emitted (emitted s ++ [mkEvent type envelope_id taskId executionId]) s.

(** ** Queue *)

Definition sortQueue (s : State) : State :=
  set_taskQueue (sort_desc priority (taskQueue s)) s.

Definition set_priority (p : Z) (i : TaskQueueItem) : TaskQueueItem :=
  mkItem (item_task i) p (addedAt i) (attempts i) (lastAttemptAt i)
         (item_error i).

(** The body of the loop of [boostAgedTasks].  [Math.floor(age / threshold)]
    is [Z.div] for every threshold but zero. *)
Definition boostItem (cfg : OrchestratorConfig) (now : Z) (i : TaskQueueItem)
  : TaskQueueItem :=
  let age := now - addedAt i in
  if priorityBoostThreshold cfg <? age then
    let boostMultiplier := age / priorityBoostThreshold cfg in
    set_priority (priority i + boostMultiplier * 5) i
  else i.

Definition boostAgedTasks (cfg : OrchestratorConfig) (now : Z) (s : State)
  : State :=
  sortQueue (set_taskQueue (map (boostItem cfg now) (taskQueue s)) s).

(** ** Execution of one attempt *)

(** What [Promise.race([rarvCycle.execute(task), timeoutPromise])] sees
    first.  The cycle is an external collaborator: it fulfils with a result,
    or rejects with an error message. *)
Inductive RaceWinner : Type :=
| cycleFulfilled (result : TaskResult)
| cycleRejected (message : string)
| timeoutFired.

Inductive Settlement : Type :=
| fulfilled (result : TaskResult)
| rejected (message : string).

Definition timeoutMessage (cfg : OrchestratorConfig) : string :=
  ("Task timeout after " ++ show_Z (taskTimeout cfg) ++ "ms")%string.

Definition runExecution (cfg : OrchestratorConfig) (w : RaceWinner)
  : Settlement :=
  match w with
  | cycleFulfilled result => fulfilled result
  | cycleRejected message => rejected message
  | timeoutFired => rejected (timeoutMessage cfg)
  end.

Definition executeTask (now : Z) (queueItem : TaskQueueItem) (s : State)
  : State :=
  let task := item_task queueItem in
  let agentType := selectAgent task in
  let executionId :=
    ("exec_" ++ task_id task ++ "_" ++ show_Z now)%string in
  let activeInfo := mkActive executionId agentType (task_id task) now reason in
  let s := set_pending (pending s ++ [mkExec executionId queueItem false]) s in
  let s := set_activeAgents (map_set executionId activeInfo (activeAgents s)) s in
  emitEvent "agent-started" (Some (task_id task)) (Some executionId) s.

(** The [while] loop of [processQueue]; [queue] is [taskQueue s]. *)
Fixpoint admitLoop (cfg : OrchestratorConfig) (now : Z)
    (queue : list TaskQueueItem) (s : State) : State :=
  match queue with
  | [] => s
  | queueItem :: rest =>
      if map_size (activeAgents s) <? maxConcurrent cfg
      then admitLoop cfg now rest
             (executeTask now queueItem (set_taskQueue rest s))
      else s
  end.

Definition processQueue (cfg : OrchestratorConfig) (now : Z) (s : State)
  : State :=
  if (negb (isRunning s) || isPaused s)%bool then s
  else
    let s := if priorityBoostOnAge cfg then boostAgedTasks cfg now s else s in
    admitLoop cfg now (taskQueue s) s.

Definition handleTaskCompletion (executionId : string) (result : TaskResult)
    (s : State) : State :=
  if success result then
    let s := set_completedTasks (completedTasks s ++ [result]) s in
    let s := set_totalCost (totalCost s + cost (metrics result))%Q s in
    emitEvent "task-completed" (Some (res_taskId result)) (Some executionId) s
  else
    let s := set_failedTasks (failedTasks s ++ [result]) s in
    emitEvent "task-failed" (Some (res_taskId result)) (Some executionId) s.

(** The three assignments at the head of [handleTaskError]. *)
Definition recordFailure (now : Z) (message : string) (i : TaskQueueItem)
  : TaskQueueItem :=
  mkItem (item_task i) (priority i) (addedAt i) (attempts i + 1)
         (Some now) (Some message).

Definition failureResult (now : Z) (message : string) (i : TaskQueueItem)
  : TaskResult :=
  {| res_taskId := task_id (item_task i);
     success := false;
     output := "";
     artifacts := [];
     learnings := [];
     metrics := {| totalTokens := 0; inputTokens := 0; outputTokens := 0;
                   cost := 0%Q; duration := now - addedAt i;
                   phaseTimings := fun _ => 0 |};
     errors := [ {| err_code := "EXECUTION_ERROR"; err_message := message;
                    err_phase := act; err_recoverable := false |} ];
     retryCount := attempts i |}.

Definition handleTaskError (cfg : OrchestratorConfig) (now : Z)
    (executionId : string) (queueItem : TaskQueueItem) (message : string)
    (s : State) : State :=
  let queueItem := recordFailure now message queueItem in
  if (retryFailedTasks cfg && (attempts queueItem <? maxRetries cfg))%bool then
    let s := set_taskQueue (taskQueue s ++ [queueItem]) s in
    let s := sortQueue s in
    emitEvent "task-retry" (Some (task_id (item_task queueItem)))
              (Some executionId) s
  else
    let s := set_failedTasks
               (failedTasks s ++ [failureResult now message queueItem]) s in
    emitEvent "task-failed" (Some (task_id (item_task queueItem)))
              (Some executionId) s.

Definition set_phase (p : RARVPhase) (a : ActiveAgentInfo) : ActiveAgentInfo :=
  mkActive (executionId a) (agentType a) (act_taskId a) (startedAt a) p.

(** [handleRARVEvent]: [data_taskId] is the [taskId] entry of the payload of
    the forwarded event, when it has one. *)
Definition handleRARVEvent (executionId : string) (type : string)
    (event_phase : RARVPhase) (data_taskId : option string) (s : State)
  : State :=
  let s :=
    match map_get executionId (activeAgents s) with
    | Some activeInfo =>
        if String.eqb type "phase-started"
        then set_activeAgents
               (map_set executionId (set_phase event_phase activeInfo)
                        (activeAgents s)) s
        else s
    | None => s
    end in
  emitEvent type data_taskId (Some executionId) s.

(** ** Public API *)

Inductive Completion (A : Type) : Type :=
| Return (a : A)
| Throw (message : string).
Arguments Return {A} a.
Arguments Throw {A} message.

Definition start (cfg : OrchestratorConfig) (now : Z) (s : State) : State :=
  if isRunning s then s
  else
    let s := set_isRunning true s in
    let s := set_isPaused false s in
    let s := set_startTime now s in
    let s := emitEvent "orchestrator-started" None None s in
    processQueue cfg now s.

(** [stop] up to its [await]. *)
Definition stop (s : State) : State := set_isRunning false s.

(** [stop] after its [await]. *)
Definition stop_resumed (s : State) : State :=
  emitEvent "orchestrator-stopped" None None s.

Definition pause (s : State) : State :=
  emitEvent "orchestrator-paused" None None (set_isPaused true s).

Definition resume (cfg : OrchestratorConfig) (now : Z) (s : State) : State :=
  let s := set_isPaused false s in
  let s := emitEvent "orchestrator-resumed" None None s in
  processQueue cfg now s.

Definition dispatch (cfg : OrchestratorConfig) (now : Z) (task : Task)
    (s : State) : State * Completion string :=
  if queueSize cfg <=? Z.of_nat (List.length (taskQueue s)) then
    (s, Throw "Task queue is full")
  else
    let priority := calculatePriority task in
    let queueItem := mkItem task priority now 0 None None in
    let s := set_taskQueue (taskQueue s ++ [queueItem]) s in
    let s := sortQueue s in
    let s := emitEvent "task-queued" (Some (task_id task)) None s in
    let s := if (isRunning s && negb (isPaused s))%bool
             then processQueue cfg now s else s in
    (s, Return (task_id task)).

(** [findIndex] followed by [splice(index, 1)]: the queue without its first
    item that satisfies [f], when there is one. *)
Fixpoint spliceFirst (f : TaskQueueItem -> bool) (q : list TaskQueueItem)
  : option (list TaskQueueItem) :=
  match q with
  | [] => None
  | i :: q' =>
      if f i then Some q'
      else match spliceFirst f q' with
           | Some r => Some (i :: r)
           | None => None
           end
  end.

Definition cancelTask (taskId : string) (s : State) : State * bool :=
  match spliceFirst (fun item => String.eqb (task_id (item_task item)) taskId)
                    (taskQueue s) with
  | Some q =>
      (emitEvent "task-cancelled" (Some taskId) None (set_taskQueue q s), true)
  | None => (s, false)
  end.

Record TaskQueueStatus : Type := mkQueueStatus {
  qs_pending : Z;
  qs_inProgress : Z;
  qs_completed : Z;
  qs_failed : Z;
  qs_totalCost : Q
}.

Definition getQueueStatus (s : State) : TaskQueueStatus :=
  {| qs_pending := Z.of_nat (List.length (taskQueue s));
     qs_inProgress := map_size (activeAgents s);
     qs_completed := Z.of_nat (List.length (completedTasks s));
     qs_failed := Z.of_nat (List.length (failedTasks s));
     qs_totalCost := totalCost s |}.

(** ** Status introspection *)

(** One step of the [reduce] of [getCurrentPhase]:
    [acc[phase] = (acc[phase] || 0) + 1].  The keys of an object keep the
    order in which they were first written. *)
Fixpoint countPhase (acc : list (RARVPhase * Z)) (p : RARVPhase)
  : list (RARVPhase * Z) :=
  match acc with
  | [] => [(p, or_default 0 0 + 1)]
  | (q, c) :: acc' =>
      if phase_eqb q p then (q, or_default c 0 + 1) :: acc'
      else (q, c) :: countPhase acc' p
  end.

Definition getCurrentPhase (s : State) : RARVPhase :=
  if map_size (activeAgents s) =? 0 then idle
  else
    let phases := map phase (map_values (activeAgents s)) in
    let phaseCounts := fold_left countPhase phases [] in
    match sort_desc snd phaseCounts with
    | (p, _) :: _ => p
    | [] => idle    (* not reached: [phaseCounts] has an entry *)
    end.

(** ** The orchestrator as a transition system

    JavaScript runs one job to completion before the next one starts.  An
    input is one such job: a call of the public API, an event of a running
    cycle, or a reaction of the promise chain of [executeTask]. *)

Inductive Input : Type :=
| do_start (now : Z)
| do_stop
| do_stop_resumed
| do_pause
| do_resume (now : Z)
| do_dispatch (task : Task) (now : Z)
| do_cancelTask (taskId : string)
| do_rarvEvent (executionId type : string) (event_phase : RARVPhase)
               (data_taskId : option string)
| do_settle (n : nat) (w : RaceWinner) (now : Z)
    (* the race of the [n]-th pending chain settles: [then] / [catch] *)
| do_finally (n : nat) (now : Z).
    (* the [finally] reaction of the [n]-th pending chain *)

Fixpoint markHandled (n : nat) (l : list Execution) : list Execution :=
  match n, l with
  | _, [] => []
  | O, e :: l' => mkExec (exec_id e) (exec_item e) true :: l'
  | S n', e :: l' => e :: markHandled n' l'
  end.

Fixpoint dropNth (n : nat) (l : list Execution) : list Execution :=
  match n, l with
  | _, [] => []
  | O, _ :: l' => l'
  | S n', e :: l' => e :: dropNth n' l'
  end.

(** [.then(result => handleTaskCompletion(..)).catch(error =>
    handleTaskError(..))] for the chain [e]. *)
Definition settleReaction (cfg : OrchestratorConfig) (now : Z) (e : Execution)
    (w : RaceWinner) (s : State) : State :=
  match runExecution cfg w with
  | fulfilled result => handleTaskCompletion (exec_id e) result s
  | rejected message =>
      handleTaskError cfg now (exec_id e) (exec_item e) message s
  end.

(** [.finally(() => { activeAgents.delete(..); processQueue(); })]. *)
Definition finallyReaction (cfg : OrchestratorConfig) (now : Z) (e : Execution)
    (s : State) : State :=
  processQueue cfg now
    (set_activeAgents (map_delete (exec_id e) (activeAgents s)) s).

Definition step (cfg : OrchestratorConfig) (s : State) (i : Input) : State :=
  match i with
  | do_start now => start cfg now s
  | do_stop => stop s
  | do_stop_resumed => stop_resumed s
  | do_pause => pause s
  | do_resume now => resume cfg now s
  | do_dispatch task now => fst (dispatch cfg now task s)
  | do_cancelTask taskId => fst (cancelTask taskId s)
  | do_rarvEvent executionId type event_phase data_taskId =>
      handleRARVEvent executionId type event_phase data_taskId s
  | do_settle n w now =>
      match nth_error (pending s) n with
      | Some e =>
          if handled e then s
          else settleReaction cfg now e w
                 (set_pending (markHandled n (pending s)) s)
      | None => s
      end
  | do_finally n now =>
      match nth_error (pending s) n with
      | Some e =>
          if handled e
          then finallyReaction cfg now e
                 (set_pending (dropNth n (pending s)) s)
          else s
      | None => s
      end
  end.

Definition run_from (cfg : OrchestratorConfig) (s : State)
    (inputs : list Input) : State :=
  fold_left (step cfg) inputs s.

Definition run (cfg : OrchestratorConfig) (inputs : list Input) : State :=
  run_from cfg initial inputs.

(** ** Observations used by the statements *)

Definition item_id (i : TaskQueueItem) : string := task_id (item_task i).

Definition queue_ids (s : State) : list string := map item_id (taskQueue s).

(** Attempts whose race has not settled yet. *)
Definition inflight (s : State) : list Execution :=
  filter (fun e => negb (handled e)) (pending s).

Definition inflight_ids (s : State) : list string :=
  map (fun e => item_id (exec_item e)) (inflight s).

Definition own_event (type : string) (e : RARVEvent) : bool :=
  (String.eqb (ev_type e) type &&
   match ev_data_executionId e with None => true | Some _ => false end)%bool.

Definition event_id (e : RARVEvent) : string :=
  match ev_data_taskId e with Some id => id | None => "" end.

(** Task ids accepted by [dispatch], oldest first. *)
Definition dispatched_ids (s : State) : list string :=
  map event_id (filter (own_event "task-queued") (emitted s)).

(** Task ids removed by [cancelTask], oldest first. *)
Definition cancelled_ids (s : State) : list string :=
  map event_id (filter (own_event "task-cancelled") (emitted s)).

Definition completed_ids (s : State) : list string :=
  map res_taskId (completedTasks s).

Definition failed_ids (s : State) : list string :=
  map res_taskId (failedTasks s).

(** Task ids with a terminal outcome. *)
Definition terminal_ids (s : State) : list string :=
  completed_ids s ++ failed_ids s ++ cancelled_ids s.

Definition quiescent (s : State) : bool :=
  match taskQueue s, pending s with
  | [], [] => true
  | _, _ => false
  end.

(** The data model of the specification: task ids are unique, and a result
    is attributable to the task whose attempt produced it. *)
Definition input_ok (s : State) (i : Input) : bool :=
  match i with
  | do_dispatch task _ =>
      negb (existsb (String.eqb (task_id task)) (dispatched_ids s))
  | do_settle n (cycleFulfilled result) _ =>
      match nth_error (pending s) n with
      | Some e => String.eqb (res_taskId result) (item_id (exec_item e))
      | None => true
      end
  | _ => true
  end.

Fixpoint valid_run (cfg : OrchestratorConfig) (s : State)
    (inputs : list Input) : bool :=
  match inputs with
  | [] => true
  | i :: inputs' => (input_ok s i && valid_run cfg (step cfg s i) inputs')%bool
  end.

Definition count_events (type : string) (s : State) : Z :=
  Z.of_nat (List.length (filter (fun e => String.eqb (ev_type e) type)
                                (emitted s))).

(** ** The specification's wording of the pure operations *)

Definition tierBase (p : TaskPriority) : Z :=
  match p with critical => 100 | high => 75 | medium => 50 | low => 25 end.

Definition confidenceBonus (c : Q) : Z :=
  if Qle_bool (9 # 10) c then 20
  else if Qle_bool (6 # 10) c then 10
  else 0.

Definition complexityPenalty (files : list string) : Z :=
  if (5 <? List.length files)%nat then 10 else 0.

Definition specScore (t : Task) : Z :=
  tierBase (task_priority t) + confidenceBonus (task_confidence t)
  - complexityPenalty (task_files t).







(** ** Matching without regard to letter case, letter by letter *)











(** ** The specification's wording of the current phase *)

Definition count_phase (p : RARVPhase) (ps : list RARVPhase) : Z :=
  Z.of_nat (List.length (filter (phase_eqb p) ps)).

(** [p] is a plurality phase of [ps]: no phase of [ps] occurs more often. *)
Definition is_plurality (ps : list RARVPhase) (p : RARVPhase) : bool :=
  forallb (fun q => count_phase q ps <=? count_phase p ps) ps.

(** The plurality phase of the slots [ps], a tie going to the phase that
    comes first in the enumeration [order]; [idle] without slots. *)
Definition pluralityByOrder (order ps : list RARVPhase) : RARVPhase :=
  match ps with
  | [] => idle
  | _ :: _ =>
      match find (fun p => (existsb (phase_eqb p) ps && is_plurality ps p)%bool)
                 order with
      | Some p => p
      | None => idle
      end
  end.

Definition slot_phases (s : State) : list RARVPhase :=
  map phase (map_values (activeAgents s)).

(** The phases of [ps], each once, in the order of first occurrence: the
    key order of the object that [getCurrentPhase] fills. *)
Fixpoint firstOccurrences (ps : list RARVPhase) : list RARVPhase :=
  match ps with
  | [] => []
  | p :: ps' =>
      p :: filter (fun q => negb (phase_eqb q p)) (firstOccurrences ps')
  end.

(** ** Notions used in the proofs *)

(** The promise chains [executeTask] creates at time [now] for the items
    [l], in order. *)
Definition admitted (now : Z) (l : list TaskQueueItem) : list Execution :=
  map (fun i => mkExec ("exec_" ++ item_id i ++ "_" ++ show_Z now)%string
                       i false) l.

(** Where a dispatched task is before its terminal outcome: in the queue, or
    in an attempt whose race has not settled. *)
Definition slots (s : State) : list string := queue_ids s ++ inflight_ids s.

Definition accounted (s : State) : list string := slots s ++ terminal_ids s.

(** The queue is in admission order: no priority grows towards the back. *)
Definition queue_sorted (q : list TaskQueueItem) : Prop :=
  StronglySorted (key_ge priority) q.



(** The ids [dispatch] accepts on input [i]. *)
Definition accepted_ids (cfg : OrchestratorConfig) (s : State) (i : Input)
  : list string :=
  match i with
  | do_dispatch task _ =>
      if queueSize cfg <=? Z.of_nat (List.length (taskQueue s)) then []
      else [task_id task]
  | _ => []
  end.

(** Under the labelling [lab] of task ids, the result of a fulfilled attempt
    names the task of that attempt. *)
Definition attributable (L : Type) (lab : string -> L) (s : State) (i : Input)
  : Prop :=
  match i with
  | do_settle n (cycleFulfilled result) _ =>
      match nth_error (pending s) n with
      | Some e => lab (res_taskId result) = lab (item_id (exec_item e))
      | None => True
      end
  | _ => True
  end.


(** Two states hold the same labelled ids and have accepted the same
    tasks. *)
Definition same_ledger (L : Type) (lab : string -> L) (s' s : State) : Prop :=
  Permutation (map lab (accounted s')) (map lab (accounted s))
  /\ dispatched_ids s' = dispatched_ids s.

(** [attributable] holds at every input of a run from [s]. *)
Fixpoint attributable_run (L : Type) (lab : string -> L)
    (cfg : OrchestratorConfig) (s : State) (inputs : list Input) : Prop :=
  match inputs with
  | [] => True
  | i :: inputs' =>
      attributable lab s i /\ attributable_run lab cfg (step cfg s i) inputs'
  end.


(** [l1] is [l2] with some elements left out: the elements of [l1] occur
    in [l2], in the same order. *)
Inductive subsequence (A : Type) : list A -> list A -> Prop :=
| sub_nil : forall l, subsequence [] l
| sub_keep : forall x l1 l2,
    subsequence l1 l2 -> subsequence (x :: l1) (x :: l2)
| sub_skip : forall x l1 l2, subsequence l1 l2 -> subsequence l1 (x :: l2).

(** ** Sample data for the checks on concrete inputs *)

Definition sampleTask (id : string) (tier : TaskPriority) : Task :=
  mkTask id ("work on " ++ id)%string general tier (7 # 10) [].

Definition sampleResult (id : string) (ok : bool) : TaskResult :=
  {| res_taskId := id; success := ok; output := "done"; artifacts := [];
     learnings := [];
     metrics := {| totalTokens := 30; inputTokens := 10; outputTokens := 20;
                   cost := 1 # 100; duration := 5;
                   phaseTimings := fun _ => 1 |};
     errors := if ok then []
               else [mkError "PHASE_FAILED" "verify failed" verify true];
     retryCount := 0 |}.

(** One slot, one attempt per task. *)
Definition singleSlotConfig : OrchestratorConfig :=
  {| maxConcurrent := 1; queueSize := 100; taskTimeout := 300000;
     retryFailedTasks := true; maxRetries := 1;
     priorityBoostOnAge := true; priorityBoostThreshold := 60000 |}.

(** Three tasks: one completes, one times out, one is cancelled while
    queued. *)
Definition sampleRun : list Input :=
  [ do_start 0;
    do_dispatch (sampleTask "a" high) 1;
    do_dispatch (sampleTask "b" medium) 2;
    do_dispatch (sampleTask "c" low) 3;
    do_cancelTask "c";
    do_settle 0 (cycleFulfilled (sampleResult "a" true)) 10;
    do_finally 0 10;
    do_settle 0 timeoutFired 300010;
    do_finally 0 300010 ].


(** A stopped orchestrator holding a low, a critical and another low task,
    dispatched in that order. *)
Definition sampleQueued : State :=
  run DEFAULT_CONFIG
      [ do_dispatch (sampleTask "l1" low) 1;
        do_dispatch (sampleTask "c" critical) 2;
        do_dispatch (sampleTask "l2" low) 3 ].


(** ** One task on an otherwise idle orchestrator *)

(** The number of attempts [handleTaskError] allows a task. *)
Definition attemptsAllowed (cfg : OrchestratorConfig) : nat :=
  if (retryFailedTasks cfg && (1 <? maxRetries cfg))%bool
  then Z.to_nat (maxRetries cfg) else 1%nat.

(** [n] attempts in a row: the race of attempt [k] is won by [w k], then
    the [finally] reaction of its chain runs. *)
Definition failingRounds (w : nat -> RaceWinner) (clock : nat -> Z) (n : nat)
  : list Input :=
  flat_map (fun k => [do_settle 0 (w k) (clock k); do_finally 0 (clock k)])
           (seq 0 n).

(** Start the orchestrator, dispatch [task], let [n] attempts settle. *)
Definition lonelyRun (t0 : Z) (task : Task) (t1 : Z) (w : nat -> RaceWinner)
    (clock : nat -> Z) (n : nat) : list Input :=
  do_start t0 :: do_dispatch task t1 :: failingRounds w clock n.

(** [task] is in its attempt number [k] (counted from zero) and nothing else
    is queued, running or finished. *)
Definition lonely (task : Task) (k : Z) (s : State) : Prop :=
  isRunning s = true /\ isPaused s = false /\ taskQueue s = [] /\
  completedTasks s = [] /\ failedTasks s = [] /\
  exists id item a,
    pending s = [mkExec id item false] /\ activeAgents s = [(id, a)] /\
    item_task item = task /\ attempts item = k.

(** The race of an attempt is lost: the cycle rejects or the timeout
    fires. *)
Definition rejects (w : RaceWinner) : bool :=
  match w with
  | cycleFulfilled _ => false
  | cycleRejected _ | timeoutFired => true
  end.

Definition rejectionMessage (cfg : OrchestratorConfig) (w : RaceWinner)
  : string :=
  match runExecution cfg w with
  | rejected message => message
  | fulfilled _ => ""
  end.


(** ** The specification's wording of the retry policy *)

(** An attempt has failed: the race was lost, or the cycle reported a
    result that is not a success. *)
Definition attemptFailed (w : RaceWinner) : bool :=
  match w with
  | cycleFulfilled result => negb (success result)
  | cycleRejected _ | timeoutFired => true
  end.

(** The retry policy applied between [s] and [s'] to [item], whose attempt
    [executionId] failed with [message] at [now]: the attempt is counted and
    the error recorded; while attempts remain and retrying is enabled the
    item goes back to the queue, [task-retry] is emitted and the failed set
    is untouched; otherwise one failure result joins the failed set. *)
Definition retryPolicy (cfg : OrchestratorConfig) (now : Z)
    (executionId : string) (item : TaskQueueItem) (message : string)
    (s s' : State) : Prop :=
  let item' := recordFailure now message item in
  attempts item' = attempts item + 1 /\
  item_error item' = Some message /\
  completedTasks s' = completedTasks s /\
  exists ev,
    emitted s' = emitted s ++ [ev] /\
    ev_data_taskId ev = Some (item_id item) /\
    ev_data_executionId ev = Some executionId /\
    if (retryFailedTasks cfg && (attempts item' <? maxRetries cfg))%bool
    then ev_type ev = "task-retry" /\
         taskQueue s' = sort_desc priority (taskQueue s ++ [item']) /\
         failedTasks s' = failedTasks s
    else ev_type ev = "task-failed" /\
         taskQueue s' = taskQueue s /\
         failedTasks s' = failedTasks s ++ [failureResult now message item'].

(** The policy is applied when the [n]-th pending attempt of [s] settles
    with [w]. *)
Definition retryPolicyApplied (cfg : OrchestratorConfig) (s : State)
    (n : nat) (w : RaceWinner) (now : Z) : Prop :=
  forall e,
    nth_error (pending s) n = Some e -> handled e = false ->
    exists message,
      retryPolicy cfg now (exec_id e) (exec_item e) message s
                  (step cfg s (do_settle n w now)).

(** The retry bound: [task], alone on the orchestrator, with attempts that
    settle as [w] says, is retried [maxRetries - 1] times; no failure is
    recorded before the last attempt; then the failed set holds one result,
    with [retryCount = maxRetries], no success, and an error. *)
Definition retryBound (cfg : OrchestratorConfig) (t0 : Z) (task : Task)
    (t1 : Z) (w : nat -> RaceWinner) (clock : nat -> Z) : Prop :=
  let n := Z.to_nat (maxRetries cfg) in
  let s := run cfg (lonelyRun t0 task t1 w clock n) in
  count_events "task-retry" s = maxRetries cfg - 1 /\
  (forall k, (k < n)%nat ->
             failedTasks (run cfg (lonelyRun t0 task t1 w clock k)) = []) /\
  exists r,
    failedTasks s = [r] /\ res_taskId r = task_id task /\
    retryCount r = maxRetries cfg /\ success r = false /\ errors r <> [].

Definition noRetryConfig : OrchestratorConfig :=
  {| maxConcurrent := 4; queueSize := 100; taskTimeout := 300000;
     retryFailedTasks := false; maxRetries := 3;
     priorityBoostOnAge := true; priorityBoostThreshold := 60000 |}.

(** A running orchestrator with task "a" in its first attempt. *)
Definition sampleAttempt : State :=
  run DEFAULT_CONFIG [do_start 0; do_dispatch (sampleTask "a" high) 1].


(** ** Further methods of the orchestrator *)

(** [getTaskResult]: the first result with the id, completed results
    first. *)
Definition getTaskResult (taskId : string) (s : State) : option TaskResult :=
  find (fun r => String.eqb (res_taskId r) taskId)
       (completedTasks s ++ failedTasks s).

(** The admission loop is switched off: the orchestrator is stopped or
    paused. *)
Definition halted (s : State) : Prop :=
  isRunning s = false \/ isPaused s = true.

(** The inputs that switch the admission loop on. *)
Definition restarts (i : Input) : bool :=
  match i with
  | do_start _ | do_resume _ => true
  | _ => false
  end.

(** The promise chains of a state, by execution id and queue item. *)
Definition chains (s : State) : list (string * TaskQueueItem) :=
  map (fun e => (exec_id e, exec_item e)) (pending s).

(** Every promise chain of [s] still waits for its [then] / [catch]
    reaction: no [finally] reaction is due. *)
Definition no_finally_due (s : State) : Prop :=
  Forall (fun e => handled e = false) (pending s).

(** The items of a state that can still be attempted: queued, or in an
    attempt whose race has not settled. *)
Definition live_items (s : State) : list TaskQueueItem :=
  taskQueue s ++ map exec_item (inflight s).

(** The attempt counter of an item is within the retry budget. *)
Definition within_budget (cfg : OrchestratorConfig) (i : TaskQueueItem)
  : Prop :=
  attempts i = 0 \/
  (retryFailedTasks cfg = true /\ 0 < attempts i < maxRetries cfg).

Definition active_keys (s : State) : list string :=
  map fst (activeAgents s).


(** What [boostAgedTasks] leaves alone in an item: everything but the
    priority. *)
Definition unscored (i : TaskQueueItem)
  : Task * Z * Z * option Z * option string :=
  (item_task i, addedAt i, attempts i, lastAttemptAt i, item_error i).


(** The costs of [l] added up from the left, as [this.totalCost += ...]
    does over time. *)
Definition costOf (l : list TaskResult) : Q :=
  fold_left (fun acc r => (acc + cost (metrics r))%Q) l 0%Q.

(** The books of results are in order: completed results are successes,
    failed results are not, and the running total is the cost of the
    completed results. *)
Definition books_in_order (s : State) : Prop :=
  Forall (fun r => success r = true) (completedTasks s) /\
  Forall (fun r => success r = false) (failedTasks s) /\
  totalCost s = costOf (completedTasks s).


(** [dispatchBatch]: the tasks are dispatched one after the other; each
    [await] lets other jobs run before the next task is dispatched.  An
    entry of [batch] is a task, the clock value at its dispatch and the
    inputs that run while its [await] is pending.  A rejected [dispatch]
    ends the loop with that error. *)
Fixpoint dispatchBatch (cfg : OrchestratorConfig)
    (batch : list (Task * Z * list Input)) (s : State)
  : State * Completion (list string) :=
  match batch with
  | [] => (s, Return [])
  | (task, now, others) :: rest =>
      match dispatch cfg now task s with
      | (s1, Throw message) => (s1, Throw message)
      | (s1, Return id) =>
          match dispatchBatch cfg rest (run_from cfg s1 others) with
          | (s2, Return taskIds) => (s2, Return (id :: taskIds))
          | (s2, Throw message) => (s2, Throw message)
          end
      end
  end.

Definition batch_ids (batch : list (Task * Z * list Input)) : list string :=
  map (fun entry => task_id (fst (fst entry))) batch.


(** ** Observations along a run *)

(** What [obs] sees at the steps of the run of [inputs] from [s], in
    order. *)
Fixpoint observed (A : Type) (obs : State -> Input -> list A)
    (cfg : OrchestratorConfig) (s : State) (inputs : list Input) : list A :=
  match inputs with
  | [] => []
  | i :: inputs' => obs s i ++ observed obs cfg (step cfg s i) inputs'
  end.


(** The item a step pushes onto the queue: the new item of a [dispatch]
    that is accepted, or the item [handleTaskError] puts back for another
    attempt. *)
Definition enqueued (cfg : OrchestratorConfig) (s : State) (i : Input)
  : list TaskQueueItem :=
  match i with
  | do_dispatch task now =>
      if queueSize cfg <=? Z.of_nat (List.length (taskQueue s)) then []
      else [mkItem task (calculatePriority task) now 0 None None]
  | do_settle n w now =>
      match nth_error (pending s) n with
      | Some e =>
          if handled e then []
          else
            match runExecution cfg w with
            | rejected message =>
                let queueItem := recordFailure now message (exec_item e) in
                if (retryFailedTasks cfg
                    && (attempts queueItem <? maxRetries cfg))%bool
                then [queueItem] else []
            | fulfilled _ => []
            end
      | None => []
      end
  | _ => []
  end.

(** The attempt a step settles: the id of its task and the winner of its
    race. *)
Definition settled (s : State) (i : Input) : list (string * RaceWinner) :=
  match i with
  | do_settle n w _ =>
      match nth_error (pending s) n with
      | Some e => if handled e then [] else [(item_id (exec_item e), w)]
      | None => []
      end
  | _ => []
  end.

Definition of_task (A : Type) (taskId : string) (l : list (string * A))
  : list A :=
  map snd (filter (fun a => String.eqb (fst a) taskId) l).

(** The attempts of task [taskId] that have settled in the run of
    [inputs], by the winner of their race, in order. *)
Definition attemptsOf (taskId : string) (cfg : OrchestratorConfig)
    (inputs : list Input) : list RaceWinner :=
  of_task taskId (observed settled cfg initial inputs).

(** The failure results recorded for task [taskId]. *)
Definition failuresOf (taskId : string) (s : State) : list TaskResult :=
  filter (fun r => String.eqb (res_taskId r) taskId) (failedTasks s).

(** The state agrees with [c] rejected attempts of task [taskId] and no
    other attempt of it. *)
Definition tracked (cfg : OrchestratorConfig) (taskId : string) (c : Z)
    (s : State) : Prop :=
  0 <= c <= maxRetries cfg /\
  (c <> 0 -> In taskId (dispatched_ids s)) /\
  Forall (fun i => item_id i = taskId ->
                   attempts i = c /\ c < maxRetries cfg) (live_items s) /\
  Forall (fun r => res_taskId r = taskId ->
                   c = maxRetries cfg /\ retryCount r = maxRetries cfg /\
                   success r = false /\ errors r <> []) (failedTasks s) /\
  (c = maxRetries cfg -> In taskId (failed_ids s)) /\
  ~ In taskId (completed_ids s).

(** The ledger of ids of a run with unique task ids. *)
Definition ledger_ok (s : State) : Prop :=
  Permutation (accounted s) (dispatched_ids s) /\ NoDup (dispatched_ids s).

(** ** Enqueue order and admission order *)




(** The items pushed onto the queue in the run of [inputs], oldest
    first, and the items admitted in it, in the order of admission. *)
Definition enqueueLog (cfg : OrchestratorConfig) (inputs : list Input)
  : list TaskQueueItem :=
  observed (enqueued cfg) cfg initial inputs.


(** The number of times an item of task [taskId] was put back for another
    attempt, among the pushed items [l]: a new item has no attempt behind
    it, an item put back has at least one. *)
Definition retried (taskId : string) (l : list TaskQueueItem) : Z :=
  Z.of_nat (List.length
              (filter (fun x => (String.eqb (item_id x) taskId
                                 && (0 <? attempts x))%bool) l)).

(** The retries of task [taskId] in the run of [inputs]. *)
Definition retriesOf (taskId : string) (cfg : OrchestratorConfig)
    (inputs : list Input) : Z :=
  retried taskId (enqueueLog cfg inputs).







(** Two tasks share the orchestrator: every attempt of "a" is rejected,
    "b" completes in between. *)
Definition interleavedRun : list Input :=
  [ do_start 0;
    do_dispatch (sampleTask "a" high) 1;
    do_dispatch (sampleTask "b" medium) 2;
    do_settle 0 (cycleRejected "boom") 10;
    do_finally 0 10;
    do_settle 0 (cycleFulfilled (sampleResult "b" true)) 11;
    do_finally 0 11;
    do_settle 0 timeoutFired 300012;
    do_finally 0 300012;
    do_settle 0 (cycleRejected "boom") 300013;
    do_finally 0 300013 ].

(** * The agent factory ([core/agents/agent-factory.ts]) *)

Inductive AgentCategory : Type :=
| cat_engineering | cat_quality | cat_support | cat_planning.

(** The string behind an [AgentType]: the key of the factory's maps. *)
Definition agentTypeName (t : AgentType) : string :=
  match t with
  | frontend => "frontend" | backend => "backend" | database => "database"
  | api => "api" | devops => "devops" | qa => "qa"
  | code_review => "code-review" | security_review => "security-review"
  | test_gen => "test-gen" | perf => "perf"
  | docs => "docs" | refactor => "refactor" | migration => "migration"
  | architect => "architect" | decomposition => "decomposition"
  end.

(** The fifteen agent classes. *)
Inductive AgentClass : Type :=
| FrontendAgent | BackendAgent | DatabaseAgent | ApiAgent | DevOpsAgent
| QAAgent
| CodeReviewAgent | SecurityReviewAgent | TestGenAgent | PerfAgent
| DocsAgent | RefactorAgent | MigrationAgent
| ArchitectAgent | DecompositionAgent.

(** The type each class hands to [super(...)] in its constructor. *)
Definition class_type (c : AgentClass) : AgentType :=
  match c with
  | FrontendAgent => frontend | BackendAgent => backend
  | DatabaseAgent => database | ApiAgent => api | DevOpsAgent => devops
  | QAAgent => qa
  | CodeReviewAgent => code_review | SecurityReviewAgent => security_review
  | TestGenAgent => test_gen | PerfAgent => perf
  | DocsAgent => docs | RefactorAgent => refactor
  | MigrationAgent => migration
  | ArchitectAgent => architect | DecompositionAgent => decomposition
  end.

(** [getDefaultModel] of a class, where the class overrides it. *)
Definition class_defaultModel (c : AgentClass) : option string :=
  match c with
  | FrontendAgent | BackendAgent | DatabaseAgent | ApiAgent | DevOpsAgent
  | QAAgent => None
  | ArchitectAgent => Some "opus"
  | CodeReviewAgent | SecurityReviewAgent | TestGenAgent | PerfAgent
  | DocsAgent | RefactorAgent | MigrationAgent | DecompositionAgent =>
      Some "sonnet"
  end.

(** A value of a property of a [Partial<AgentConfig>]. *)
Inductive ConfigValue : Type :=
| cv_string (s : string)
| cv_number (n : Z).

(** A [Partial<AgentConfig>]: an object, its properties in insertion
    order. *)
Definition PartialConfig : Type := list (string * ConfigValue).

(** [{...a, ...b}]: the properties of [a], then those of [b], written into
    an empty object; a key written again keeps its place and takes the new
    value. *)
Definition spread (a b : PartialConfig) : PartialConfig :=
  fold_left (fun acc kv => map_set (fst kv) (snd kv) acc) (a ++ b) [].

(** An agent object: its class, what its constructor received, and the
    identity of the object. *)
Record Agent : Type := mkAgent {
  agent_class : AgentClass;
  agent_type : AgentType;
  agent_provider : nat;
  agent_config : PartialConfig;
  agent_ref : nat
}.

Record AgentFactory : Type := mkFactory {
  f_provider : nat;
  agentCache : list (string * Agent);
  defaultConfigs : list (string * PartialConfig);
  f_allocated : nat        (* objects created so far by [new] *)
}.

Record AgentDescription : Type := mkDescription {
  desc_type : AgentType;
  desc_category : AgentCategory;
  desc_name : string;
  desc_description : string;
  desc_specialties : list string;
  desc_defaultModel : string
}.

Definition AGENT_DESCRIPTIONS (t : AgentType) : AgentDescription :=
  match t with
  | frontend =>
      mkDescription frontend cat_engineering "Frontend Agent"
        "Specializes in frontend development with React, Vue, Angular, CSS, and HTML"
        ["React"; "Vue"; "Angular"; "CSS"; "HTML"; "TypeScript"] "sonnet"
  | backend =>
      mkDescription backend cat_engineering "Backend Agent"
        "Specializes in backend development with Node.js, Python, Go, and Java"
        ["Node.js"; "Python"; "Go"; "Java"; "APIs"; "Microservices"] "sonnet"
  | database =>
      mkDescription database cat_engineering "Database Agent"
        "Specializes in SQL, migrations, schema design, and query optimization"
        ["PostgreSQL"; "MySQL"; "MongoDB"; "Redis"; "Migrations"] "sonnet"
  | api =>
      mkDescription api cat_engineering "API Agent"
        "Specializes in REST, GraphQL, and OpenAPI specification"
        ["REST"; "GraphQL"; "OpenAPI"; "gRPC"; "API Design"] "sonnet"
  | devops =>
      mkDescription devops cat_engineering "DevOps Agent"
        "Specializes in CI/CD, Docker, Kubernetes, and infrastructure as code"
        ["Docker"; "Kubernetes"; "CI/CD"; "Terraform"; "AWS/GCP/Azure"]
        "sonnet"
  | qa =>
      mkDescription qa cat_engineering "QA Agent"
        "Specializes in test strategy, E2E testing, and integration testing"
        ["Playwright"; "Cypress"; "Test Strategy"; "E2E"; "Integration"]
        "sonnet"
  | code_review =>
      mkDescription code_review cat_quality "Code Review Agent"
        "Specializes in code quality analysis, patterns, and maintainability"
        ["Code Quality"; "Best Practices"; "SOLID"; "Clean Code"] "sonnet"
  | security_review =>
      mkDescription security_review cat_quality "Security Review Agent"
        "Specializes in vulnerability detection, secrets scanning, and OWASP compliance"
        ["OWASP"; "Vulnerabilities"; "Secrets"; "Security Audit"] "sonnet"
  | test_gen =>
      mkDescription test_gen cat_quality "Test Generation Agent"
        "Specializes in generating unit tests and achieving coverage targets"
        ["Unit Tests"; "Coverage"; "Jest"; "pytest"; "Mocking"] "sonnet"
  | perf =>
      mkDescription perf cat_quality "Performance Agent"
        "Specializes in performance analysis, profiling, and optimization"
        ["Performance"; "Optimization"; "Profiling"; "Complexity"] "sonnet"
  | docs =>
      mkDescription docs cat_support "Documentation Agent"
        "Specializes in README files, API documentation, and code comments"
        ["README"; "API Docs"; "JSDoc"; "Technical Writing"] "sonnet"
  | refactor =>
      mkDescription refactor cat_support "Refactor Agent"
        "Specializes in code cleanup, modernization, and pattern improvements"
        ["Refactoring"; "Code Cleanup"; "Modernization"; "Patterns"] "sonnet"
  | migration =>
      mkDescription migration cat_support "Migration Agent"
        "Specializes in language/framework upgrades and version migrations"
        ["Migrations"; "Upgrades"; "Version Updates"; "Codemods"] "sonnet"
  | architect =>
      mkDescription architect cat_planning "Architect Agent"
        "Specializes in system design and architecture decisions"
        ["System Design"; "Architecture"; "ADRs"; "Scalability"] "opus"
  | decomposition =>
      mkDescription decomposition cat_planning "Decomposition Agent"
        "Specializes in breaking complex tasks into manageable subtasks"
        ["Task Breakdown"; "Dependencies"; "Planning"; "Prioritization"]
        "sonnet"
  end.

Definition getAgentDescription (t : AgentType) : AgentDescription :=
  AGENT_DESCRIPTIONS t.

Definition getAllAgentTypes : list AgentType :=
  [ frontend; backend; database; api; devops; qa;
    code_review; security_review; test_gen; perf;
    docs; refactor; migration;
    architect; decomposition ].

Definition getAgentsByCategory (category : AgentCategory) : list AgentType :=
  match category with
  | cat_engineering => [frontend; backend; database; api; devops; qa]
  | cat_quality => [code_review; security_review; test_gen; perf]
  | cat_support => [docs; refactor; migration]
  | cat_planning => [architect; decomposition]
  end.

(** The [switch] of [instantiateAgent]; its [default] branch throws and is
    out of reach of a typed argument. *)
Definition classFor (t : AgentType) : AgentClass :=
  match t with
  | frontend => FrontendAgent | backend => BackendAgent
  | database => DatabaseAgent | api => ApiAgent | devops => DevOpsAgent
  | qa => QAAgent
  | code_review => CodeReviewAgent | security_review => SecurityReviewAgent
  | test_gen => TestGenAgent | perf => PerfAgent
  | docs => DocsAgent | refactor => RefactorAgent
  | migration => MigrationAgent
  | architect => ArchitectAgent | decomposition => DecompositionAgent
  end.

Definition instantiateAgent (t : AgentType) (config : PartialConfig)
    (f : AgentFactory) : Agent :=
  let c := classFor t in
  mkAgent c (class_type c) (f_provider f) config (f_allocated f).

Definition sonnetConfig : PartialConfig :=
  [("model", cv_string "sonnet"); ("maxTokens", cv_number 4000)].

Definition opusConfig : PartialConfig :=
  [("model", cv_string "opus"); ("maxTokens", cv_number 8000)].

(** The map [initializeDefaultConfigs] builds. *)
Definition initialDefaultConfigs : list (string * PartialConfig) :=
  fold_left
    (fun m kv => map_set (agentTypeName (fst kv)) (snd kv) m)
    [ (frontend, sonnetConfig); (backend, sonnetConfig);
      (database, sonnetConfig); (api, sonnetConfig); (devops, sonnetConfig);
      (qa, sonnetConfig);
      (code_review, sonnetConfig); (security_review, sonnetConfig);
      (test_gen, sonnetConfig); (perf, sonnetConfig);
      (docs, sonnetConfig); (refactor, sonnetConfig);
      (migration, sonnetConfig);
      (architect, opusConfig); (decomposition, sonnetConfig) ]
    [].

(** [new AgentFactory(provider)]. *)
Definition newFactory (provider : nat) : AgentFactory :=
  {| f_provider := provider; agentCache := [];
     defaultConfigs := initialDefaultConfigs; f_allocated := 0 |}.

(** [...x] of a value that may be [undefined]. *)
Definition orEmpty (c : option PartialConfig) : PartialConfig :=
  match c with Some c => c | None => [] end.

Definition createAgent (t : AgentType) (config : option PartialConfig)
    (f : AgentFactory) : AgentFactory * Agent :=
  match config, map_get (agentTypeName t) (agentCache f) with
  | None, Some cached => (f, cached)
  | _, _ =>
      let mergedConfig :=
        spread (orEmpty (map_get (agentTypeName t) (defaultConfigs f)))
               (orEmpty config) in
      let agent := instantiateAgent t mergedConfig f in
      let f := mkFactory (f_provider f) (agentCache f) (defaultConfigs f)
                         (S (f_allocated f)) in
      let f :=
        match config with
        | None => mkFactory (f_provider f)
                            (map_set (agentTypeName t) agent (agentCache f))
                            (defaultConfigs f) (f_allocated f)
        | Some _ => f
        end in
      (f, agent)
  end.

(** The loop of [createAllAgents] over the types [ts]. *)
Fixpoint createAgents (ts : list AgentType) (agents : list (string * Agent))
    (f : AgentFactory) : AgentFactory * list (string * Agent) :=
  match ts with
  | [] => (f, agents)
  | t :: ts' =>
      let (f', a) := createAgent t None f in
      createAgents ts' (map_set (agentTypeName t) a agents) f'
  end.

Definition createAllAgents (f : AgentFactory)
  : AgentFactory * list (string * Agent) :=
  createAgents getAllAgentTypes [] f.

Definition setDefaultConfig (t : AgentType) (config : PartialConfig)
    (f : AgentFactory) : AgentFactory :=
  mkFactory (f_provider f)
            (map_delete (agentTypeName t) (agentCache f))
            (map_set (agentTypeName t) config (defaultConfigs f))
            (f_allocated f).

Definition clearCache (f : AgentFactory) : AgentFactory :=
  mkFactory (f_provider f) [] (defaultConfigs f) (f_allocated f).

Definition updateProvider (provider : nat) (f : AgentFactory) : AgentFactory :=
  clearCache (mkFactory provider (agentCache f) (defaultConfigs f)
                        (f_allocated f)).

(** The [agents] map of a new orchestrator: [initializeAgents] asks a new
    factory for all agents; [getAgent] reads the map. *)
Definition initializeAgents (provider : nat) : list (string * Agent) :=
  snd (createAllAgents (newFactory provider)).

Definition getAgent (agents : list (string * Agent)) (t : AgentType)
  : option Agent :=
  map_get (agentTypeName t) agents.

(** The cache holds, under each key, an agent of that type made by this
    factory. *)
Definition cache_sound (f : AgentFactory) : Prop :=
  forall t a,
    map_get (agentTypeName t) (agentCache f) = Some a ->
    agent_type a = t /\ (agent_ref a < f_allocated f)%nat.


(** A JavaScript object has each key once. *)
Definition distinct_keys (V : Type) (m : list (string * V)) : Prop :=
  NoDup (map fst m).

Definition factory_ok (f : AgentFactory) : Prop :=
  distinct_keys (agentCache f) /\ cache_sound f.


(** Every cached agent was made with the provider the factory has now. *)
Definition cache_current (f : AgentFactory) : Prop :=
  forall k a, map_get k (agentCache f) = Some a ->
              agent_provider a = f_provider f.

(** [Map.prototype.set] seen on the keys alone. *)
Definition set_key (k : string) (keys : list string) : list string :=
  if existsb (String.eqb k) keys then keys else keys ++ [k].

(** A method call on a factory. *)
Inductive FactoryCall : Type :=
| call_createAgent (t : AgentType) (config : option PartialConfig)
| call_createAllAgents
| call_setDefaultConfig (t : AgentType) (config : PartialConfig)
| call_clearCache
| call_updateProvider (provider : nat).

Definition factoryStep (f : AgentFactory) (c : FactoryCall) : AgentFactory :=
  match c with
  | call_createAgent t config => fst (createAgent t config f)
  | call_createAllAgents => fst (createAllAgents f)
  | call_setDefaultConfig t config => setDefaultConfig t config f
  | call_clearCache => clearCache f
  | call_updateProvider provider => updateProvider provider f
  end.

(** * Properties *)

(** ** Priority score *)

(** C5: the score computed by [calculatePriority] is the tier base
    (critical 100, high 75, medium 50, low 25) plus the confidence bonus
    (20 from 0.9, 10 from 0.6, 0 below) minus the complexity penalty (10 when
    the file list of the task has more than five entries). *)
Theorem calculatePriority_is_specScore (t : Task) :
  calculatePriority t = specScore t.
Proof.
  unfold calculatePriority, specScore, confidenceBonus, complexityPenalty,
    Qge_bool.
  replace (or_default (priorityMap (task_priority t)) 50)
    with (tierBase (task_priority t)) by (now destruct (task_priority t)).
  assert (Hlen : (5 <? Z.of_nat (List.length (task_files t)))
                 = (5 <? List.length (task_files t))%nat).
  { destruct (Nat.ltb_spec 5 (List.length (task_files t)));
      [apply Z.ltb_lt | apply Z.ltb_ge]; lia. }
  rewrite Hlen.
  destruct (Qle_bool (9 # 10) (task_confidence t));
    destruct (Qle_bool (6 # 10) (task_confidence t));
    destruct (5 <? List.length (task_files t))%nat; lia.
Qed.

(** ** Agent selection *)












(** ** Queue capacity *)

(** C8: [dispatch] on a queue that holds [queueSize] items (or more) throws
    the queue-full error and returns the state as it was; on a queue below
    capacity it returns the id of the task. *)
Theorem dispatch_queue_full (cfg : OrchestratorConfig) (now : Z) (t : Task)
    (s : State) :
  (queueSize cfg <= Z.of_nat (List.length (taskQueue s)) ->
   dispatch cfg now t s = (s, Throw "Task queue is full") /\
   step cfg s (do_dispatch t now) = s) /\
  (Z.of_nat (List.length (taskQueue s)) < queueSize cfg ->
   snd (dispatch cfg now t s) = Return (task_id t)).
Proof.
  unfold step, dispatch. split; intros H.
  - apply Z.leb_le in H. rewrite H. now split.
  - apply Z.leb_gt in H. rewrite H. reflexivity.
Qed.

Lemma dispatch_queue_full_witness :
  let cfg := mkConfig 4 1 300000 true 3 true 60000 in
  let t := mkTask "t1" "first" general medium (1 # 2) [] in
  let u := mkTask "t2" "second" general high (1 # 2) [] in
  let s := fst (dispatch cfg 10 t initial) in
  (dispatch cfg 20 u s = (s, Throw "Task queue is full") /\
   step cfg s (do_dispatch u 20) = s) /\
  snd (dispatch cfg 10 t initial) = Return "t1".
Proof.
  intros cfg t u s. split.
  - apply (dispatch_queue_full cfg 20 u s). vm_compute. discriminate.
  - apply (dispatch_queue_full cfg 10 t initial). reflexivity.
Defined.

(** ** The stable descending sort *)

Section StableSortFacts.
Variable A : Type.
Variable key : A -> Z.

Lemma insert_desc_perm (x : A) (l : list A) :
  Permutation (insert_desc key x l) (x :: l).
Proof.
  induction l as [| y l IH]; simpl; [reflexivity |].
  destruct (key y <=? key x); [reflexivity |].
  rewrite IH. apply perm_swap.
Qed.

Lemma sort_desc_perm (l : list A) : Permutation (sort_desc key l) l.
Proof.
  induction l as [| x l IH]; simpl; [reflexivity |].
  now rewrite insert_desc_perm, IH.
Qed.

Lemma sort_desc_length (l : list A) :
  List.length (sort_desc key l) = List.length l.
Proof. apply Permutation_length, sort_desc_perm. Qed.

Lemma insert_desc_sorted (x : A) (l : list A) :
  StronglySorted (key_ge key) l -> StronglySorted (key_ge key) (insert_desc key x l).
Proof.
  induction 1 as [| y l Hl IH Hy]; simpl.
  - constructor; constructor.
  - destruct (Z.leb_spec (key y) (key x)) as [Hle | Hgt].
    + constructor; [constructor; assumption |].
      constructor; [exact Hle |].
      eapply Forall_impl; [| exact Hy].
      unfold key_ge; intros; lia.
    + constructor; [assumption |].
      eapply Permutation_Forall;
        [symmetry; apply insert_desc_perm |].
      constructor; [unfold key_ge; lia | assumption].
Qed.

Lemma sort_desc_sorted (l : list A) : StronglySorted (key_ge key) (sort_desc key l).
Proof.
  induction l; simpl; [constructor | now apply insert_desc_sorted].
Qed.






(** The head of the sorted list is the first item of largest key. *)
Lemma insert_desc_head (x d : A) (l : list A) :
  hd d (insert_desc key x l)
  = match l with
    | [] => x
    | y :: _ => if key y <=? key x then x else y
    end.
Proof.
  destruct l as [| y l]; [reflexivity |].
  simpl. now destruct (key y <=? key x).
Qed.

Lemma sort_desc_head (x d : A) (l : list A) :
  hd d (sort_desc key (x :: l)) = first_max key x l.
Proof.
  revert x. induction l as [| y l IH]; intros x; [reflexivity |].
  simpl sort_desc. rewrite insert_desc_head.
  specialize (IH y). simpl sort_desc in IH.
  destruct (insert_desc key y (sort_desc key l)) as [| z r] eqn:E.
  - exfalso. apply (Permutation_nil_cons (l := l) (x := y)).
    rewrite <- (sort_desc_perm l), <- insert_desc_perm, E. reflexivity.
  - simpl in IH. simpl. now rewrite IH.
Qed.

Lemma first_max_In (x : A) (l : list A) : In (first_max key x l) (x :: l).
Proof.
  revert x. induction l as [| y l IH]; intros x; [now left |].
  simpl first_max. destruct (_ <=? _); [now left |].
  right. apply IH.
Qed.

Lemma first_max_ge (x : A) (l : list A) (a : A) :
  In a (x :: l) -> key a <= key (first_max key x l).
Proof.
  revert x a. induction l as [| y l IH]; intros x a Ha.
  - destruct Ha as [<- | []]. simpl; lia.
  - simpl first_max.
    destruct (Z.leb_spec (key (first_max key y l)) (key x)) as [Hle | Hgt].
    + destruct Ha as [<- | Ha]; [lia |].
      specialize (IH y a Ha). lia.
    + destruct Ha as [<- | Ha]; [lia |].
      now apply IH.
Qed.

(** Every item before the first maximum has a smaller key. *)
Lemma first_max_first (x : A) (l : list A) :
  exists l1 l2,
    x :: l = l1 ++ first_max key x l :: l2 /\
    Forall (fun a => key a < key (first_max key x l)) l1.
Proof.
  revert x. induction l as [| y l IH]; intros x.
  - exists [], []. split; [reflexivity | constructor].
  - simpl first_max.
    destruct (Z.leb_spec (key (first_max key y l)) (key x)) as [Hle | Hgt].
    + exists [], (y :: l). split; [reflexivity | constructor].
    + destruct (IH y) as (l1 & l2 & E & Hl1).
      exists (x :: l1), l2. split; [simpl; now rewrite E |].
      constructor; assumption.
Qed.
End StableSortFacts.

(** ** Lists: subsequences and filters *)


Lemma subsequence_app_l (A : Type) (l0 l1 l2 : list A) :
  subsequence l1 l2 -> subsequence l1 (l0 ++ l2).
Proof. intros H. induction l0; simpl; [exact H | now constructor]. Qed.


Lemma subsequence_nil (A : Type) (l : list A) : subsequence l [] -> l = [].
Proof. now inversion 1. Qed.






(** ** Pushing an item onto a sorted list *)



(** ** Current phase *)

Lemma phase_eqb_refl (p : RARVPhase) : phase_eqb p p = true.
Proof. now destruct p. Qed.

Lemma phase_eqb_eq (p q : RARVPhase) : phase_eqb p q = true <-> p = q.
Proof. destruct p, q; simpl; split; congruence. Qed.

Lemma phase_eqb_neq (p q : RARVPhase) : phase_eqb p q = false <-> p <> q.
Proof. destruct p, q; simpl; split; congruence. Qed.

Lemma phase_eqb_sym (p q : RARVPhase) : phase_eqb p q = phase_eqb q p.
Proof. now destruct p, q. Qed.

Lemma existsb_phase_In (p : RARVPhase) (l : list RARVPhase) :
  existsb (phase_eqb p) l = true <-> In p l.
Proof.
  rewrite existsb_exists. split.
  - intros (q & Hq & E). apply phase_eqb_eq in E. now subst.
  - intros H. exists p. split; [assumption | apply phase_eqb_refl].
Qed.

Lemma or_default_zero (c : Z) : or_default c 0 = c.
Proof. unfold or_default. destruct (Z.eqb_spec c 0); congruence. Qed.

Lemma In_firstOccurrences (p : RARVPhase) (ps : list RARVPhase) :
  In p (firstOccurrences ps) <-> In p ps.
Proof.
  induction ps as [| x ps IH]; simpl; [tauto |].
  rewrite filter_In, IH, negb_true_iff, phase_eqb_neq.
  destruct (phase_eqb x p) eqn:E.
  - apply phase_eqb_eq in E. tauto.
  - apply phase_eqb_neq in E. split; [tauto |].
    intros [-> | H]; [congruence | right; split; [assumption | congruence]].
Qed.

Lemma NoDup_firstOccurrences (ps : list RARVPhase) :
  NoDup (firstOccurrences ps).
Proof.
  induction ps as [| x ps IH]; simpl; constructor.
  - rewrite filter_In, phase_eqb_refl. intros [_ H]. discriminate.
  - now apply NoDup_filter.
Qed.

Lemma existsb_filter_other (p x : RARVPhase) (l : list RARVPhase) :
  p <> x ->
  existsb (phase_eqb p) (filter (fun q => negb (phase_eqb q x)) l)
  = existsb (phase_eqb p) l.
Proof.
  intros Hpx. induction l as [| y l IH]; [reflexivity |].
  simpl. destruct (phase_eqb y x) eqn:E; simpl; rewrite IH.
  - apply phase_eqb_eq in E. subst y.
    apply phase_eqb_neq in Hpx. now rewrite Hpx.
  - reflexivity.
Qed.

Lemma firstOccurrences_snoc (ps : list RARVPhase) (p : RARVPhase) :
  firstOccurrences (ps ++ [p])
  = if existsb (phase_eqb p) (firstOccurrences ps)
    then firstOccurrences ps else firstOccurrences ps ++ [p].
Proof.
  induction ps as [| x ps IH]; [reflexivity |].
  simpl. rewrite IH.
  destruct (phase_eqb p x) eqn:E; simpl.
  - apply phase_eqb_eq in E. subst x.
    destruct (existsb (phase_eqb p) (firstOccurrences ps)); [reflexivity |].
    rewrite filter_app. simpl. rewrite phase_eqb_refl. simpl.
    now rewrite app_nil_r.
  - assert (Hpx : p <> x) by now apply phase_eqb_neq.
    rewrite (existsb_filter_other _ Hpx).
    destruct (existsb (phase_eqb p) (firstOccurrences ps)); [reflexivity |].
    rewrite filter_app. simpl. now rewrite E.
Qed.

Lemma count_phase_snoc (q p : RARVPhase) (ps : list RARVPhase) :
  count_phase q (ps ++ [p])
  = count_phase q ps + (if phase_eqb q p then 1 else 0).
Proof.
  unfold count_phase. rewrite filter_app, length_app. simpl.
  destruct (phase_eqb q p); simpl; lia.
Qed.

Lemma countPhase_map (c : RARVPhase -> Z) (D : list RARVPhase)
    (p : RARVPhase) :
  NoDup D ->
  countPhase (map (fun q => (q, c q)) D) p
  = if existsb (phase_eqb p) D
    then map (fun q => (q, if phase_eqb q p then c q + 1 else c q)) D
    else map (fun q => (q, c q)) D ++ [(p, 1)].
Proof.
  induction 1 as [| q D Hq HD IH]; [reflexivity |].
  simpl. rewrite (phase_eqb_sym p q).
  destruct (phase_eqb q p) eqn:E; simpl.
  - rewrite or_default_zero. f_equal.
    apply phase_eqb_eq in E. subst q.
    apply map_ext_in. intros a Ha.
    destruct (phase_eqb a p) eqn:E'; [| reflexivity].
    apply phase_eqb_eq in E'. now subst a.
  - rewrite IH. now destruct (existsb (phase_eqb p) D).
Qed.

(** The object filled by the [reduce] of [getCurrentPhase]. *)
Lemma phaseCounts_entries (ps : list RARVPhase) :
  fold_left countPhase ps []
  = map (fun q => (q, count_phase q ps)) (firstOccurrences ps).
Proof.
  induction ps as [| p ps IH] using rev_ind; [reflexivity |].
  rewrite fold_left_app. simpl. rewrite IH.
  rewrite countPhase_map by apply NoDup_firstOccurrences.
  rewrite firstOccurrences_snoc.
  destruct (existsb (phase_eqb p) (firstOccurrences ps)) eqn:E.
  - apply map_ext. intros q. rewrite count_phase_snoc.
    destruct (phase_eqb q p); f_equal; lia.
  - rewrite map_app. simpl. f_equal.
    + apply map_ext_in. intros q Hq. rewrite count_phase_snoc.
      destruct (phase_eqb q p) eqn:E'; [| now rewrite Z.add_0_r].
      apply phase_eqb_eq in E'. subst q.
      apply existsb_phase_In in Hq. congruence.
    + rewrite count_phase_snoc, phase_eqb_refl.
      assert (H0 : count_phase p ps = 0); [| now rewrite H0].
      unfold count_phase.
      assert (Hn : ~ In p ps).
      { rewrite <- In_firstOccurrences, <- existsb_phase_In. congruence. }
      clear -Hn. induction ps as [| x ps IH']; [reflexivity |].
      simpl. destruct (phase_eqb p x) eqn:E.
      * apply phase_eqb_eq in E. subst. exfalso. apply Hn. now left.
      * apply IH'. intros H. apply Hn. now right.
Qed.

Lemma first_max_map (c : RARVPhase -> Z) (x : RARVPhase)
    (l : list RARVPhase) :
  first_max snd (x, c x) (map (fun q => (q, c q)) l)
  = (first_max c x l, c (first_max c x l)).
Proof.
  revert x. induction l as [| y l IH]; intros x; [reflexivity |].
  simpl. rewrite IH. simpl. now destruct (_ <=? _).
Qed.

Lemma getCurrentPhase_first_max (s : State) :
  getCurrentPhase s
  = match firstOccurrences (slot_phases s) with
    | [] => idle
    | p :: r => first_max (fun q => count_phase q (slot_phases s)) p r
    end.
Proof.
  unfold getCurrentPhase, slot_phases, map_size, map_values.
  destruct (activeAgents s) as [| [k a] m]; [reflexivity |].
  replace (Z.of_nat (List.length ((k, a) :: m)) =? 0) with false
    by (symmetry; apply Z.eqb_neq; simpl List.length; lia).
  rewrite phaseCounts_entries.
  set (ps := map phase (map snd ((k, a) :: m))).
  assert (Hps : firstOccurrences ps
                = phase a
                  :: filter (fun q => negb (phase_eqb q (phase a)))
                       (firstOccurrences (map phase (map snd m))))
    by reflexivity.
  rewrite Hps. simpl map.
  match goal with
  | |- match ?l with _ => _ end = _ =>
      assert (Hhd : match l with [] => idle | (p, _) :: _ => p end
                    = fst (hd (idle, 0) l))
        by (now destruct l as [| [p c'] l']);
      rewrite Hhd; clear Hhd
  end.
  rewrite sort_desc_head.
  now rewrite (first_max_map (fun q => count_phase q ps)).
Qed.

Lemma RARVPhase_eq_dec (p q : RARVPhase) : {p = q} + {p <> q}.
Proof. decide equality. Qed.

Lemma find_pointwise (P Q : RARVPhase -> bool) (l : list RARVPhase) :
  (forall p, P p = Q p) -> find P l = find Q l.
Proof.
  intros E. induction l as [| x l IH]; [reflexivity |].
  simpl. now rewrite E, IH.
Qed.

Lemma find_filter_other (P : RARVPhase -> bool) (x : RARVPhase)
    (l : list RARVPhase) :
  P x = false ->
  find P (filter (fun q => negb (phase_eqb q x)) l) = find P l.
Proof.
  intros Hx. induction l as [| y l IH]; [reflexivity |].
  simpl. destruct (phase_eqb y x) eqn:E; simpl.
  - apply phase_eqb_eq in E. subst y. now rewrite Hx.
  - now rewrite IH.
Qed.

Lemma find_firstOccurrences (P : RARVPhase -> bool) (ps : list RARVPhase) :
  find P (firstOccurrences ps) = find P ps.
Proof.
  induction ps as [| x ps IH]; [reflexivity |].
  simpl. destruct (P x) eqn:E; [reflexivity |].
  now rewrite find_filter_other.
Qed.

Lemma find_first_true (P : RARVPhase -> bool) (l1 l2 : list RARVPhase)
    (m : RARVPhase) :
  Forall (fun a => P a = false) l1 -> P m = true ->
  find P (l1 ++ m :: l2) = Some m.
Proof.
  induction 1 as [| a l1 Ha _ IH]; intros Hm; simpl.
  - now rewrite Hm.
  - rewrite Ha. now apply IH.
Qed.

Lemma is_plurality_iff (ps : list RARVPhase) (p : RARVPhase) :
  is_plurality ps p = true
  <-> forall q, In q ps -> count_phase q ps <= count_phase p ps.
Proof.
  unfold is_plurality. rewrite forallb_forall.
  split; intros H q Hq; [apply Z.leb_le | apply Z.leb_le]; now apply H.
Qed.

(** C9, counterexample: no fixed enumeration of the phases explains the
    tie-break of [getCurrentPhase]; slots in phases reason, verify report
    [reason], slots in phases verify, reason report [verify]. *)
Lemma getCurrentPhase_no_fixed_order :
  ~ exists order : list RARVPhase,
      forall s, getCurrentPhase s = pluralityByOrder order (slot_phases s).
Proof.
  intros [order H].
  pose (a1 := mkActive "exec_a_1" backend "a" 1 reason).
  pose (a2 := mkActive "exec_b_1" backend "b" 1 verify).
  pose (s1 := set_activeAgents [("exec_a_1", a1); ("exec_b_1", a2)] initial).
  pose (s2 := set_activeAgents [("exec_b_1", a2); ("exec_a_1", a1)] initial).
  pose proof (H s1) as H1. pose proof (H s2) as H2.
  change (getCurrentPhase s1) with reason in H1.
  change (getCurrentPhase s2) with verify in H2.
  unfold pluralityByOrder in H1, H2.
  change (slot_phases s1) with [reason; verify] in H1.
  change (slot_phases s2) with [verify; reason] in H2.
  cbv beta iota in H1, H2.
  assert (E : forall p,
             (existsb (phase_eqb p) [reason; verify]
              && is_plurality [reason; verify] p)%bool
             = (existsb (phase_eqb p) [verify; reason]
                && is_plurality [verify; reason] p)%bool)
    by (intros []; reflexivity).
  rewrite (find_pointwise _ _ order E) in H1.
  rewrite <- H2 in H1. discriminate.
Qed.

Lemma count_phase_absent (q : RARVPhase) (ps : list RARVPhase) :
  ~ In q ps -> count_phase q ps = 0.
Proof.
  unfold count_phase. induction ps as [| y ps IH]; intros Hq; [reflexivity |].
  simpl. destruct (phase_eqb q y) eqn:E.
  - apply phase_eqb_eq in E. subst. exfalso. apply Hq. now left.
  - apply IH. intros H. apply Hq. now right.
Qed.

Lemma count_phase_nonneg (q : RARVPhase) (ps : list RARVPhase) :
  0 <= count_phase q ps.
Proof. unfold count_phase. lia. Qed.

Lemma plurality_first_seen (ps : list RARVPhase) (x : RARVPhase)
    (r : list RARVPhase) :
  firstOccurrences ps = x :: r ->
  let m := first_max (fun q => count_phase q ps) x r in
  pluralityByOrder ps ps = m /\ In m ps /\
  forall q, count_phase q ps <= count_phase m ps.
Proof.
  intros Efo m.
  pose proof (first_max_In (fun q => count_phase q ps) x r) as Hin.
  pose proof (@first_max_ge _ (fun q => count_phase q ps) x r) as Hge.
  destruct (first_max_first (fun q => count_phase q ps) x r)
    as (l1 & l2 & Hsplit & Hl1).
  fold m in Hin, Hge, Hsplit, Hl1.
  rewrite <- Efo in Hin, Hge, Hsplit.
  assert (Hm : In m ps) by now apply In_firstOccurrences.
  assert (Hmax : forall q, count_phase q ps <= count_phase m ps).
  { intros q. destruct (in_dec RARVPhase_eq_dec q ps) as [Hq | Hq].
    - apply Hge. now apply In_firstOccurrences.
    - rewrite (count_phase_absent _ _ Hq). apply count_phase_nonneg. }
  split; [| split; assumption].
  unfold pluralityByOrder.
  destruct ps as [| p0 ps'] eqn:Eps; [discriminate |].
  rewrite <- Eps in *.
  rewrite <- find_firstOccurrences, Hsplit.
  rewrite find_first_true; [reflexivity | |].
  - eapply Forall_impl; [| exact Hl1].
    intros a Ha. apply andb_false_iff. right.
    apply not_true_is_false. rewrite is_plurality_iff.
    intros Hall. specialize (Hall m Hm). simpl in Ha. lia.
  - apply andb_true_iff. split; [now apply existsb_phase_In |].
    apply is_plurality_iff. intros q _. apply Hmax.
Qed.

(** C9, as amended: without slots [getCurrentPhase] reports [idle]; with
    slots it reports a plurality phase of the slots, and among equally
    common phases the one whose first slot is earliest in the iteration
    order of the active-agents map. *)
Theorem getCurrentPhase_plurality_first_seen (s : State) :
  getCurrentPhase s = pluralityByOrder (slot_phases s) (slot_phases s) /\
  (activeAgents s = [] -> getCurrentPhase s = idle) /\
  (activeAgents s <> [] ->
   In (getCurrentPhase s) (slot_phases s) /\
   forall q, count_phase q (slot_phases s)
             <= count_phase (getCurrentPhase s) (slot_phases s)).
Proof.
  rewrite getCurrentPhase_first_max.
  destruct (activeAgents s) as [| [k a] m] eqn:Eact.
  - unfold slot_phases. rewrite Eact. simpl.
    repeat split; try reflexivity. congruence.
  - destruct (firstOccurrences (slot_phases s)) as [| x r] eqn:Efo.
    + unfold slot_phases in Efo. rewrite Eact in Efo. discriminate.
    + destruct (plurality_first_seen _ Efo) as (H1 & H2 & H3).
      repeat split; try assumption; try congruence.
Qed.

Lemma getCurrentPhase_plurality_first_seen_witness :
  let a := fun id p => (id, mkActive id backend "t" 0 p) in
  let s := set_activeAgents
             [a "exec_t_1" verify; a "exec_t_2" reason; a "exec_t_3" act;
              a "exec_t_4" reason; a "exec_t_5" verify] initial in
  getCurrentPhase initial = idle /\
  getCurrentPhase s = verify /\
  In (getCurrentPhase s) (slot_phases s) /\
  count_phase reason (slot_phases s)
  <= count_phase (getCurrentPhase s) (slot_phases s).
Proof.
  intros a s.
  destruct (getCurrentPhase_plurality_first_seen initial) as (_ & H0 & _).
  destruct (getCurrentPhase_plurality_first_seen s) as (H1 & _ & H2).
  split; [apply H0; reflexivity |].
  split; [rewrite H1; reflexivity |].
  destruct H2 as [H2 H3]; [discriminate |].
  split; [exact H2 | apply H3].
Defined.

(** ** Effects of the private methods *)

Lemma own_event_execution (ty t id : string) (d : option string) (e : string) :
  own_event ty (mkEvent t id d (Some e)) = false.
Proof. unfold own_event. simpl. apply andb_false_r. Qed.

Lemma own_filter_emit (ty type : string) (tid eid : option string)
    (s : State) :
  filter (own_event ty) (emitted (emitEvent type tid eid s))
  = filter (own_event ty) (emitted s)
    ++ (if (String.eqb type ty
            && match eid with None => true | Some _ => false end)%bool
        then [mkEvent type
                (match tid with
                 | Some id => if String.eqb id "" then "orchestrator" else id
                 | None => "orchestrator"
                 end) tid eid]
        else []).
Proof. unfold emitEvent. simpl. rewrite filter_app. reflexivity. Qed.

Lemma inflight_app (l1 l2 : list Execution) :
  filter (fun e => negb (handled e)) (l1 ++ l2)
  = filter (fun e => negb (handled e)) l1
    ++ filter (fun e => negb (handled e)) l2.
Proof. apply filter_app. Qed.

Lemma inflight_admitted (now : Z) (l : list TaskQueueItem) :
  filter (fun e => negb (handled e)) (admitted now l) = admitted now l.
Proof. induction l as [| i l IH]; simpl; [reflexivity | now rewrite IH]. Qed.

Lemma admitted_ids (now : Z) (l : list TaskQueueItem) :
  map (fun e => item_id (exec_item e)) (admitted now l) = map item_id l.
Proof. unfold admitted. rewrite map_map. reflexivity. Qed.

Lemma admitLoop_effect (cfg : OrchestratorConfig) (now : Z)
    (q : list TaskQueueItem) (s : State) :
  taskQueue s = q ->
  exists k,
    (k <= List.length q)%nat /\
    taskQueue (admitLoop cfg now q s) = skipn k q /\
    pending (admitLoop cfg now q s) = pending s ++ admitted now (firstn k q) /\
    completedTasks (admitLoop cfg now q s) = completedTasks s /\
    failedTasks (admitLoop cfg now q s) = failedTasks s /\
    isRunning (admitLoop cfg now q s) = isRunning s /\
    isPaused (admitLoop cfg now q s) = isPaused s /\
    (forall ty, filter (own_event ty) (emitted (admitLoop cfg now q s))
                = filter (own_event ty) (emitted s)) /\
    ((0 < k)%nat -> map_size (activeAgents s) < maxConcurrent cfg).
Proof.
  revert s. induction q as [| item rest IH]; intros s Hq.
  - exists 0%nat. simpl. rewrite app_nil_r. repeat split; auto; lia.
  - simpl admitLoop.
    destruct (Z.ltb_spec (map_size (activeAgents s)) (maxConcurrent cfg))
      as [Hlt | Hge].
    + destruct (IH (executeTask now item (set_taskQueue rest s)) eq_refl)
        as (k & Hk & Hqueue & Hpend & Hc & Hf & Hr & Hp & Hev & _).
      exists (S k). rewrite Hqueue, Hpend, Hc, Hf, Hr, Hp.
      simpl. rewrite <- app_assoc. repeat split; auto; try lia.
      intros ty. rewrite Hev. unfold executeTask.
      rewrite own_filter_emit. simpl. rewrite andb_false_r.
      now rewrite app_nil_r.
    + exists 0%nat. simpl. rewrite app_nil_r. repeat split; auto; lia.
Qed.

Lemma boostItem_id (cfg : OrchestratorConfig) (now : Z) (i : TaskQueueItem) :
  item_id (boostItem cfg now i) = item_id i.
Proof. unfold boostItem. now destruct (_ <? _). Qed.

Lemma boostAgedTasks_ids (cfg : OrchestratorConfig) (now : Z) (s : State) :
  Permutation (queue_ids (boostAgedTasks cfg now s)) (queue_ids s).
Proof.
  unfold boostAgedTasks, sortQueue, queue_ids. simpl.
  rewrite sort_desc_perm, map_map.
  erewrite map_ext; [reflexivity |]. apply boostItem_id.
Qed.

(** What [processQueue] does to a state: the queue is (boosted, re-sorted
    and) cut at some [k]; the first [k] items become pending attempts, in
    queue order. *)
Lemma processQueue_effect (cfg : OrchestratorConfig) (now : Z) (s : State) :
  exists q k,
    Permutation (map item_id q) (queue_ids s) /\
    (k <= List.length q)%nat /\
    taskQueue (processQueue cfg now s) = skipn k q /\
    pending (processQueue cfg now s) = pending s ++ admitted now (firstn k q) /\
    completedTasks (processQueue cfg now s) = completedTasks s /\
    failedTasks (processQueue cfg now s) = failedTasks s /\
    isRunning (processQueue cfg now s) = isRunning s /\
    isPaused (processQueue cfg now s) = isPaused s /\
    (forall ty, filter (own_event ty) (emitted (processQueue cfg now s))
                = filter (own_event ty) (emitted s)).
Proof.
  unfold processQueue.
  destruct (negb (isRunning s) || isPaused s)%bool.
  - exists (taskQueue s), 0%nat. simpl. rewrite app_nil_r.
    repeat split; auto; lia.
  - destruct (priorityBoostOnAge cfg).
    + destruct (admitLoop_effect cfg now (boostAgedTasks cfg now s) eq_refl)
        as (k & Hk & Hq & Hp & Hc & Hf & Hr & Hpa & Hev & _).
      exists (taskQueue (boostAgedTasks cfg now s)), k.
      rewrite Hq, Hp, Hc, Hf, Hr, Hpa.
      repeat split; auto. apply boostAgedTasks_ids.
    + destruct (admitLoop_effect cfg now s eq_refl)
        as (k & Hk & Hq & Hp & Hc & Hf & Hr & Hpa & Hev & _).
      exists (taskQueue s), k. repeat split; auto.
Qed.

Lemma processQueue_slots (cfg : OrchestratorConfig) (now : Z) (s : State) :
  Permutation (slots (processQueue cfg now s)) (slots s).
Proof.
  destruct (processQueue_effect cfg now s)
    as (q & k & Hperm & Hk & Hq & Hp & _).
  unfold slots, queue_ids, inflight_ids, inflight.
  rewrite Hq, Hp, inflight_app, inflight_admitted, map_app, admitted_ids.
  rewrite <- Hperm.
  assert (E : map item_id q
              = map item_id (firstn k q) ++ map item_id (skipn k q))
    by (now rewrite <- map_app, firstn_skipn).
  rewrite E.
  rewrite (Permutation_app_comm (map item_id (firstn k q))).
  rewrite <- !app_assoc. apply Permutation_app_head.
  apply Permutation_app_comm.
Qed.

Lemma processQueue_terminal (cfg : OrchestratorConfig) (now : Z) (s : State) :
  terminal_ids (processQueue cfg now s) = terminal_ids s /\
  dispatched_ids (processQueue cfg now s) = dispatched_ids s.
Proof.
  destruct (processQueue_effect cfg now s)
    as (q & k & _ & _ & _ & _ & Hc & Hf & _ & _ & Hev).
  unfold terminal_ids, completed_ids, failed_ids, cancelled_ids,
    dispatched_ids.
  now rewrite Hc, Hf, !Hev.
Qed.

(** ** The ledger of task ids *)

(** Permutations of concatenations: cancel the first segment of the left
    list against the same segment of the right list, rotating the right
    list until it is in front. *)
Ltac perm_rotate n :=
  lazymatch n with
  | O => fail
  | S ?k =>
      first
        [ reflexivity
        | apply Permutation_app_head
        | eapply perm_trans; [| apply Permutation_app_comm];
          rewrite <- ?app_assoc; perm_rotate k ]
  end.

Ltac perm_cons_to_app :=
  repeat match goal with
         | |- context [?a :: ?l] =>
             lazymatch l with
             | [] => fail
             | _ => change (a :: l) with ([a] ++ l)
             end
         end.

Ltac perm_solve :=
  rewrite <- ?app_assoc; perm_cons_to_app; rewrite <- ?app_assoc;
  repeat (perm_rotate 12%nat).

Ltac ledger_unfold :=
  unfold accounted, slots, terminal_ids, queue_ids, inflight_ids, inflight,
    completed_ids, failed_ids, cancelled_ids, dispatched_ids.

Lemma ledger_frame (s s' : State) :
  taskQueue s' = taskQueue s -> pending s' = pending s ->
  completedTasks s' = completedTasks s -> failedTasks s' = failedTasks s ->
  filter (own_event "task-queued") (emitted s')
  = filter (own_event "task-queued") (emitted s) ->
  filter (own_event "task-cancelled") (emitted s')
  = filter (own_event "task-cancelled") (emitted s) ->
  accounted s' = accounted s /\ dispatched_ids s' = dispatched_ids s.
Proof.
  intros Hq Hp Hc Hf Hd Hx.
  unfold accounted, slots, terminal_ids, queue_ids, inflight_ids, inflight,
    completed_ids, failed_ids, cancelled_ids, dispatched_ids.
  now rewrite Hq, Hp, Hc, Hf, Hd, Hx.
Qed.

Lemma ledger_processQueue (cfg : OrchestratorConfig) (now : Z) (s : State) :
  Permutation (accounted (processQueue cfg now s)) (accounted s) /\
  dispatched_ids (processQueue cfg now s) = dispatched_ids s.
Proof.
  destruct (processQueue_terminal cfg now s) as [Ht Hd].
  split; [| exact Hd].
  unfold accounted. rewrite Ht.
  apply Permutation_app_tail, processQueue_slots.
Qed.

Lemma spliceFirst_Some (f : TaskQueueItem -> bool)
    (q q' : list TaskQueueItem) :
  spliceFirst f q = Some q' ->
  exists l1 x l2,
    q = l1 ++ x :: l2 /\ q' = l1 ++ l2 /\ f x = true /\
    Forall (fun i => f i = false) l1.
Proof.
  revert q'. induction q as [| i q IH]; intros q' H; [discriminate |].
  simpl in H. destruct (f i) eqn:Ei.
  - injection H as <-. exists [], i, q. repeat split; auto.
  - destruct (spliceFirst f q) as [r |]; [| discriminate].
    injection H as <-.
    destruct (IH r eq_refl) as (l1 & x & l2 & -> & -> & Hx & Hl1).
    exists (i :: l1), x, l2. repeat split; auto.
Qed.

Lemma pending_split (n : nat) (p : list Execution) (e : Execution) :
  nth_error p n = Some e ->
  exists l1 l2,
    p = l1 ++ e :: l2 /\
    markHandled n p = l1 ++ mkExec (exec_id e) (exec_item e) true :: l2 /\
    dropNth n p = l1 ++ l2.
Proof.
  revert p. induction n as [| n IH]; intros [| x p] H; try discriminate.
  - injection H as ->. exists [], p. repeat split.
  - destruct (IH p H) as (l1 & l2 & -> & Hm & Hd).
    exists (x :: l1), l2. simpl. now rewrite Hm, Hd.
Qed.

Lemma sortQueue_ids (s : State) :
  Permutation (queue_ids (sortQueue s)) (queue_ids s).
Proof.
  unfold sortQueue, queue_ids. simpl. now rewrite sort_desc_perm.
Qed.

Section Ledger.
Variable L : Type.
Variable lab : string -> L.
Variable cfg : OrchestratorConfig.

Local Abbreviation same := (same_ledger lab).

Lemma same_frame (s s' : State) :
  taskQueue s' = taskQueue s -> pending s' = pending s ->
  completedTasks s' = completedTasks s -> failedTasks s' = failedTasks s ->
  filter (own_event "task-queued") (emitted s')
  = filter (own_event "task-queued") (emitted s) ->
  filter (own_event "task-cancelled") (emitted s')
  = filter (own_event "task-cancelled") (emitted s) ->
  same s' s.
Proof.
  intros Hq Hp Hc Hf Hd Hx.
  destruct (ledger_frame s s' Hq Hp Hc Hf Hd Hx) as [E1 E2].
  unfold same_ledger. rewrite E1, E2. now split.
Qed.

Lemma same_processQueue (now : Z) (s : State) :
  same (processQueue cfg now s) s.
Proof.
  destruct (ledger_processQueue cfg now s) as [Hp Hd].
  split; [now apply Permutation_map | exact Hd].
Qed.

Lemma same_trans (s1 s2 s3 : State) : same s1 s2 -> same s2 s3 -> same s1 s3.
Proof.
  intros [H1 E1] [H2 E2]. split; [now rewrite H1 | congruence].
Qed.

Lemma ledger_dispatch (now : Z) (task : Task) (s : State) :
  Z.of_nat (List.length (taskQueue s)) < queueSize cfg ->
  Permutation (map lab (accounted (fst (dispatch cfg now task s))))
              (map lab (task_id task :: accounted s)) /\
  dispatched_ids (fst (dispatch cfg now task s))
  = dispatched_ids s ++ [task_id task].
Proof.
  intros Hlt. unfold dispatch.
  apply Z.leb_gt in Hlt. rewrite Hlt.
  set (item := mkItem task (calculatePriority task) now 0 None None).
  set (s1 := emitEvent "task-queued" (Some (task_id task)) None
               (sortQueue (set_taskQueue (taskQueue s ++ [item]) s))).
  assert (H1 : Permutation (map lab (accounted s1))
                 (map lab (task_id task :: accounted s))
               /\ dispatched_ids s1 = dispatched_ids s ++ [task_id task]).
  { split.
    - apply Permutation_map. unfold s1. ledger_unfold.
      rewrite own_filter_emit. simpl.
      rewrite app_nil_r, sort_desc_perm, map_app. simpl. perm_solve.
    - unfold dispatched_ids, s1. rewrite own_filter_emit. simpl.
      rewrite map_app. reflexivity. }
  simpl fst.
  match goal with
  | |- context [if ?b then _ else _] => destruct b; [| exact H1]
  end.
  destruct (same_processQueue now s1) as [Hp Hd].
  destruct H1 as [H1 H2]. split; [now rewrite Hp | congruence].
Qed.

Lemma ledger_cancelTask (taskId : string) (s : State) :
  same (fst (cancelTask taskId s)) s.
Proof.
  unfold cancelTask.
  destruct (spliceFirst _ (taskQueue s)) as [q |] eqn:E;
    [| split; reflexivity].
  destruct (spliceFirst_Some _ _ E) as (l1 & x & l2 & Hq & -> & Hx & _).
  apply String.eqb_eq in Hx. simpl fst. split.
  - apply Permutation_map. ledger_unfold.
    rewrite own_filter_emit. simpl. rewrite Hq, !map_app. simpl.
    change (item_id x) with (task_id (item_task x)). rewrite Hx.
    perm_solve.
  - unfold dispatched_ids. now rewrite own_filter_emit, app_nil_r.
Qed.

Lemma same_refl (s : State) : same s s.
Proof. split; reflexivity. Qed.

Lemma same_emit_other (type : string) (tid eid : option string) (s : State) :
  (String.eqb type "task-queued"
   && match eid with None => true | Some _ => false end)%bool = false ->
  (String.eqb type "task-cancelled"
   && match eid with None => true | Some _ => false end)%bool = false ->
  same (emitEvent type tid eid s) s.
Proof.
  intros H1 H2. apply same_frame; try reflexivity;
    rewrite own_filter_emit; [rewrite H1 | rewrite H2]; apply app_nil_r.
Qed.

Lemma ledger_settle (n : nat) (w : RaceWinner) (now : Z) (s : State)
    (e : Execution) :
  nth_error (pending s) n = Some e -> handled e = false ->
  attributable lab s (do_settle n w now) ->
  same (settleReaction cfg now e w
          (set_pending (markHandled n (pending s)) s)) s.
Proof.
  intros Hn He Hattr.
  destruct (pending_split _ _ Hn) as (l1 & l2 & Hp & Hm & _).
  assert (Hin : forall p', p' = pending s ->
            map lab (map (fun e => item_id (exec_item e))
                       (filter (fun e => negb (handled e)) p'))
            = map lab (map (fun e => item_id (exec_item e))
                         (filter (fun e => negb (handled e)) l1))
              ++ [lab (item_id (exec_item e))]
              ++ map lab (map (fun e => item_id (exec_item e))
                            (filter (fun e => negb (handled e)) l2))).
  { intros p' ->. rewrite Hp, filter_app. simpl. rewrite He. simpl.
    now rewrite !map_app. }
  assert (Hout :
            map lab (map (fun e => item_id (exec_item e))
                       (filter (fun e => negb (handled e))
                          (markHandled n (pending s))))
            = map lab (map (fun e => item_id (exec_item e))
                         (filter (fun e => negb (handled e)) l1))
              ++ map lab (map (fun e => item_id (exec_item e))
                            (filter (fun e => negb (handled e)) l2))).
  { rewrite Hm, filter_app. simpl. now rewrite !map_app. }
  unfold settleReaction, same_ledger.
  destruct w as [result | message |]; simpl runExecution; cbv iota.
  - simpl in Hattr. rewrite Hn in Hattr.
    unfold handleTaskCompletion. destruct (success result).
    + split.
      * ledger_unfold. rewrite !own_filter_emit, !andb_false_r.
        simpl. rewrite !app_nil_r, !map_app, Hout, (Hin _ eq_refl).
        simpl. rewrite Hattr. perm_solve.
      * ledger_unfold. now rewrite own_filter_emit, andb_false_r, app_nil_r.
    + split.
      * ledger_unfold. rewrite !own_filter_emit, !andb_false_r.
        simpl. rewrite !app_nil_r, !map_app, Hout, (Hin _ eq_refl).
        simpl. rewrite Hattr. perm_solve.
      * ledger_unfold. now rewrite own_filter_emit, andb_false_r, app_nil_r.
  - unfold handleTaskError.
    destruct (retryFailedTasks cfg && _)%bool.
    + split.
      * ledger_unfold. rewrite !own_filter_emit, !andb_false_r.
        simpl. rewrite !app_nil_r, !map_app, Hout, (Hin _ eq_refl).
        rewrite sort_desc_perm, !map_app. simpl. perm_solve.
      * ledger_unfold. now rewrite own_filter_emit, andb_false_r, app_nil_r.
    + split.
      * ledger_unfold. rewrite !own_filter_emit, !andb_false_r.
        simpl. rewrite !app_nil_r, !map_app, Hout, (Hin _ eq_refl).
        simpl. perm_solve.
      * ledger_unfold. now rewrite own_filter_emit, andb_false_r, app_nil_r.
  - unfold handleTaskError.
    destruct (retryFailedTasks cfg && _)%bool.
    + split.
      * ledger_unfold. rewrite !own_filter_emit, !andb_false_r.
        simpl. rewrite !app_nil_r, !map_app, Hout, (Hin _ eq_refl).
        rewrite sort_desc_perm, !map_app. simpl. perm_solve.
      * ledger_unfold. now rewrite own_filter_emit, andb_false_r, app_nil_r.
    + split.
      * ledger_unfold. rewrite !own_filter_emit, !andb_false_r.
        simpl. rewrite !app_nil_r, !map_app, Hout, (Hin _ eq_refl).
        simpl. perm_solve.
      * ledger_unfold. now rewrite own_filter_emit, andb_false_r, app_nil_r.
Qed.

Lemma ledger_finally (n : nat) (now : Z) (s : State) (e : Execution) :
  nth_error (pending s) n = Some e -> handled e = true ->
  same (finallyReaction cfg now e (set_pending (dropNth n (pending s)) s)) s.
Proof.
  intros Hn He.
  destruct (pending_split _ _ Hn) as (l1 & l2 & Hp & _ & Hd).
  unfold finallyReaction.
  eapply same_trans; [apply same_processQueue |].
  split; [apply Permutation_map |]; ledger_unfold; simpl; [| reflexivity].
  rewrite Hd, Hp, !filter_app. simpl. rewrite He. reflexivity.
Qed.

Lemma step_ledger (s : State) (i : Input) :
  attributable lab s i ->
  Permutation (map lab (accounted (step cfg s i)))
              (map lab (accepted_ids cfg s i ++ accounted s)) /\
  dispatched_ids (step cfg s i) = dispatched_ids s ++ accepted_ids cfg s i.
Proof.
  intros Hattr.
  assert (Hsame : forall s', accepted_ids cfg s i = [] -> same s' s ->
            Permutation (map lab (accounted s'))
                        (map lab (accepted_ids cfg s i ++ accounted s)) /\
            dispatched_ids s' = dispatched_ids s ++ accepted_ids cfg s i).
  { intros s' -> [H1 H2]. now rewrite app_nil_r. }
  destruct i as [now | | | | now | task now | taskId | eid type ph dt
                | n w now | n now]; simpl step.
  - apply Hsame; [reflexivity |]. unfold start.
    destruct (isRunning s); [apply same_refl |].
    eapply same_trans; [apply same_processQueue |].
    eapply same_trans; [now apply same_emit_other |]. now apply same_frame.
  - apply Hsame; [reflexivity |]. now apply same_frame.
  - apply Hsame; [reflexivity |]. now apply same_emit_other.
  - apply Hsame; [reflexivity |]. unfold pause.
    eapply same_trans; [now apply same_emit_other |]. now apply same_frame.
  - apply Hsame; [reflexivity |]. unfold resume.
    eapply same_trans; [apply same_processQueue |].
    eapply same_trans; [now apply same_emit_other |]. now apply same_frame.
  - simpl accepted_ids.
    destruct (Z.leb_spec (queueSize cfg) (Z.of_nat (List.length (taskQueue s))))
      as [Hfull | Hroom].
    + unfold dispatch. apply Z.leb_le in Hfull. rewrite Hfull.
      simpl. rewrite app_nil_r. now split.
    + apply (ledger_dispatch now task s Hroom).
  - apply Hsame; [reflexivity |]. apply ledger_cancelTask.
  - apply Hsame; [reflexivity |]. unfold handleRARVEvent.
    eapply same_trans;
      [apply same_emit_other; apply andb_false_r |].
    destruct (map_get eid (activeAgents s)); [| apply same_refl].
    destruct (String.eqb type "phase-started"); [| apply same_refl].
    now apply same_frame.
  - apply Hsame; [reflexivity |].
    destruct (nth_error (pending s) n) as [e |] eqn:Hn; [| apply same_refl].
    destruct (handled e) eqn:He; [apply same_refl |].
    now apply ledger_settle.
  - apply Hsame; [reflexivity |].
    destruct (nth_error (pending s) n) as [e |] eqn:Hn; [| apply same_refl].
    destruct (handled e) eqn:He; [| apply same_refl].
    now apply ledger_finally.
Qed.
End Ledger.

(** The accepted ids of a state are never taken back: a step adds the id it
    accepts at the end of the list and changes nothing else in it. *)
Lemma dispatched_ids_step (cfg : OrchestratorConfig) (s : State) (i : Input) :
  dispatched_ids (step cfg s i) = dispatched_ids s ++ accepted_ids cfg s i.
Proof.
  apply (step_ledger (fun _ : string => tt) cfg s i).
  destruct i as [| | | | | | | | n [r | m |] now |]; simpl; try exact I.
  now destruct (nth_error (pending s) n).
Qed.

(** ** No task is lost *)

Lemma run_ledger (L : Type) (lab : string -> L) (cfg : OrchestratorConfig)
    (inputs : list Input) (s : State) :
  attributable_run lab cfg s inputs ->
  Permutation (map lab (accounted s)) (map lab (dispatched_ids s)) ->
  Permutation (map lab (accounted (run_from cfg s inputs)))
              (map lab (dispatched_ids (run_from cfg s inputs))).
Proof.
  revert s. induction inputs as [| i inputs IH]; intros s Hattr Hinv;
    [exact Hinv |].
  destruct Hattr as [Hi Hrest]. simpl. apply IH; [exact Hrest |].
  destruct (step_ledger lab cfg s i Hi) as [Hperm Hdisp].
  rewrite Hperm, Hdisp, !map_app, Hinv. apply Permutation_app_comm.
Qed.

Lemma attributable_run_count (cfg : OrchestratorConfig) (inputs : list Input)
    (s : State) :
  attributable_run (fun _ : string => tt) cfg s inputs.
Proof.
  revert s. induction inputs as [| i inputs IH]; intros s; simpl; [exact I |].
  split; [| apply IH].
  destruct i as [| | | | | | | | n [r | m |] now |]; simpl; try exact I.
  now destruct (nth_error (pending s) n).
Qed.

Lemma attributable_run_valid (cfg : OrchestratorConfig) (inputs : list Input)
    (s : State) :
  valid_run cfg s inputs = true ->
  attributable_run (fun id : string => id) cfg s inputs.
Proof.
  revert s. induction inputs as [| i inputs IH]; intros s H; simpl;
    [exact I |].
  simpl in H. apply andb_true_iff in H. destruct H as [Hi Hrest].
  split; [| now apply IH].
  destruct i as [| | | | | | | | n [r | m |] now |]; simpl; try exact I.
  simpl in Hi. destruct (nth_error (pending s) n); [| exact I].
  now apply String.eqb_eq.
Qed.

Lemma valid_run_NoDup (cfg : OrchestratorConfig) (inputs : list Input)
    (s : State) :
  valid_run cfg s inputs = true ->
  NoDup (dispatched_ids s) -> NoDup (dispatched_ids (run_from cfg s inputs)).
Proof.
  revert s. induction inputs as [| i inputs IH]; intros s H Hnd; [exact Hnd |].
  simpl in H. apply andb_true_iff in H. destruct H as [Hi Hrest].
  simpl. apply IH; [exact Hrest |].
  destruct (step_ledger (fun id : string => id) cfg s i) as [_ Hdisp].
  { destruct i as [| | | | | | | | n [r | m |] now |]; simpl; try exact I.
    simpl in Hi. destruct (nth_error (pending s) n); [| exact I].
    now apply String.eqb_eq. }
  rewrite Hdisp.
  destruct i; simpl accepted_ids; try (now rewrite app_nil_r).
  destruct (_ <=? _); [now rewrite app_nil_r |].
  simpl in Hi. apply negb_true_iff in Hi.
  apply NoDup_app; [exact Hnd | constructor; [intros [] | constructor] |].
  intros x Hx [<- | []].
  assert (Ht : existsb (String.eqb (task_id task)) (dispatched_ids s) = true).
  { apply existsb_exists. exists (task_id task). split; [exact Hx |].
    apply String.eqb_refl. }
  congruence.
Qed.

Lemma quiescent_slots (s : State) : quiescent s = true -> slots s = [].
Proof.
  unfold quiescent, slots, queue_ids, inflight_ids, inflight.
  destruct (taskQueue s); [| discriminate].
  destruct (pending s); [reflexivity | discriminate].
Qed.

(** C2: the tasks accepted by [dispatch] are, at every moment, those in the
    queue, those in an unsettled attempt, and those with a completed, failed
    or cancelled outcome; at quiescence (empty queue, no promise chain left)
    the completed, failed and cancelled counts add up to the number of tasks
    dispatched; when task ids are unique and results name their task, no id
    has two terminal outcomes, and at quiescence every dispatched id has
    one. *)
Theorem no_task_lost (cfg : OrchestratorConfig) (inputs : list Input) :
  let s := run cfg inputs in
  (List.length (dispatched_ids s)
   = List.length (slots s) + List.length (completedTasks s)
     + List.length (failedTasks s) + List.length (cancelled_ids s))%nat /\
  (quiescent s = true ->
   (List.length (completedTasks s) + List.length (failedTasks s)
    + List.length (cancelled_ids s))%nat
   = List.length (dispatched_ids s)) /\
  (valid_run cfg initial inputs = true ->
   NoDup (terminal_ids s) /\
   (quiescent s = true -> Permutation (terminal_ids s) (dispatched_ids s))).
Proof.
  intros s.
  assert (Hcount : (List.length (dispatched_ids s)
                    = List.length (slots s) + List.length (completedTasks s)
                      + List.length (failedTasks s)
                      + List.length (cancelled_ids s))%nat).
  { pose proof (run_ledger (fun _ : string => tt) cfg inputs initial
                  (attributable_run_count cfg inputs initial)
                  (Permutation_refl _)) as H.
    apply Permutation_length in H. fold (run cfg inputs) in H. fold s in H.
    rewrite !length_map in H. rewrite <- H.
    unfold accounted, terminal_ids, completed_ids, failed_ids.
    rewrite !length_app, !length_map. lia. }
  split; [exact Hcount |]. split.
  - intros Hq. rewrite Hcount, (quiescent_slots _ Hq). simpl. lia.
  - intros Hvalid.
    pose proof (run_ledger (fun id : string => id) cfg inputs initial
                  (attributable_run_valid cfg inputs initial Hvalid)
                  (Permutation_refl _)) as H.
    fold (run cfg inputs) in H. fold s in H. rewrite !map_id in H.
    pose proof (valid_run_NoDup cfg inputs initial Hvalid (NoDup_nil _)) as Hnd.
    fold (run cfg inputs) in Hnd. fold s in Hnd.
    split.
    + apply (Permutation_NoDup (Permutation_sym H)) in Hnd.
      unfold accounted in Hnd. now apply NoDup_app_remove_l in Hnd.
    + intros Hq. unfold accounted in H.
      now rewrite (quiescent_slots _ Hq) in H.
Qed.

Lemma no_task_lost_witness :
  let s := run singleSlotConfig sampleRun in
  quiescent s = true /\ valid_run singleSlotConfig initial sampleRun = true /\
  (List.length (completedTasks s) + List.length (failedTasks s)
   + List.length (cancelled_ids s))%nat = 3%nat /\
  NoDup (terminal_ids s) /\
  Permutation (terminal_ids s) (dispatched_ids s).
Proof.
  intros s.
  assert (Hq : quiescent s = true) by (vm_compute; reflexivity).
  assert (Hv : valid_run singleSlotConfig initial sampleRun = true)
    by (vm_compute; reflexivity).
  destruct (no_task_lost singleSlotConfig sampleRun) as (_ & H2 & H3).
  destruct (H3 Hv) as [Hnd Hperm].
  split; [exact Hq |]. split; [exact Hv |].
  split; [etransitivity; [exact (H2 Hq) | vm_compute; reflexivity] |].
  split; [exact Hnd | exact (Hperm Hq)].
Defined.

(** ** The concurrency limit *)

Lemma map_set_size (V : Type) (k : string) (v : V) (m : list (string * V)) :
  map_size (map_set k v m) <= map_size m + 1.
Proof.
  unfold map_size. induction m as [| [k' v'] m IH]; simpl List.length.
  - lia.
  - simpl. destruct (String.eqb k' k); simpl List.length; lia.
Qed.

Lemma map_set_present_size (V : Type) (k : string) (v v0 : V)
    (m : list (string * V)) :
  map_get k m = Some v0 -> map_size (map_set k v m) = map_size m.
Proof.
  unfold map_size. induction m as [| [k' v'] m IH]; simpl; [discriminate |].
  destruct (String.eqb k' k); [reflexivity |].
  intros H. simpl List.length. specialize (IH H). lia.
Qed.

Lemma map_delete_size (V : Type) (k : string) (m : list (string * V)) :
  map_size (map_delete k m) <= map_size m.
Proof.
  unfold map_size. induction m as [| [k' v'] m IH]; simpl; [lia |].
  destruct (String.eqb k' k); simpl List.length; lia.
Qed.

(** The loop admits nothing when the slots are all taken. *)
Lemma admitLoop_gate (cfg : OrchestratorConfig) (now : Z)
    (q : list TaskQueueItem) (s : State) :
  maxConcurrent cfg <= map_size (activeAgents s) -> admitLoop cfg now q s = s.
Proof.
  intros H. destruct q as [| item rest]; [reflexivity |].
  simpl. apply Z.ltb_ge in H. now rewrite H.
Qed.

Lemma admitLoop_size (cfg : OrchestratorConfig) (now : Z)
    (q : list TaskQueueItem) (s : State) :
  map_size (activeAgents (admitLoop cfg now q s))
  <= Z.max (map_size (activeAgents s)) (maxConcurrent cfg).
Proof.
  revert s. induction q as [| item rest IH]; intros s; simpl; [lia |].
  destruct (Z.ltb_spec (map_size (activeAgents s)) (maxConcurrent cfg))
    as [Hlt | Hge]; [| lia].
  etransitivity; [apply IH |].
  unfold executeTask. simpl activeAgents.
  match goal with
  | |- context [map_set ?k ?v ?m] => pose proof (map_set_size k v m)
  end.
  lia.
Qed.

Lemma processQueue_size (cfg : OrchestratorConfig) (now : Z) (s : State) :
  map_size (activeAgents (processQueue cfg now s))
  <= Z.max (map_size (activeAgents s)) (maxConcurrent cfg).
Proof.
  unfold processQueue.
  destruct (negb (isRunning s) || isPaused s)%bool; [lia |].
  destruct (priorityBoostOnAge cfg);
    (etransitivity; [apply admitLoop_size | simpl; lia]).
Qed.

Lemma step_size (cfg : OrchestratorConfig) (s : State) (i : Input) :
  map_size (activeAgents (step cfg s i))
  <= Z.max (map_size (activeAgents s)) (maxConcurrent cfg).
Proof.
  destruct i as [now | | | | now | task now | taskId | eid type ph dt
                | n w now | n now]; simpl step.
  - unfold start. destruct (isRunning s); [lia |].
    etransitivity; [apply processQueue_size | simpl; lia].
  - simpl. lia.
  - simpl. lia.
  - simpl. lia.
  - unfold resume.
    etransitivity; [apply processQueue_size | simpl; lia].
  - unfold dispatch. destruct (_ <=? _); simpl fst; [lia |].
    match goal with
    | |- context [if ?b then _ else _] => destruct b
    end; [| simpl; lia].
    etransitivity; [apply processQueue_size |]. simpl. lia.
  - unfold cancelTask. destruct (spliceFirst _ _); simpl; lia.
  - unfold handleRARVEvent. simpl activeAgents.
    destruct (map_get eid (activeAgents s)) as [a |] eqn:E; [| lia].
    destruct (String.eqb type "phase-started"); [| lia].
    simpl. rewrite (@map_set_present_size _ _ _ _ _ E). lia.
  - destruct (nth_error (pending s) n) as [e |]; [| lia].
    destruct (handled e); [lia |].
    unfold settleReaction, handleTaskCompletion, handleTaskError.
    destruct (runExecution cfg w) as [r | m].
    + destruct (success r); simpl; lia.
    + destruct (_ && _)%bool; simpl; lia.
  - destruct (nth_error (pending s) n) as [e |]; [| lia].
    destruct (handled e); [| lia].
    unfold finallyReaction.
    etransitivity; [apply processQueue_size |]. simpl activeAgents.
    pose proof (map_delete_size (exec_id e) (activeAgents s)). lia.
Qed.

(** C3: in every reachable state the active-agents map has at most
    [maxConcurrent] entries, and the admission loop leaves a state alone
    whose map already has [maxConcurrent] entries or more. *)
Theorem concurrency_limit (cfg : OrchestratorConfig) :
  0 <= maxConcurrent cfg ->
  (forall inputs,
     map_size (activeAgents (run cfg inputs)) <= maxConcurrent cfg) /\
  (forall now q s,
     maxConcurrent cfg <= map_size (activeAgents s) ->
     admitLoop cfg now q s = s).
Proof.
  intros Hpos. split; [| intros now q s; apply admitLoop_gate].
  intros inputs. unfold run.
  assert (H : forall s, map_size (activeAgents s) <= maxConcurrent cfg ->
                        map_size (activeAgents (run_from cfg s inputs))
                        <= maxConcurrent cfg).
  { induction inputs as [| i inputs IH]; intros s Hs; [exact Hs |].
    simpl. apply IH. pose proof (step_size cfg s i). lia. }
  apply H. simpl. exact Hpos.
Qed.

Lemma concurrency_limit_witness :
  let cfg := singleSlotConfig in
  let busy := run cfg [do_start 0; do_dispatch (sampleTask "a" high) 1;
                       do_dispatch (sampleTask "b" medium) 2] in
  map_size (activeAgents (run cfg sampleRun)) <= 1 /\
  map_size (activeAgents busy) = 1 /\
  admitLoop cfg 3 (taskQueue busy) busy = busy.
Proof.
  intros cfg busy.
  destruct (concurrency_limit cfg) as [Hinv Hgate];
    [vm_compute; discriminate |].
  split; [apply (Hinv sampleRun) |].
  split; [reflexivity |].
  apply Hgate. vm_compute. discriminate.
Defined.

(** ** Admission order *)












(** What a rejected attempt leaves behind. *)
Lemma settle_rejected_state (cfg : OrchestratorConfig) (s : State) (n : nat)
    (e : Execution) (w : RaceWinner) (now : Z) (message : string) :
  nth_error (pending s) n = Some e -> handled e = false ->
  runExecution cfg w = rejected message ->
  let item := recordFailure now message (exec_item e) in
  let s' := step cfg s (do_settle n w now) in
  pending s' = markHandled n (pending s) /\
  completedTasks s' = completedTasks s /\
  if (retryFailedTasks cfg && (attempts item <? maxRetries cfg))%bool
  then taskQueue s' = sort_desc priority (taskQueue s ++ [item]) /\
       failedTasks s' = failedTasks s
  else taskQueue s' = taskQueue s /\
       failedTasks s' = failedTasks s ++ [failureResult now message item].
Proof.
  intros Hn He Hw item s'. subst s'. simpl step. rewrite Hn, He.
  unfold settleReaction. rewrite Hw. unfold handleTaskError. fold item.
  destruct (retryFailedTasks cfg && (attempts item <? maxRetries cfg))%bool;
    repeat split.
Qed.












(** ** Retry policy *)

Lemma boostItem_fields (cfg : OrchestratorConfig) (now : Z)
    (i : TaskQueueItem) :
  item_task (boostItem cfg now i) = item_task i /\
  attempts (boostItem cfg now i) = attempts i /\
  addedAt (boostItem cfg now i) = addedAt i.
Proof. unfold boostItem. now destruct (_ <? _). Qed.

Lemma processQueue_single (cfg : OrchestratorConfig) (now : Z) (s : State)
    (item : TaskQueueItem) :
  1 <= maxConcurrent cfg ->
  isRunning s = true -> isPaused s = false ->
  taskQueue s = [item] -> activeAgents s = [] ->
  exists item' id a,
    item_task item' = item_task item /\ attempts item' = attempts item /\
    taskQueue (processQueue cfg now s) = [] /\
    pending (processQueue cfg now s) = pending s ++ [mkExec id item' false] /\
    activeAgents (processQueue cfg now s) = [(id, a)] /\
    completedTasks (processQueue cfg now s) = completedTasks s /\
    failedTasks (processQueue cfg now s) = failedTasks s /\
    isRunning (processQueue cfg now s) = true /\
    isPaused (processQueue cfg now s) = false /\
    count_events "task-retry" (processQueue cfg now s)
    = count_events "task-retry" s.
Proof.
  intros Hmax Hr Hp Hq Ha.
  destruct s as [aa tq ct ft run pa st tc em pe]. simpl in *. subst.
  assert (Hgate : (0 <? maxConcurrent cfg) = true) by (apply Z.ltb_lt; lia).
  unfold processQueue. simpl.
  destruct (priorityBoostOnAge cfg); simpl;
    change (map_size (@nil (string * ActiveAgentInfo))) with 0;
    rewrite Hgate; unfold executeTask, count_events; simpl;
    rewrite filter_app, length_app; simpl.
  - destruct (boostItem_fields cfg now item) as (H1 & H2 & _).
    exists (boostItem cfg now item). do 2 eexists.
    repeat split; try assumption; try reflexivity. lia.
  - exists item. do 2 eexists. repeat split; try reflexivity. lia.
Qed.

Lemma processQueue_empty (cfg : OrchestratorConfig) (now : Z) (s : State) :
  taskQueue s = [] ->
  taskQueue (processQueue cfg now s) = [] /\
  pending (processQueue cfg now s) = pending s /\
  activeAgents (processQueue cfg now s) = activeAgents s /\
  completedTasks (processQueue cfg now s) = completedTasks s /\
  failedTasks (processQueue cfg now s) = failedTasks s /\
  isRunning (processQueue cfg now s) = isRunning s /\
  isPaused (processQueue cfg now s) = isPaused s /\
  emitted (processQueue cfg now s) = emitted s.
Proof.
  intros Hq.
  destruct s as [aa tq ct ft run pa st tc em pe]. simpl in *. subst.
  unfold processQueue. simpl.
  destruct (negb run || pa)%bool; [repeat split |].
  destruct (priorityBoostOnAge cfg); simpl; repeat split; reflexivity.
Qed.

Lemma round_rejected (cfg : OrchestratorConfig) (task : Task) (k : Z)
    (s : State) (w : RaceWinner) (now now' : Z) :
  1 <= maxConcurrent cfg -> lonely task k s -> rejects w = true ->
  let s' := run_from cfg s [do_settle 0 w now; do_finally 0 now'] in
  if (retryFailedTasks cfg && (k + 1 <? maxRetries cfg))%bool
  then lonely task (k + 1) s' /\
       count_events "task-retry" s' = count_events "task-retry" s + 1
  else taskQueue s' = [] /\ pending s' = [] /\ completedTasks s' = [] /\
       activeAgents s' = [] /\
       count_events "task-retry" s' = count_events "task-retry" s /\
       exists item,
         item_task item = task /\ attempts item = k + 1 /\
         failedTasks s' = [failureResult now (rejectionMessage cfg w) item].
Proof.
  intros Hmax (Hr & Hp & Hq & Hc & Hf & id & item & a & Hpe & Ha & Ht & Hk) Hw.
  destruct s as [aa tq ct ft run pa st tc em pe]. simpl in *. subst.
  unfold settleReaction, rejectionMessage.
  destruct (runExecution cfg w) as [r | m] eqn:Ew;
    [destruct w; simpl in *; discriminate |].
  unfold handleTaskError. simpl.
  destruct (retryFailedTasks cfg && (attempts item + 1 <? maxRetries cfg))%bool.
  - simpl. unfold finallyReaction. simpl. rewrite String.eqb_refl.
    match goal with
    | |- context [processQueue cfg now' ?S] =>
        destruct (processQueue_single cfg now' S
                    (item := recordFailure now m item) Hmax
                    eq_refl eq_refl eq_refl eq_refl)
          as (item' & id' & a' & H1 & H2 & H3 & H4 & H5 & H6 & H7 & H8 & H9
              & H10)
    end.
    split.
    + unfold lonely. rewrite H3, H4, H5, H6, H7, H8, H9.
      repeat split. exists id', item', a'. repeat split; assumption.
    + rewrite H10. unfold count_events. simpl.
      rewrite filter_app, length_app. simpl. lia.
  - simpl. unfold finallyReaction. simpl. rewrite String.eqb_refl.
    match goal with
    | |- context [processQueue cfg now' ?S] =>
        destruct (processQueue_empty cfg now' S eq_refl)
          as (H1 & H2 & H3 & H4 & H5 & _ & _ & H8)
    end.
    rewrite H1, H2, H3, H4, H5. unfold count_events. rewrite H8. simpl.
    rewrite filter_app, length_app. simpl.
    repeat split; try lia.
    exists (recordFailure now m item). repeat split.
Qed.

Lemma lonely_start (cfg : OrchestratorConfig) (t0 : Z) (task : Task) (t1 : Z) :
  1 <= maxConcurrent cfg -> 1 <= queueSize cfg ->
  lonely task 0 (run cfg [do_start t0; do_dispatch task t1]) /\
  count_events "task-retry" (run cfg [do_start t0; do_dispatch task t1]) = 0.
Proof.
  intros Hmax Hsize. unfold run, run_from. simpl fold_left.
  unfold start. simpl.
  match goal with
  | |- context [processQueue cfg t0 ?S] =>
      destruct (processQueue_empty cfg t0 S eq_refl)
        as (H1 & H2 & H3 & H4 & H5 & H6 & H7 & H8);
      destruct (processQueue cfg t0 S) as [aa tq ct ft run pa st tc em pe]
  end.
  simpl in *. subst.
  unfold dispatch. simpl.
  assert (Hroom : (queueSize cfg <=? 0) = false) by (apply Z.leb_gt; lia).
  rewrite Hroom. simpl.
  match goal with
  | |- context [processQueue cfg t1 ?S] =>
      destruct (processQueue_single cfg t1 S
                  (item := mkItem task (calculatePriority task) t1 0 None None)
                  Hmax eq_refl eq_refl eq_refl eq_refl)
        as (item' & id' & a' & E1 & E2 & E3 & E4 & E5 & E6 & E7 & E8 & E9
            & E10)
  end.
  split.
  - unfold lonely. rewrite E3, E4, E5, E6, E7, E8, E9.
    repeat split. exists id', item', a'. repeat split; assumption.
  - rewrite E10. reflexivity.
Qed.

Lemma failingRounds_S (w : nat -> RaceWinner) (clock : nat -> Z) (n : nat) :
  failingRounds w clock (S n)
  = failingRounds w clock n
    ++ [do_settle 0 (w n) (clock n); do_finally 0 (clock n)].
Proof.
  unfold failingRounds. rewrite seq_S, flat_map_app. reflexivity.
Qed.

Lemma lonelyRun_S (cfg : OrchestratorConfig) (t0 : Z) (task : Task) (t1 : Z)
    (w : nat -> RaceWinner) (clock : nat -> Z) (n : nat) :
  run cfg (lonelyRun t0 task t1 w clock (S n))
  = run_from cfg (run cfg (lonelyRun t0 task t1 w clock n))
      [do_settle 0 (w n) (clock n); do_finally 0 (clock n)].
Proof.
  unfold run, run_from, lonelyRun.
  rewrite failingRounds_S, !app_comm_cons, fold_left_app. reflexivity.
Qed.

(** While attempts remain, every rejected attempt sends the task back. *)
Lemma lonelyRun_retrying (cfg : OrchestratorConfig) (t0 : Z) (task : Task)
    (t1 : Z) (w : nat -> RaceWinner) (clock : nat -> Z) (k : nat) :
  1 <= maxConcurrent cfg -> 1 <= queueSize cfg ->
  (forall j, rejects (w j) = true) ->
  (k < attemptsAllowed cfg)%nat ->
  lonely task (Z.of_nat k) (run cfg (lonelyRun t0 task t1 w clock k)) /\
  count_events "task-retry" (run cfg (lonelyRun t0 task t1 w clock k))
  = Z.of_nat k.
Proof.
  intros Hmax Hsize Hw. induction k as [| k IH]; intros Hk.
  - apply lonely_start; assumption.
  - destruct IH as [IHl IHc]; [lia |].
    rewrite lonelyRun_S.
    pose proof (@round_rejected cfg task (Z.of_nat k) _ (w k) (clock k) (clock k)
                  Hmax IHl (Hw k)) as Hround.
    cbv zeta in Hround.
    assert (Hretry : (retryFailedTasks cfg
                      && (Z.of_nat k + 1 <? maxRetries cfg))%bool = true).
    { unfold attemptsAllowed in Hk.
      destruct (retryFailedTasks cfg); [| simpl in Hk; lia].
      simpl in *. destruct (Z.ltb_spec 1 (maxRetries cfg)); [| lia].
      apply Z.ltb_lt. lia. }
    rewrite Hretry in Hround. destruct Hround as [Hl Hc].
    split.
    + now replace (Z.of_nat (S k)) with (Z.of_nat k + 1) by lia.
    + rewrite Hc, IHc. lia.
Qed.

(** The last allowed attempt: its rejection is terminal. *)
Lemma lonelyRun_exhausted (cfg : OrchestratorConfig) (t0 : Z) (task : Task)
    (t1 : Z) (w : nat -> RaceWinner) (clock : nat -> Z) :
  1 <= maxConcurrent cfg -> 1 <= queueSize cfg ->
  (forall j, rejects (w j) = true) ->
  let n := attemptsAllowed cfg in
  let s := run cfg (lonelyRun t0 task t1 w clock n) in
  taskQueue s = [] /\ pending s = [] /\ completedTasks s = [] /\
  activeAgents s = [] /\
  count_events "task-retry" s = Z.of_nat n - 1 /\
  exists item,
    item_task item = task /\ attempts item = Z.of_nat n /\
    failedTasks s
    = [failureResult (clock (pred n))
         (rejectionMessage cfg (w (pred n))) item].
Proof.
  intros Hmax Hsize Hw n s.
  assert (Hn : (0 < n)%nat).
  { unfold n, attemptsAllowed.
    destruct (retryFailedTasks cfg && (1 <? maxRetries cfg))%bool eqn:E;
      [| lia].
    apply andb_true_iff in E. destruct E as [_ E]. apply Z.ltb_lt in E. lia. }
  destruct n as [| k] eqn:En; [lia |].
  assert (Hk : (k < attemptsAllowed cfg)%nat) by (fold n; lia).
  destruct (@lonelyRun_retrying cfg t0 task t1 w clock k Hmax Hsize Hw Hk)
    as [Hl Hc].
  unfold s. rewrite lonelyRun_S.
  pose proof (@round_rejected cfg task (Z.of_nat k) _ (w k) (clock k) (clock k)
                Hmax Hl (Hw k)) as Hround.
  cbv zeta in Hround.
  assert (Hlast : (retryFailedTasks cfg
                   && (Z.of_nat k + 1 <? maxRetries cfg))%bool = false).
  { unfold n, attemptsAllowed in En.
    destruct (retryFailedTasks cfg); [| reflexivity].
    simpl in *. destruct (Z.ltb_spec 1 (maxRetries cfg)).
    - apply Z.ltb_ge. lia.
    - apply Z.ltb_ge. lia. }
  rewrite Hlast in Hround.
  destruct Hround as (H1 & H2 & H3 & H4 & H5 & item & H6 & H7 & H8).
  repeat split; try assumption; [rewrite H5, Hc; lia |].
  exists item. simpl pred. repeat split; [assumption | | assumption].
  rewrite H7. lia.
Qed.

(** What the [then] / [catch] reaction does to the parts of the state other
    than the pending chains. *)
Lemma settle_rejected (cfg : OrchestratorConfig) (s : State) (n : nat)
    (e : Execution) (w : RaceWinner) (now : Z) :
  nth_error (pending s) n = Some e -> handled e = false ->
  rejects w = true ->
  retryPolicy cfg now (exec_id e) (exec_item e) (rejectionMessage cfg w) s
              (step cfg s (do_settle n w now)).
Proof.
  intros Hn He Hw. simpl step. rewrite Hn, He.
  unfold settleReaction, rejectionMessage.
  destruct (runExecution cfg w) as [r | m] eqn:Ew;
    [destruct w; simpl in *; discriminate |].
  unfold retryPolicy, handleTaskError.
  split; [reflexivity |]. split; [reflexivity |].
  destruct (retryFailedTasks cfg
            && (attempts (recordFailure now m (exec_item e))
                <? maxRetries cfg))%bool.
  - split; [reflexivity |]. eexists. split; [reflexivity |].
    repeat split.
  - split; [reflexivity |]. eexists. split; [reflexivity |].
    repeat split.
Qed.

(** C1, counterexample: with the default configuration (retrying enabled,
    three attempts) the first attempt of a task settles with a result whose
    success flag is false; the result goes to the failed set although
    attempts remain, and nothing is re-enqueued. *)
Lemma retry_policy_skipped_for_failure_result :
  let w := cycleFulfilled (sampleResult "a" false) in
  attemptFailed w = true /\
  ~ retryPolicyApplied DEFAULT_CONFIG sampleAttempt 0 w 10.
Proof.
  intros w. split; [reflexivity |].
  intros H.
  destruct (H (mkExec "exec_a_1"
                 (mkItem (sampleTask "a" high) 85 1 0 None None) false)
              eq_refl eq_refl)
    as (message & _ & _ & _ & ev & _ & _ & _ & Hif).
  simpl in Hif. destruct Hif as (_ & _ & Hfailed).
  vm_compute in Hfailed. discriminate.
Qed.

(** C1, as amended: an attempt that fails by rejection - the timeout fires
    or the cycle throws - is handled by one policy: the attempt is counted
    and the error recorded; the item is re-enqueued, with [task-retry]
    emitted and the failed set untouched, while retrying is enabled and the
    attempt count is below [maxRetries]; otherwise exactly one failure result
    is appended to the failed set.  An attempt that settles with a result
    whose success flag is false is appended to the failed set as it is. *)
Theorem retry_policy_on_rejection (cfg : OrchestratorConfig) (s : State)
    (n : nat) (e : Execution) (w : RaceWinner) (now : Z) :
  nth_error (pending s) n = Some e -> handled e = false ->
  (rejects w = true ->
   retryPolicy cfg now (exec_id e) (exec_item e) (rejectionMessage cfg w) s
               (step cfg s (do_settle n w now))) /\
  (forall r, w = cycleFulfilled r -> success r = false ->
     failedTasks (step cfg s (do_settle n w now)) = failedTasks s ++ [r] /\
     taskQueue (step cfg s (do_settle n w now)) = taskQueue s /\
     completedTasks (step cfg s (do_settle n w now)) = completedTasks s).
Proof.
  intros Hn He. split.
  - intros Hw. now apply settle_rejected.
  - intros r -> Hr. simpl step. rewrite Hn, He.
    unfold settleReaction, handleTaskCompletion. simpl.
    rewrite Hr. simpl. repeat split.
Qed.

Lemma retry_policy_on_rejection_witness :
  let e := mkExec "exec_a_1"
             (mkItem (sampleTask "a" high) 85 1 0 None None) false in
  retryPolicy DEFAULT_CONFIG 300001 "exec_a_1" (exec_item e)
              "Task timeout after 300000ms" sampleAttempt
              (step DEFAULT_CONFIG sampleAttempt
                    (do_settle 0 timeoutFired 300001)) /\
  failedTasks (step DEFAULT_CONFIG sampleAttempt
                 (do_settle 0 (cycleFulfilled (sampleResult "a" false)) 10))
  = failedTasks sampleAttempt ++ [sampleResult "a" false].
Proof.
  intros e.
  destruct (@retry_policy_on_rejection DEFAULT_CONFIG sampleAttempt 0 e
              timeoutFired 300001 eq_refl eq_refl) as [H1 _].
  destruct (@retry_policy_on_rejection DEFAULT_CONFIG sampleAttempt 0 e
              (cycleFulfilled (sampleResult "a" false)) 10 eq_refl eq_refl)
    as [_ H2].
  split; [exact (H1 eq_refl) |].
  exact (proj1 (H2 _ eq_refl eq_refl)).
Defined.

(** ** Timeouts *)

(** C4: a timeout makes the attempt fail with the timeout error; the attempt
    is handled exactly as a cycle that rejects with that error, so it is
    retried under the same policy; a task whose every attempt times out ends
    alone in the failed set, after the attempts the configuration allows,
    with a result whose error code is [TIMEOUT] or [EXECUTION_ERROR]. *)
Theorem timeout_is_retryable_failure (cfg : OrchestratorConfig) :
  runExecution cfg timeoutFired = rejected (timeoutMessage cfg) /\
  (forall s n now,
     step cfg s (do_settle n timeoutFired now)
     = step cfg s (do_settle n (cycleRejected (timeoutMessage cfg)) now)) /\
  (1 <= maxConcurrent cfg -> 1 <= queueSize cfg ->
   forall t0 task t1 clock,
     let s := run cfg (lonelyRun t0 task t1 (fun _ => timeoutFired) clock
                         (attemptsAllowed cfg)) in
     taskQueue s = [] /\ pending s = [] /\ completedTasks s = [] /\
     exists r err,
       failedTasks s = [r] /\ res_taskId r = task_id task /\
       success r = false /\
       retryCount r = Z.of_nat (attemptsAllowed cfg) /\
       errors r = [err] /\
       (err_code err = "TIMEOUT" \/ err_code err = "EXECUTION_ERROR") /\
       err_message err = timeoutMessage cfg).
Proof.
  split; [reflexivity |]. split; [reflexivity |].
  intros Hmax Hsize t0 task t1 clock s.
  destruct (@lonelyRun_exhausted cfg t0 task t1 (fun _ => timeoutFired) clock
              Hmax Hsize (fun _ => eq_refl))
    as (Hq & Hp & Hc & _ & _ & item & Htask & Hatt & Hf).
  fold s in Hq, Hp, Hc, Hf.
  repeat split; try assumption.
  eexists. eexists. split; [exact Hf |].
  simpl. rewrite Htask, Hatt. repeat split. now right.
Qed.

Lemma timeout_is_retryable_failure_witness :
  let s := run DEFAULT_CONFIG
             (lonelyRun 0 (sampleTask "a" high) 1 (fun _ => timeoutFired)
                        (fun k => 300001 * (Z.of_nat k + 1)) 3) in
  taskQueue s = [] /\ pending s = [] /\ completedTasks s = [] /\
  exists r err,
    failedTasks s = [r] /\ res_taskId r = "a" /\ success r = false /\
    retryCount r = 3 /\ errors r = [err] /\
    (err_code err = "TIMEOUT" \/ err_code err = "EXECUTION_ERROR") /\
    err_message err = "Task timeout after 300000ms".
Proof.
  destruct (timeout_is_retryable_failure DEFAULT_CONFIG) as (_ & _ & H).
  apply (H ltac:(simpl; lia) ltac:(simpl; lia) 0 (sampleTask "a" high) 1
           (fun k => 300001 * (Z.of_nat k + 1))).
Defined.

(** ** Retry bound *)

(** C7, counterexample: the bound fails with retrying disabled (after the
    first rejection the task is terminal, with no retry and [retryCount] 1,
    against [maxRetries] 3), and for attempts that fail by a result whose
    success flag is false (no retry, the result is recorded as it is). *)
Lemma retry_bound_needs_retrying :
  let boom := fun _ : nat => cycleRejected "boom" in
  let bad := fun _ : nat => cycleFulfilled (sampleResult "a" false) in
  let clock := fun k : nat => Z.of_nat k + 2 in
  (forall k, attemptFailed (boom k) = true) /\
  (forall k, attemptFailed (bad k) = true) /\
  ~ retryBound noRetryConfig 0 (sampleTask "a" high) 1 boom clock /\
  ~ retryBound DEFAULT_CONFIG 0 (sampleTask "a" high) 1 bad clock.
Proof.
  intros boom bad clock.
  split; [reflexivity |]. split; [reflexivity |]. split.
  - intros (_ & _ & r & Hf & _ & Hcount & _).
    vm_compute in Hf. injection Hf as <-. vm_compute in Hcount. discriminate.
  - intros (Hcount & _). vm_compute in Hcount. discriminate.
Qed.

(** ** Items that can still be attempted *)

Section LiveItems.
Variable cfg : OrchestratorConfig.
Variable P : TaskQueueItem -> Prop.
Hypothesis P_boost : forall now i, P i -> P (boostItem cfg now i).
Hypothesis P_dispatch :
  forall task now, P (mkItem task (calculatePriority task) now 0 None None).
Hypothesis P_retry :
  forall now message i,
    P i ->
    (retryFailedTasks cfg
     && (attempts (recordFailure now message i) <? maxRetries cfg))%bool
    = true ->
    P (recordFailure now message i).

Lemma live_items_split (s : State) :
  Forall P (live_items s)
  <-> Forall P (taskQueue s) /\ Forall P (map exec_item (inflight s)).
Proof. unfold live_items. apply Forall_app. Qed.

Lemma processQueue_live (now : Z) (s : State) :
  Forall P (live_items s) -> Forall P (live_items (processQueue cfg now s)).
Proof.
  rewrite !live_items_split. intros [Hq Hi].
  assert (Hloop : forall s0,
             Forall P (taskQueue s0) ->
             Forall P (map exec_item (inflight s0)) ->
             Forall P (taskQueue (admitLoop cfg now (taskQueue s0) s0)) /\
             Forall P (map exec_item
                         (inflight (admitLoop cfg now (taskQueue s0) s0)))).
  { intros s0 Hq0 Hi0.
    destruct (admitLoop_effect cfg now s0 eq_refl)
      as (k & _ & Hqueue & Hpend & _).
    unfold inflight in *. rewrite Hqueue, Hpend.
    rewrite inflight_app, inflight_admitted, map_app.
    unfold admitted. rewrite map_map. simpl. rewrite map_id.
    rewrite <- (firstn_skipn k (taskQueue s0)) in Hq0.
    apply Forall_app in Hq0. destruct Hq0 as [Hfirst Hskip].
    split; [exact Hskip |]. apply Forall_app. now split. }
  unfold processQueue.
  destruct (negb (isRunning s) || isPaused s)%bool; [now split |].
  destruct (priorityBoostOnAge cfg); apply Hloop; try assumption.
  unfold boostAgedTasks, sortQueue. simpl.
  eapply Permutation_Forall; [symmetry; apply sort_desc_perm |].
  apply Forall_map. eapply Forall_impl; [| exact Hq]. intros i. apply P_boost.
Qed.

Lemma inflight_markHandled (n : nat) (p : list Execution) (e : Execution) :
  nth_error p n = Some e ->
  incl (filter (fun e => negb (handled e)) (markHandled n p))
       (filter (fun e => negb (handled e)) p).
Proof.
  intros Hn. destruct (pending_split _ _ Hn) as (l1 & l2 & -> & -> & _).
  rewrite !filter_app. simpl.
  intros x Hx. apply in_app_iff in Hx. apply in_app_iff.
  destruct Hx as [Hx | Hx]; [now left | right].
  destruct (negb (handled e)); [now right | exact Hx].
Qed.

Lemma inflight_dropNth (n : nat) (p : list Execution) (e : Execution) :
  nth_error p n = Some e ->
  incl (filter (fun e => negb (handled e)) (dropNth n p))
       (filter (fun e => negb (handled e)) p).
Proof.
  intros Hn. destruct (pending_split _ _ Hn) as (l1 & l2 & -> & _ & ->).
  rewrite !filter_app. simpl.
  intros x Hx. apply in_app_iff in Hx. apply in_app_iff.
  destruct Hx as [Hx | Hx]; [now left | right].
  destruct (negb (handled e)); [now right | exact Hx].
Qed.

Lemma Forall_incl_map (l l' : list Execution) :
  incl l' l -> Forall P (map exec_item l) -> Forall P (map exec_item l').
Proof.
  intros Hincl H. rewrite Forall_forall in *.
  intros x Hx. apply in_map_iff in Hx. destruct Hx as (e & <- & He).
  apply H. apply in_map. now apply Hincl.
Qed.

Lemma step_live (s : State) (i : Input) :
  Forall P (live_items s) -> Forall P (live_items (step cfg s i)).
Proof.
  intros H.
  destruct i as [now | | | | now | task now | taskId | eid type ph dt
                | n w now | n now]; simpl step.
  - unfold start. destruct (isRunning s); [exact H |].
    now apply processQueue_live.
  - exact H.
  - exact H.
  - exact H.
  - unfold resume. now apply processQueue_live.
  - unfold dispatch. destruct (_ <=? _); simpl fst; [exact H |].
    assert (H1 : Forall P
                   (live_items
                      (emitEvent "task-queued" (Some (task_id task)) None
                         (sortQueue
                            (set_taskQueue
                               (taskQueue s
                                ++ [mkItem task (calculatePriority task) now
                                           0 None None]) s))))).
    { apply live_items_split in H. destruct H as [Hq Hi].
      apply live_items_split. split; [| exact Hi].
      simpl. eapply Permutation_Forall; [symmetry; apply sort_desc_perm |].
      apply Forall_app. split; [exact Hq |].
      constructor; [apply P_dispatch | constructor]. }
    match goal with
    | |- context [if ?b then _ else _] => destruct b
    end; [now apply processQueue_live | exact H1].
  - unfold cancelTask.
    destruct (spliceFirst _ (taskQueue s)) as [q |] eqn:E; [| exact H].
    destruct (spliceFirst_Some _ _ E) as (l1 & x & l2 & Hq & -> & _).
    apply live_items_split in H. destruct H as [Hqs Hi].
    apply live_items_split. split; [| exact Hi].
    simpl. rewrite Hq in Hqs. apply Forall_app in Hqs.
    destruct Hqs as [H1 H2]. apply Forall_app. split; [exact H1 |].
    now inversion H2.
  - unfold handleRARVEvent.
    destruct (map_get eid (activeAgents s)); [| exact H].
    now destruct (String.eqb type "phase-started").
  - destruct (nth_error (pending s) n) as [e |] eqn:En; [| exact H].
    destruct (handled e) eqn:He; [exact H |].
    apply live_items_split in H. destruct H as [Hq Hi].
    assert (Hi' : Forall P (map exec_item
                     (filter (fun e => negb (handled e))
                        (markHandled n (pending s)))))
      by (eapply Forall_incl_map;
          [apply (inflight_markHandled _ _ En) | exact Hi]).
    assert (He' : P (exec_item e)).
    { rewrite Forall_forall in Hi. apply Hi. apply in_map.
      apply filter_In. split; [now apply nth_error_In in En |].
      now rewrite He. }
    apply live_items_split.
    unfold settleReaction, handleTaskCompletion, handleTaskError.
    destruct (runExecution cfg w) as [r | m].
    + destruct (success r); split; assumption.
    + destruct (retryFailedTasks cfg && _)%bool eqn:Eretry;
        (split; [| exact Hi']); [| exact Hq].
      simpl. eapply Permutation_Forall; [symmetry; apply sort_desc_perm |].
      apply Forall_app. split; [exact Hq |].
      constructor; [now apply P_retry | constructor].
  - destruct (nth_error (pending s) n) as [e |] eqn:En; [| exact H].
    destruct (handled e); [| exact H].
    unfold finallyReaction. apply processQueue_live.
    apply live_items_split in H. destruct H as [Hq Hi].
    apply live_items_split. split; [exact Hq |].
    eapply Forall_incl_map; [apply (inflight_dropNth _ _ En) | exact Hi].
Qed.

Lemma run_live (inputs : list Input) :
  Forall P (live_items (run cfg inputs)).
Proof.
  unfold run.
  assert (H : forall s, Forall P (live_items s) ->
                        Forall P (live_items (run_from cfg s inputs))).
  { induction inputs as [| i inputs IH]; intros s Hs; [exact Hs |].
    simpl. apply IH. now apply step_live. }
  apply H. constructor.
Qed.
End LiveItems.

(** A property of items that age boosting keeps and that holds of the item
    a step pushes onto the queue holds of the items that can still be
    attempted after the step when it held of them before. *)
Lemma step_live_local (cfg : OrchestratorConfig) (P : TaskQueueItem -> Prop)
    (s : State) (i : Input) :
  (forall now x, P x -> P (boostItem cfg now x)) ->
  Forall P (enqueued cfg s i) ->
  Forall P (live_items s) -> Forall P (live_items (step cfg s i)).
Proof.
  intros P_boost Henq H.
  destruct i as [now | | | | now | task now | taskId | eid type ph dt
                | n w now | n now]; simpl step.
  - unfold start. destruct (isRunning s); [exact H |].
    now apply (processQueue_live cfg P_boost).
  - exact H.
  - exact H.
  - exact H.
  - unfold resume. now apply (processQueue_live cfg P_boost).
  - simpl in Henq. unfold dispatch.
    destruct (_ <=? _); simpl fst; [exact H |].
    assert (H1 : Forall P
                   (live_items
                      (emitEvent "task-queued" (Some (task_id task)) None
                         (sortQueue
                            (set_taskQueue
                               (taskQueue s
                                ++ [mkItem task (calculatePriority task) now
                                           0 None None]) s))))).
    { apply live_items_split in H. destruct H as [Hq Hi].
      apply live_items_split. split; [| exact Hi].
      simpl. eapply Permutation_Forall; [symmetry; apply sort_desc_perm |].
      apply Forall_app. split; [exact Hq | exact Henq]. }
    match goal with
    | |- context [if ?b then _ else _] => destruct b
    end; [now apply (processQueue_live cfg P_boost) | exact H1].
  - unfold cancelTask.
    destruct (spliceFirst _ (taskQueue s)) as [q |] eqn:E; [| exact H].
    destruct (spliceFirst_Some _ _ E) as (l1 & x & l2 & Hq & -> & _).
    apply live_items_split in H. destruct H as [Hqs Hi].
    apply live_items_split. split; [| exact Hi].
    simpl. rewrite Hq in Hqs. apply Forall_app in Hqs.
    destruct Hqs as [H1 H2]. apply Forall_app. split; [exact H1 |].
    now inversion H2.
  - unfold handleRARVEvent.
    destruct (map_get eid (activeAgents s)); [| exact H].
    now destruct (String.eqb type "phase-started").
  - simpl in Henq.
    destruct (nth_error (pending s) n) as [e |] eqn:En; [| exact H].
    destruct (handled e) eqn:He; [exact H |].
    apply live_items_split in H. destruct H as [Hq Hi].
    assert (Hi' : Forall P (map exec_item
                     (filter (fun e => negb (handled e))
                        (markHandled n (pending s)))))
      by (eapply Forall_incl_map;
          [apply (inflight_markHandled _ _ En) | exact Hi]).
    apply live_items_split.
    unfold settleReaction, handleTaskCompletion, handleTaskError.
    destruct (runExecution cfg w) as [r | m].
    + destruct (success r); split; assumption.
    + destruct (retryFailedTasks cfg && _)%bool eqn:Eretry;
        (split; [| exact Hi']); [| exact Hq].
      simpl. eapply Permutation_Forall; [symmetry; apply sort_desc_perm |].
      apply Forall_app. split; [exact Hq | exact Henq].
  - destruct (nth_error (pending s) n) as [e |] eqn:En; [| exact H].
    destruct (handled e); [| exact H].
    unfold finallyReaction. apply (processQueue_live cfg P_boost).
    apply live_items_split in H. destruct H as [Hq Hi].
    apply live_items_split. split; [exact Hq |].
    eapply Forall_incl_map; [apply (inflight_dropNth _ _ En) | exact Hi].
Qed.

(** ** The retry bound under every interleaving *)

Lemma ledger_ok_NoDup (s : State) : ledger_ok s -> NoDup (accounted s).
Proof.
  intros [Hperm Hnd]. exact (Permutation_NoDup (Permutation_sym Hperm) Hnd).
Qed.

Lemma ledger_ok_step (cfg : OrchestratorConfig) (s : State) (i : Input) :
  input_ok s i = true -> ledger_ok s -> ledger_ok (step cfg s i).
Proof.
  intros Hi [Hperm Hnd].
  assert (Hv : valid_run cfg s [i] = true) by (simpl; now rewrite Hi).
  split.
  - destruct (attributable_run_valid cfg [i] s Hv) as [Hattr _].
    destruct (step_ledger (fun id : string => id) cfg s i Hattr) as [Hp Hd].
    rewrite !map_id in Hp. rewrite Hp, Hd, Hperm.
    apply Permutation_app_comm.
  - exact (valid_run_NoDup cfg [i] s Hv Hnd).
Qed.

(** The results a step records name the task of the attempt it settles: a
    failed result for any outcome, a completed one only for an attempt that
    was not rejected. *)
Lemma step_results (cfg : OrchestratorConfig) (s : State) (i : Input) :
  input_ok s i = true ->
  exists failed completed,
    failedTasks (step cfg s i) = failedTasks s ++ failed /\
    completedTasks (step cfg s i) = completedTasks s ++ completed /\
    Forall (fun r => In (res_taskId r) (map fst (settled s i))) failed /\
    Forall (fun r => exists w, In (res_taskId r, w) (settled s i) /\
                               rejects w = false) completed.
Proof.
  intros Hok.
  assert (Hpq : forall now s0,
             failedTasks (processQueue cfg now s0) = failedTasks s0 /\
             completedTasks (processQueue cfg now s0) = completedTasks s0).
  { intros now s0.
    destruct (processQueue_effect cfg now s0)
      as (q & k & _ & _ & _ & _ & Hc & Hf & _). now split. }
  assert (Hsame : forall s',
             failedTasks s' = failedTasks s ->
             completedTasks s' = completedTasks s ->
             exists failed completed,
               failedTasks s' = failedTasks s ++ failed /\
               completedTasks s' = completedTasks s ++ completed /\
               Forall (fun r => In (res_taskId r) (map fst (settled s i)))
                      failed /\
               Forall (fun r => exists w, In (res_taskId r, w) (settled s i)
                                          /\ rejects w = false) completed).
  { intros s' Hf Hc. exists [], []. rewrite !app_nil_r.
    repeat split; auto. }
  destruct i as [now | | | | now | task now | taskId | eid type ph dt
                | n w now | n now]; simpl step.
  - apply Hsame; unfold start; destruct (isRunning s); try reflexivity;
      now rewrite (proj1 (Hpq _ _)) || now rewrite (proj2 (Hpq _ _)).
  - now apply Hsame.
  - now apply Hsame.
  - now apply Hsame.
  - apply Hsame; unfold resume;
      now rewrite (proj1 (Hpq _ _)) || now rewrite (proj2 (Hpq _ _)).
  - apply Hsame; unfold dispatch; destruct (_ <=? _); simpl fst;
      try reflexivity;
      match goal with
      | |- context [if ?b then _ else _] => destruct b
      end; try reflexivity;
      now rewrite (proj1 (Hpq _ _)) || now rewrite (proj2 (Hpq _ _)).
  - apply Hsame; unfold cancelTask;
      now destruct (spliceFirst _ (taskQueue s)).
  - apply Hsame; unfold handleRARVEvent;
      (destruct (map_get eid (activeAgents s)); [| reflexivity]);
      now destruct (String.eqb type "phase-started").
  - clear Hsame. simpl settled. simpl in Hok.
    destruct (nth_error (pending s) n) as [e |] eqn:En;
      [| exists [], []; rewrite !app_nil_r; repeat split; auto].
    destruct (handled e) eqn:He;
      [exists [], []; rewrite !app_nil_r; repeat split; auto |].
    unfold settleReaction, handleTaskCompletion, handleTaskError.
    destruct w as [r | m |]; simpl runExecution; cbv beta iota zeta.
    + apply String.eqb_eq in Hok.
      destruct (success r); simpl.
      * exists [], [r]. rewrite app_nil_r.
        split; [reflexivity |]. split; [reflexivity |].
        split; [constructor |]. constructor; [| constructor].
        exists (cycleFulfilled r). split; [left; now rewrite Hok | reflexivity].
      * exists [r], []. rewrite app_nil_r.
        split; [reflexivity |]. split; [reflexivity |].
        split; [| constructor]. constructor; [| constructor].
        left. now rewrite Hok.
    + destruct (_ && _)%bool; simpl.
      * exists [], []. rewrite !app_nil_r. repeat split; constructor.
      * eexists [_], []. rewrite app_nil_r.
        split; [reflexivity |]. split; [reflexivity |].
        split; [| constructor]. constructor; [| constructor].
        left. reflexivity.
    + destruct (_ && _)%bool; simpl.
      * exists [], []. rewrite !app_nil_r. repeat split; constructor.
      * eexists [_], []. rewrite app_nil_r.
        split; [reflexivity |]. split; [reflexivity |].
        split; [| constructor]. constructor; [| constructor].
        left. reflexivity.
  - destruct (nth_error (pending s) n) as [e |] eqn:En; [| now apply Hsame].
    destruct (handled e); [| now apply Hsame].
    apply Hsame; unfold finallyReaction;
      now rewrite (proj1 (Hpq _ _)) || now rewrite (proj2 (Hpq _ _)).
Qed.

(** The task of an unsettled attempt is nowhere else: not in the queue, not
    in another unsettled attempt, not among the tasks with an outcome. *)
Lemma settle_alone (s : State) (n : nat) (e : Execution) :
  NoDup (accounted s) ->
  nth_error (pending s) n = Some e -> handled e = false ->
  ~ In (item_id (exec_item e)) (queue_ids s) /\
  ~ In (item_id (exec_item e)) (terminal_ids s) /\
  Forall (fun x => item_id x <> item_id (exec_item e))
         (map exec_item
            (filter (fun e => negb (handled e)) (markHandled n (pending s)))).
Proof.
  intros Hnd Hn He.
  destruct (pending_split _ _ Hn) as (l1 & l2 & Hp & Hm & _).
  unfold accounted, slots, inflight_ids, inflight in Hnd.
  rewrite Hp, filter_app in Hnd. simpl in Hnd. rewrite He in Hnd.
  simpl in Hnd. rewrite map_app in Hnd. simpl in Hnd.
  rewrite <- !app_assoc in Hnd. rewrite app_assoc in Hnd.
  simpl in Hnd. apply NoDup_remove_2 in Hnd.
  rewrite !in_app_iff in Hnd.
  split; [tauto |]. split; [tauto |].
  rewrite Hm, filter_app. simpl. rewrite map_app.
  apply Forall_app. split; apply Forall_forall; intros x Hx Heq;
    apply in_map_iff in Hx; destruct Hx as (e' & <- & He');
    apply Hnd.
  - left. right. apply in_map_iff. now exists e'.
  - right. left. apply in_map_iff. now exists e'.
Qed.

Lemma of_task_nil (A : Type) (taskId : string) (l : list (string * A)) :
  of_task taskId l = [] -> ~ In taskId (map fst l).
Proof.
  unfold of_task. induction l as [| [id a] l IH]; simpl; [tauto |].
  destruct (String.eqb id taskId) eqn:E; [discriminate |].
  intros H [Hid | Hin]; [| now apply IH].
  subst id. now rewrite String.eqb_refl in E.
Qed.

Lemma step_tracked (cfg : OrchestratorConfig) (taskId : string) (s : State)
    (i : Input) (c : Z) :
  retryFailedTasks cfg = true -> 1 <= maxRetries cfg ->
  ledger_ok s -> input_ok s i = true -> tracked cfg taskId c s ->
  forallb rejects (of_task taskId (settled s i)) = true ->
  tracked cfg taskId
          (c + Z.of_nat (List.length (of_task taskId (settled s i))))
          (step cfg s i).
Proof.
  intros Hretry Hmax Hledger Hok (Hc & Hdisp & Hlive & Hfailed & Hdone & Hcompl)
         Hrej.
  pose proof (@ledger_ok_NoDup s Hledger) as Hnd.
  pose proof (dispatched_ids_step cfg s i) as Hd.
  destruct (of_task taskId (settled s i)) as [| w rest] eqn:Eof.
  - (* no attempt of the task settles in this step *)
    destruct (step_results cfg s i Hok)
      as (failed & completed & Hf & Hcm & Hfid & Hcid).
    pose proof (@of_task_nil _ taskId (settled s i) Eof) as Hnot.
    simpl List.length. rewrite Z.add_0_r.
    split; [exact Hc |]. split.
    { intros Hc0. rewrite Hd. apply in_app_iff. left. now apply Hdisp. }
    split.
    { apply step_live_local; [| | exact Hlive].
      - intros now x HP Hid. rewrite boostItem_id in Hid.
        rewrite (proj1 (proj2 (boostItem_fields cfg now x))). now apply HP.
      - destruct i as [| | | | | task now | | | n w now |]; simpl enqueued;
          try constructor.
        + destruct (_ <=? _); constructor; [| constructor].
          intros Hid. unfold item_id in Hid. simpl in Hid. simpl attempts.
          destruct (Z.eq_dec c 0) as [-> | Hc0]; [split; lia |].
          exfalso. simpl in Hok. apply negb_true_iff in Hok.
          assert (Ht : existsb (String.eqb (task_id task)) (dispatched_ids s)
                       = true).
          { apply existsb_exists. exists taskId. split; [now apply Hdisp |].
            rewrite Hid. apply String.eqb_refl. }
          congruence.
        + simpl in Hnot.
          destruct (nth_error (pending s) n) as [e |]; [| constructor].
          destruct (handled e); [constructor |].
          destruct (runExecution cfg w) as [r | m]; [constructor |].
          destruct (_ && _)%bool; constructor; [| constructor].
          intros Hid. exfalso. apply Hnot. left. exact Hid. }
    split.
    { rewrite Hf. apply Forall_app. split; [exact Hfailed |].
      eapply Forall_impl; [| exact Hfid].
      intros r Hin Hid. exfalso. apply Hnot. now rewrite <- Hid. }
    split.
    { intros Hcmax. unfold failed_ids. rewrite Hf, map_app.
      apply in_app_iff. left. now apply Hdone. }
    unfold completed_ids. rewrite Hcm, map_app. intros Hin.
    apply in_app_iff in Hin. destruct Hin as [Hin | Hin]; [now apply Hcompl |].
    apply in_map_iff in Hin. destruct Hin as (r & Hid & Hr).
    rewrite Forall_forall in Hcid. destruct (Hcid r Hr) as (w & Hw & _).
    apply Hnot. apply in_map_iff. exists (res_taskId r, w). now split.
  - (* an attempt of the task settles, by rejection *)
    destruct i as [| | | | | | | | n w0 now |]; try discriminate Eof.
    simpl in Eof.
    destruct (nth_error (pending s) n) as [e |] eqn:En; [| discriminate].
    destruct (handled e) eqn:He; [discriminate |].
    unfold of_task in Eof. simpl in Eof.
    destruct (String.eqb (item_id (exec_item e)) taskId) eqn:Eid;
      [| discriminate].
    simpl in Eof. injection Eof as <- <-.
    apply String.eqb_eq in Eid.
    simpl in Hrej. rewrite andb_true_r in Hrej.
    destruct (runExecution cfg w0) as [r | m] eqn:Ew;
      [destruct w0; simpl in *; discriminate |].
    assert (Hin : In (exec_item e) (live_items s)).
    { unfold live_items, inflight. apply in_app_iff. right. apply in_map.
      apply filter_In. split; [now apply nth_error_In in En |].
      now rewrite He. }
    rewrite Forall_forall in Hlive.
    destruct (Hlive _ Hin Eid) as [Hatt Hbelow].
    destruct (@settle_alone s n e Hnd En He) as (Hq & Hterm & Hothers).
    rewrite Eid in Hq, Hterm, Hothers.
    destruct (@settle_rejected_state cfg s n e w0 now m En He Ew)
      as (Hp' & Hc' & Hguard).
    rewrite Hretry in Hguard. simpl andb in Hguard.
    change (attempts (recordFailure now m (exec_item e)))
      with (attempts (exec_item e) + 1) in Hguard.
    rewrite Hatt in Hguard.
    assert (Hnofail : Forall (fun r => res_taskId r <> taskId)
                             (failedTasks s)).
    { apply Forall_forall. intros r Hr Hid. apply Hterm.
      unfold terminal_ids, failed_ids. apply in_app_iff. right.
      apply in_app_iff. left. rewrite <- Hid. now apply in_map. }
    assert (Hqueue : Forall (fun x => item_id x <> taskId) (taskQueue s)).
    { apply Forall_forall. intros x Hx Hid. apply Hq.
      unfold queue_ids. rewrite <- Hid. now apply in_map. }
    simpl List.length. change (Z.of_nat 1) with 1.
    split; [lia |]. split.
    { intros _. rewrite Hd. apply in_app_iff. left.
      destruct Hledger as [Hperm _].
      apply (Permutation_in _ Hperm).
      unfold accounted, slots, inflight_ids, inflight.
      apply in_app_iff. left. apply in_app_iff. right.
      rewrite <- Eid. apply in_map_iff. exists e. split; [reflexivity |].
      apply filter_In. split; [now apply nth_error_In in En |].
      now rewrite He. }
    unfold live_items, inflight, failed_ids, completed_ids.
    rewrite Hp', Hc'.
    destruct (Z.ltb_spec (c + 1) (maxRetries cfg)) as [Hlt | Hge];
      destruct Hguard as [Hq' Hf']; rewrite Hq', Hf'.
    + split.
      { apply Forall_app. split.
        - eapply Permutation_Forall; [symmetry; apply sort_desc_perm |].
          apply Forall_app. split.
          + eapply Forall_impl; [| exact Hqueue]. intros x Hx Hid. exfalso. now apply Hx.
          + constructor; [| constructor]. intros _. simpl. split; lia.
        - eapply Forall_impl; [| exact Hothers]. intros x Hx Hid. exfalso. now apply Hx. }
      split.
      { eapply Forall_impl; [| exact Hnofail]. intros r Hr Hid. exfalso. now apply Hr. }
      split; [lia | exact Hcompl].
    + assert (Hlast : c + 1 = maxRetries cfg) by lia.
      split.
      { apply Forall_app. split.
        - eapply Forall_impl; [| exact Hqueue]. intros x Hx Hid. exfalso. now apply Hx.
        - eapply Forall_impl; [| exact Hothers]. intros x Hx Hid. exfalso. now apply Hx. }
      split.
      { apply Forall_app. split.
        - eapply Forall_impl; [| exact Hnofail]. intros r Hr Hid. exfalso. now apply Hr.
        - constructor; [| constructor]. intros _. simpl.
          repeat split; [lia | lia | discriminate]. }
      split; [| exact Hcompl].
      intros _. rewrite map_app. apply in_app_iff. right. left.
      simpl. exact Eid.
Qed.

Lemma of_task_app (A : Type) (taskId : string) (l1 l2 : list (string * A)) :
  of_task taskId (l1 ++ l2) = of_task taskId l1 ++ of_task taskId l2.
Proof. unfold of_task. now rewrite filter_app, map_app. Qed.

Lemma run_tracked (cfg : OrchestratorConfig) (taskId : string)
    (inputs : list Input) (s : State) (c : Z) :
  retryFailedTasks cfg = true -> 1 <= maxRetries cfg ->
  ledger_ok s -> valid_run cfg s inputs = true -> tracked cfg taskId c s ->
  forallb rejects (of_task taskId (observed settled cfg s inputs)) = true ->
  tracked cfg taskId
          (c + Z.of_nat
                 (List.length
                    (of_task taskId (observed settled cfg s inputs))))
          (run_from cfg s inputs) /\
  ledger_ok (run_from cfg s inputs).
Proof.
  intros Hretry Hmax. revert s c.
  induction inputs as [| i inputs IH]; intros s c Hledger Hvalid Htracked Hrej.
  - simpl. rewrite Z.add_0_r. now split.
  - simpl in Hvalid. apply andb_true_iff in Hvalid.
    destruct Hvalid as [Hok Hvalid].
    simpl observed in *. rewrite of_task_app in *.
    rewrite forallb_app in Hrej. apply andb_true_iff in Hrej.
    destruct Hrej as [Hrej1 Hrej2].
    rewrite length_app, Nat2Z.inj_add, Z.add_assoc. simpl run_from.
    apply IH; try assumption.
    + now apply ledger_ok_step.
    + now apply step_tracked.
Qed.

Lemma failuresOf_none (taskId : string) (l : list TaskResult) :
  Forall (fun r => res_taskId r <> taskId) l ->
  filter (fun r => String.eqb (res_taskId r) taskId) l = [].
Proof.
  induction 1 as [| r l Hr _ IH]; [reflexivity |].
  simpl. apply String.eqb_neq in Hr. now rewrite Hr.
Qed.

Lemma failuresOf_one (taskId : string) (l : list TaskResult) :
  NoDup (map res_taskId l) -> In taskId (map res_taskId l) ->
  exists r,
    filter (fun r => String.eqb (res_taskId r) taskId) l = [r] /\ In r l /\
    res_taskId r = taskId.
Proof.
  induction l as [| r l IH]; simpl; intros Hnd Hin; [contradiction |].
  inversion Hnd as [| ? ? Hfresh Hnd']; subst.
  destruct (String.eqb_spec (res_taskId r) taskId) as [Heq | Hneq].
  - exists r. split; [| split; [now left | exact Heq]].
    f_equal. apply failuresOf_none. apply Forall_forall.
    intros r' Hr' Hid. apply Hfresh. rewrite Heq, <- Hid. now apply in_map.
  - destruct Hin as [Hin | Hin]; [contradiction |].
    destruct (IH Hnd' Hin) as (r' & Hf & Hr' & Hid).
    exists r'. split; [exact Hf |]. split; [now right | exact Hid].
Qed.

Lemma tracked_initial (cfg : OrchestratorConfig) (taskId : string) :
  1 <= maxRetries cfg -> tracked cfg taskId 0 initial.
Proof.
  intros Hmax. unfold tracked. simpl.
  repeat split; try constructor; try lia; tauto.
Qed.

Lemma ledger_ok_initial : ledger_ok initial.
Proof. split; [apply Permutation_refl | constructor]. Qed.

(** The bound for one task on an otherwise idle orchestrator. *)
Lemma retry_bound_alone (cfg : OrchestratorConfig) (t0 : Z) (task : Task)
    (t1 : Z) (w : nat -> RaceWinner) (clock : nat -> Z) :
  retryFailedTasks cfg = true -> 1 <= maxRetries cfg ->
  1 <= maxConcurrent cfg -> 1 <= queueSize cfg ->
  (forall k, rejects (w k) = true) ->
  retryBound cfg t0 task t1 w clock.
Proof.
  intros Hretry Hretries Hmax Hsize Hw.
  assert (Hn : attemptsAllowed cfg = Z.to_nat (maxRetries cfg)).
  { unfold attemptsAllowed. rewrite Hretry. simpl.
    destruct (Z.ltb_spec 1 (maxRetries cfg)); [reflexivity |].
    replace (maxRetries cfg) with 1 by lia. reflexivity. }
  unfold retryBound. rewrite <- Hn.
  destruct (@lonelyRun_exhausted cfg t0 task t1 w clock Hmax Hsize Hw)
    as (_ & _ & _ & _ & Hcount & item & Htask & Hatt & Hf).
  split; [rewrite Hcount, Hn; lia |]. split.
  - intros k Hk.
    destruct (@lonelyRun_retrying cfg t0 task t1 w clock k Hmax Hsize Hw Hk)
      as [(_ & _ & _ & _ & H & _) _].
    exact H.
  - eexists. split; [exact Hf |]. simpl. rewrite Htask, Hatt, Hn.
    repeat split; [lia | discriminate].
Qed.

Lemma retried_app (taskId : string) (l1 l2 : list TaskQueueItem) :
  retried taskId (l1 ++ l2) = retried taskId l1 + retried taskId l2.
Proof. unfold retried. rewrite filter_app, length_app. lia. Qed.

Lemma step_retried (cfg : OrchestratorConfig) (taskId : string) (s : State)
    (i : Input) (c : Z) :
  retryFailedTasks cfg = true -> 1 <= maxRetries cfg ->
  tracked cfg taskId c s ->
  forallb rejects (of_task taskId (settled s i)) = true ->
  retried taskId (enqueued cfg s i)
  = Z.min (c + Z.of_nat (List.length (of_task taskId (settled s i))))
          (maxRetries cfg - 1)
    - Z.min c (maxRetries cfg - 1).
Proof.
  intros Hretry Hmax (Hc & _ & Hlive & _) Hrej.
  destruct (of_task taskId (settled s i)) as [| w rest] eqn:Eof.
  - pose proof (@of_task_nil _ taskId (settled s i) Eof) as Hnot.
    simpl List.length. rewrite Z.add_0_r, Z.sub_diag.
    destruct i as [| | | | | task now | | | n w now |]; try reflexivity.
    + simpl enqueued. destruct (_ <=? _); [reflexivity |].
      unfold retried. simpl. now rewrite andb_false_r.
    + simpl in Hnot. unfold enqueued.
      destruct (nth_error (pending s) n) as [e |]; [| reflexivity].
      destruct (handled e); [reflexivity |].
      destruct (runExecution cfg w) as [r | m]; [reflexivity |].
      cbv zeta. destruct (_ && _)%bool; [| reflexivity].
      unfold retried. simpl.
      destruct (String.eqb_spec
                  (item_id (recordFailure now m (exec_item e))) taskId)
        as [Hid | Hid]; [| reflexivity].
      exfalso. apply Hnot. left. exact Hid.
  - destruct i as [| | | | | | | | n w0 now |]; try discriminate Eof.
    simpl in Eof. unfold enqueued.
    destruct (nth_error (pending s) n) as [e |] eqn:En; [| discriminate].
    destruct (handled e) eqn:He; [discriminate |].
    unfold of_task in Eof. simpl in Eof.
    destruct (String.eqb (item_id (exec_item e)) taskId) eqn:Eid;
      [| discriminate].
    simpl in Eof. injection Eof as <- <-.
    simpl in Hrej. rewrite andb_true_r in Hrej.
    destruct (runExecution cfg w0) as [r | m] eqn:Ew;
      [destruct w0; simpl in *; discriminate |].
    assert (Hin : In (exec_item e) (live_items s)).
    { unfold live_items, inflight. apply in_app_iff. right. apply in_map.
      apply filter_In. split; [now apply nth_error_In in En |].
      now rewrite He. }
    rewrite Forall_forall in Hlive.
    destruct (Hlive _ Hin (proj1 (String.eqb_eq _ _) Eid)) as [Hatt Hbelow].
    cbv zeta. rewrite Hretry. simpl andb.
    change (attempts (recordFailure now m (exec_item e)))
      with (attempts (exec_item e) + 1).
    rewrite Hatt. simpl List.length. change (Z.of_nat 1) with 1.
    destruct (Z.ltb_spec (c + 1) (maxRetries cfg)) as [Hlt | Hge].
    + unfold retried. simpl.
      change (item_id (recordFailure now m (exec_item e)))
        with (item_id (exec_item e)).
      rewrite Eid, Hatt.
      destruct (Z.ltb_spec 0 (c + 1)); [simpl | lia]. lia.
    + unfold retried. simpl. lia.
Qed.

Lemma run_retried (cfg : OrchestratorConfig) (taskId : string)
    (inputs : list Input) (s : State) (c : Z) :
  retryFailedTasks cfg = true -> 1 <= maxRetries cfg ->
  ledger_ok s -> valid_run cfg s inputs = true -> tracked cfg taskId c s ->
  forallb rejects (of_task taskId (observed settled cfg s inputs)) = true ->
  retried taskId (observed (enqueued cfg) cfg s inputs)
  = Z.min (c + Z.of_nat
                 (List.length
                    (of_task taskId (observed settled cfg s inputs))))
          (maxRetries cfg - 1)
    - Z.min c (maxRetries cfg - 1).
Proof.
  intros Hretry Hmax. revert s c.
  induction inputs as [| i inputs IH]; intros s c Hledger Hvalid Htracked Hrej.
  - simpl. rewrite Z.add_0_r. unfold retried. simpl. lia.
  - simpl in Hvalid. apply andb_true_iff in Hvalid.
    destruct Hvalid as [Hok Hvalid].
    simpl observed in *. rewrite of_task_app in *.
    rewrite forallb_app in Hrej. apply andb_true_iff in Hrej.
    destruct Hrej as [Hrej1 Hrej2].
    rewrite retried_app, length_app, Nat2Z.inj_add, Z.add_assoc.
    rewrite (@step_retried cfg taskId s i c Hretry Hmax Htracked Hrej1).
    rewrite (IH (step cfg s i)
                (c + Z.of_nat (List.length (of_task taskId (settled s i))))).
    + lia.
    + now apply ledger_ok_step.
    + exact Hvalid.
    + now apply step_tracked.
    + exact Hrej2.
Qed.

(** C7, as amended: with retrying enabled and [maxRetries] at least one,
    take any run of the orchestrator (any interleaving of calls, events and
    settling attempts of any number of tasks, with unique task ids) and any
    task whose settled attempts were all rejected (the timeout fired or the
    cycle threw).  The number of these attempts never exceeds [maxRetries],
    and the task was put back for another attempt after each of them but
    the [maxRetries]-th: [maxRetries - 1] retries at most, and exactly that
    many once the attempts are [maxRetries].  While their number is below
    [maxRetries] no failure is recorded for the task, the task is still
    queued or in an attempt (unless it was cancelled) and its item counts
    exactly these attempts.  Once it is [maxRetries], that is after
    [maxRetries - 1] retries, the task is neither queued nor in an attempt,
    and the failed set holds exactly one result for it, with [retryCount]
    equal to [maxRetries], no success and a non-empty error list.  For a
    task alone on the orchestrator the bound is reached:
    [maxRetries - 1] retry events, no failure before the last attempt, one
    failure result after it. *)
Theorem retry_bound (cfg : OrchestratorConfig) :
  retryFailedTasks cfg = true -> 1 <= maxRetries cfg ->
  (forall inputs taskId,
     valid_run cfg initial inputs = true ->
     forallb rejects (attemptsOf taskId cfg inputs) = true ->
     let s := run cfg inputs in
     let n := Z.of_nat (List.length (attemptsOf taskId cfg inputs)) in
     n <= maxRetries cfg /\
     retriesOf taskId cfg inputs = Z.min n (maxRetries cfg - 1) /\
     (n < maxRetries cfg ->
      failuresOf taskId s = [] /\
      (forall i, In i (live_items s) -> item_id i = taskId ->
                 attempts i = n) /\
      (In taskId (dispatched_ids s) ->
       In taskId (slots s) \/ In taskId (cancelled_ids s))) /\
     (n = maxRetries cfg ->
      ~ In taskId (slots s) /\
      exists r,
        failuresOf taskId s = [r] /\ retryCount r = maxRetries cfg /\
        success r = false /\ errors r <> [])) /\
  (1 <= maxConcurrent cfg -> 1 <= queueSize cfg ->
   forall t0 task t1 w clock,
     (forall k, rejects (w k) = true) ->
     retryBound cfg t0 task t1 w clock).
Proof.
  intros Hretry Hmax. split.
  - intros inputs taskId Hvalid Hrej s n.
    pose proof (@run_retried cfg taskId inputs initial 0 Hretry Hmax
                  ledger_ok_initial Hvalid (@tracked_initial cfg taskId Hmax)
                  Hrej) as Hretries.
    destruct (@run_tracked cfg taskId inputs initial 0 Hretry Hmax
                ledger_ok_initial Hvalid (@tracked_initial cfg taskId Hmax) Hrej)
      as [(Hc & Hdisp & Hlive & Hfailed & Hdone & Hcompl) Hledger].
    fold (run cfg inputs) in *. fold (attemptsOf taskId cfg inputs) in *.
    fold s in Hlive, Hfailed, Hdone, Hcompl, Hledger, Hdisp.
    rewrite Z.add_0_l in *. fold n in Hc, Hlive, Hfailed, Hdone, Hdisp.
    pose proof (@ledger_ok_NoDup s Hledger) as Hnd.
    rewrite Forall_forall in Hlive, Hfailed.
    split; [lia |]. split.
    { unfold retriesOf, enqueueLog. rewrite Hretries.
      fold (attemptsOf taskId cfg inputs). fold n. lia. }
    split.
    + intros Hlt.
      assert (Hnone : Forall (fun r => res_taskId r <> taskId) (failedTasks s)).
      { apply Forall_forall. intros r Hr Hid.
        destruct (Hfailed r Hr Hid) as [Heq _]. lia. }
      split; [now apply failuresOf_none |]. split.
      * intros i Hi Hid. now destruct (Hlive i Hi Hid).
      * intros Hin. destruct Hledger as [Hperm _].
        apply (Permutation_in _ (Permutation_sym Hperm)) in Hin.
        unfold accounted, terminal_ids in Hin.
        rewrite !in_app_iff in Hin.
        destruct Hin as [Hin | [Hin | [Hin | Hin]]];
          [now left | contradiction | | now right].
        exfalso. unfold failed_ids in Hin. apply in_map_iff in Hin.
        destruct Hin as (r & Hid & Hr).
        rewrite Forall_forall in Hnone. now apply (Hnone r Hr).
    + intros Heq. split.
      * unfold slots, queue_ids, inflight_ids. intros Hin.
        apply in_app_iff in Hin.
        destruct Hin as [Hin | Hin]; apply in_map_iff in Hin;
          destruct Hin as (x & Hid & Hx).
        -- assert (Hi : In x (live_items s))
             by (apply in_app_iff; now left).
           destruct (Hlive x Hi Hid) as [_ Hbelow]. lia.
        -- assert (Hi : In (exec_item x) (live_items s))
             by (apply in_app_iff; right; now apply in_map).
           destruct (Hlive _ Hi Hid) as [_ Hbelow]. lia.
      * assert (Hndf : NoDup (failed_ids s)).
        { unfold accounted, terminal_ids in Hnd.
          apply NoDup_app_remove_l in Hnd. apply NoDup_app_remove_l in Hnd.
          now apply NoDup_app_remove_r in Hnd. }
        destruct (@failuresOf_one taskId (failedTasks s) Hndf (Hdone Heq))
          as (r & Hone & Hr & Hid).
        exists r. split; [exact Hone |].
        destruct (Hfailed r Hr Hid) as (_ & H1 & H2 & H3). now repeat split.
  - intros Hconc Hsize t0 task t1 w clock Hw.
    now apply retry_bound_alone.
Qed.

Lemma retry_bound_witness :
  let s := run DEFAULT_CONFIG interleavedRun in
  valid_run DEFAULT_CONFIG initial interleavedRun = true /\
  attemptsOf "a" DEFAULT_CONFIG interleavedRun
  = [cycleRejected "boom"; timeoutFired; cycleRejected "boom"] /\
  completed_ids s = ["b"] /\
  retriesOf "a" DEFAULT_CONFIG interleavedRun = 2 /\
  ~ In "a" (slots s) /\
  (exists r,
     failuresOf "a" s = [r] /\ retryCount r = 3 /\ success r = false /\
     errors r <> []) /\
  retryBound DEFAULT_CONFIG 0 (sampleTask "a" high) 1
             (fun k => if Nat.even k then timeoutFired
                       else cycleRejected "provider unavailable")
             (fun k => Z.of_nat k + 2).
Proof.
  intros s.
  destruct (@retry_bound DEFAULT_CONFIG eq_refl ltac:(simpl; lia))
    as [Hany Halone].
  assert (Hv : valid_run DEFAULT_CONFIG initial interleavedRun = true)
    by (vm_compute; reflexivity).
  assert (Hr : forallb rejects (attemptsOf "a" DEFAULT_CONFIG interleavedRun)
               = true) by (vm_compute; reflexivity).
  destruct (Hany interleavedRun "a" Hv Hr) as (_ & Hretries & _ & Hlast).
  destruct (Hlast ltac:(vm_compute; reflexivity)) as [Hgone Hone].
  split; [exact Hv |]. split; [vm_compute; reflexivity |].
  split; [vm_compute; reflexivity |].
  split; [rewrite Hretries; vm_compute; reflexivity |].
  split; [exact Hgone |]. split; [exact Hone |].
  apply Halone; [simpl; lia | simpl; lia |].
  intros k. destruct (Nat.even k); reflexivity.
Defined.

(** * Further properties of the orchestrator *)

(** ** Start, stop, pause, resume *)

Lemma processQueue_flags (cfg : OrchestratorConfig) (now : Z) (s : State) :
  isRunning (processQueue cfg now s) = isRunning s /\
  isPaused (processQueue cfg now s) = isPaused s.
Proof.
  destruct (processQueue_effect cfg now s)
    as (q & k & _ & _ & _ & _ & _ & _ & Hr & Hp & _).
  now split.
Qed.

(** X1: [start] is idempotent: it leaves a running orchestrator exactly as
    it is (a paused one stays paused), it always ends in a running state,
    and a second [start] in a row changes nothing. *)
Theorem start_idempotent (cfg : OrchestratorConfig) (now now' : Z)
    (s : State) :
  (isRunning s = true -> start cfg now s = s) /\
  isRunning (start cfg now s) = true /\
  start cfg now' (start cfg now s) = start cfg now s.
Proof.
  assert (H1 : forall t u, isRunning u = true -> start cfg t u = u).
  { intros t u Hu. unfold start. now rewrite Hu. }
  assert (H2 : isRunning (start cfg now s) = true).
  { unfold start. destruct (isRunning s) eqn:E; [exact E |].
    now rewrite (proj1 (processQueue_flags cfg now _)). }
  split; [apply H1 |]. split; [exact H2 | now apply H1].
Qed.

Lemma start_idempotent_witness :
  let s := run DEFAULT_CONFIG
             [do_start 0; do_pause; do_dispatch (sampleTask "a" high) 1] in
  start DEFAULT_CONFIG 5 s = s /\ isPaused (start DEFAULT_CONFIG 5 s) = true.
Proof.
  intros s.
  destruct (start_idempotent DEFAULT_CONFIG 5 6 s) as (H & _ & _).
  rewrite (H eq_refl). split; reflexivity.
Defined.

Lemma processQueue_halted (cfg : OrchestratorConfig) (now : Z) (s : State) :
  halted s -> processQueue cfg now s = s.
Proof.
  unfold halted, processQueue. intros [H | H]; rewrite H; [reflexivity |].
  now rewrite orb_true_r.
Qed.

Lemma incl_markHandled (n : nat) (p : list Execution) :
  map (fun e => (exec_id e, exec_item e)) (markHandled n p)
  = map (fun e => (exec_id e, exec_item e)) p.
Proof.
  revert p. induction n as [| n IH]; intros [| e p]; simpl; try reflexivity.
  now rewrite IH.
Qed.

Lemma incl_dropNth (n : nat) (p : list Execution) :
  incl (map (fun e => (exec_id e, exec_item e)) (dropNth n p))
       (map (fun e => (exec_id e, exec_item e)) p).
Proof.
  revert p. induction n as [| n IH]; intros [| e p]; simpl;
    try apply incl_refl.
  - apply incl_tl, incl_refl.
  - apply incl_cons; [now left | apply incl_tl, IH].
Qed.

Lemma halted_step (cfg : OrchestratorConfig) (s : State) (i : Input) :
  halted s -> restarts i = false ->
  halted (step cfg s i) /\
  incl (chains (step cfg s i)) (chains s) /\
  map_size (activeAgents (step cfg s i)) <= map_size (activeAgents s).
Proof.
  intros Hh Hi. unfold chains.
  destruct i as [now | | | | now | task now | taskId | eid type ph dt
                | n w now | n now]; try discriminate; simpl step.
  - split; [now left |]. split; [apply incl_refl | simpl; lia].
  - split; [exact Hh |]. split; [apply incl_refl | simpl; lia].
  - split; [now right |]. split; [apply incl_refl | simpl; lia].
  - unfold dispatch. destruct (_ <=? _); simpl fst.
    + split; [exact Hh |]. split; [apply incl_refl | lia].
    + assert (Hoff : (isRunning s && negb (isPaused s))%bool = false).
      { destruct Hh as [H | H]; rewrite H; [reflexivity |].
        apply andb_false_r. }
      simpl. rewrite Hoff.
      split; [exact Hh |]. split; [apply incl_refl | simpl; lia].
  - unfold cancelTask. destruct (spliceFirst _ _); simpl;
      (split; [exact Hh |]; split; [apply incl_refl | lia]).
  - unfold handleRARVEvent.
    destruct (map_get eid (activeAgents s)) as [a |] eqn:E;
      [destruct (String.eqb type "phase-started") |]; simpl;
      (split; [exact Hh |]; split; [apply incl_refl |]); try lia.
    rewrite (@map_set_present_size _ _ _ _ _ E). lia.
  - destruct (nth_error (pending s) n) as [e |];
      [| split; [exact Hh |]; split; [apply incl_refl | lia]].
    destruct (handled e);
      [split; [exact Hh |]; split; [apply incl_refl | lia] |].
    unfold settleReaction, handleTaskCompletion, handleTaskError.
    destruct (runExecution cfg w) as [r | m];
      [destruct (success r) | destruct (_ && _)%bool]; simpl;
      (split; [exact Hh |]; split;
       [rewrite incl_markHandled; apply incl_refl | lia]).
  - destruct (nth_error (pending s) n) as [e |];
      [| split; [exact Hh |]; split; [apply incl_refl | lia]].
    destruct (handled e);
      [| split; [exact Hh |]; split; [apply incl_refl | lia]].
    unfold finallyReaction. rewrite processQueue_halted by exact Hh.
    simpl. split; [exact Hh |]. split; [apply incl_dropNth |].
    apply map_delete_size.
Qed.

(** X2: a stopped or paused orchestrator admits nothing.  Over any inputs
    other than [start] and [resume] it stays stopped or paused, every promise
    chain it has was there before, and the active-agents map does not
    grow; dispatched tasks only wait in the queue. *)
Theorem halted_admits_nothing (cfg : OrchestratorConfig) (s : State)
    (inputs : list Input) :
  halted s -> forallb (fun i => negb (restarts i)) inputs = true ->
  halted (run_from cfg s inputs) /\
  incl (chains (run_from cfg s inputs)) (chains s) /\
  map_size (activeAgents (run_from cfg s inputs))
  <= map_size (activeAgents s).
Proof.
  revert s. induction inputs as [| i inputs IH]; intros s Hh Hin.
  - split; [exact Hh |]. split; [apply incl_refl | simpl; lia].
  - simpl in Hin. apply andb_true_iff in Hin. destruct Hin as [Hi Hin].
    apply negb_true_iff in Hi.
    destruct (@halted_step cfg s i Hh Hi) as (H1 & H2 & H3).
    destruct (IH _ H1 Hin) as (H4 & H5 & H6).
    simpl. split; [exact H4 |].
    split; [eapply incl_tran; eassumption | lia].
Qed.

Lemma halted_admits_nothing_witness :
  let s := run singleSlotConfig
             [do_start 0; do_dispatch (sampleTask "a" high) 1; do_pause] in
  let inputs := [do_dispatch (sampleTask "b" critical) 2;
                 do_settle 0 (cycleFulfilled (sampleResult "a" true)) 3;
                 do_finally 0 3; do_stop] in
  halted (run_from singleSlotConfig s inputs) /\
  incl (chains (run_from singleSlotConfig s inputs)) (chains s) /\
  map item_id (taskQueue (run_from singleSlotConfig s inputs)) = ["b"].
Proof.
  intros s inputs.
  destruct (@halted_admits_nothing singleSlotConfig s inputs) as (H1 & H2 & _);
    [right; reflexivity | reflexivity |].
  split; [exact H1 |]. split; [exact H2 | reflexivity].
Defined.

(** ** No idle slot while tasks wait *)

Lemma admitLoop_fills (cfg : OrchestratorConfig) (now : Z)
    (q : list TaskQueueItem) (s : State) :
  taskQueue s = q ->
  taskQueue (admitLoop cfg now q s) = [] \/
  maxConcurrent cfg <= map_size (activeAgents (admitLoop cfg now q s)).
Proof.
  revert s. induction q as [| item rest IH]; intros s Hq; [now left |].
  simpl.
  destruct (Z.ltb_spec (map_size (activeAgents s)) (maxConcurrent cfg));
    [| now right].
  now apply IH.
Qed.

Lemma processQueue_fills (cfg : OrchestratorConfig) (now : Z) (s : State) :
  isRunning s = true -> isPaused s = false ->
  taskQueue (processQueue cfg now s) = [] \/
  maxConcurrent cfg <= map_size (activeAgents (processQueue cfg now s)).
Proof.
  intros Hr Hp. unfold processQueue. rewrite Hr, Hp. simpl.
  destruct (priorityBoostOnAge cfg); now apply admitLoop_fills.
Qed.

Lemma markHandled_due (n : nat) (p : list Execution) (e : Execution) :
  nth_error p n = Some e ->
  ~ Forall (fun e => handled e = false) (markHandled n p).
Proof.
  revert p. induction n as [| n IH]; intros [| x p] H; try discriminate.
  - simpl. intros Hall. inversion Hall. discriminate.
  - simpl. intros Hall. inversion Hall. now apply (IH p).
Qed.

Lemma step_fills (cfg : OrchestratorConfig) (s : State) (i : Input) :
  (isRunning s = true -> isPaused s = false -> no_finally_due s ->
   taskQueue s = [] \/ maxConcurrent cfg <= map_size (activeAgents s)) ->
  isRunning (step cfg s i) = true -> isPaused (step cfg s i) = false ->
  no_finally_due (step cfg s i) ->
  taskQueue (step cfg s i) = [] \/
  maxConcurrent cfg <= map_size (activeAgents (step cfg s i)).
Proof.
  unfold no_finally_due. intros IH.
  destruct i as [now | | | | now | task now | taskId | eid type ph dt
                | n w now | n now]; simpl step.
  - unfold start. destruct (isRunning s) eqn:Er.
    + intros _ Hp Hd. now apply IH.
    + intros _ _ _. now apply processQueue_fills.
  - simpl. discriminate.
  - exact IH.
  - simpl. discriminate.
  - unfold resume. intros Hr Hp _.
    rewrite (proj1 (processQueue_flags cfg now _)) in Hr.
    now apply processQueue_fills.
  - unfold dispatch. destruct (_ <=? _); simpl fst; [exact IH |].
    match goal with
    | |- context [if ?b then _ else _] => destruct b eqn:Eb
    end.
    + apply andb_true_iff in Eb. destruct Eb as [Er Ep].
      apply negb_true_iff in Ep. intros _ _ _.
      now apply processQueue_fills.
    + simpl in Eb. simpl. intros Hr Hp _. rewrite Hr, Hp in Eb.
      discriminate.
  - unfold cancelTask.
    destruct (spliceFirst _ (taskQueue s)) as [q |] eqn:E; [| exact IH].
    simpl. intros Hr Hp Hd.
    destruct (IH Hr Hp Hd) as [Hq | Hfull]; [| now right].
    rewrite Hq in E. discriminate.
  - unfold handleRARVEvent. simpl.
    destruct (map_get eid (activeAgents s)) as [a |] eqn:E; [| exact IH].
    destruct (String.eqb type "phase-started"); [| exact IH].
    simpl. rewrite (@map_set_present_size _ _ _ _ _ E). exact IH.
  - destruct (nth_error (pending s) n) as [e |] eqn:En; [| exact IH].
    destruct (handled e); [exact IH |].
    intros _ _ Hd. exfalso.
    apply (markHandled_due _ _ En).
    unfold settleReaction, handleTaskCompletion, handleTaskError in Hd.
    destruct (runExecution cfg w) as [r | m];
      [destruct (success r) | destruct (_ && _)%bool]; exact Hd.
  - destruct (nth_error (pending s) n) as [e |] eqn:En; [| exact IH].
    destruct (handled e); [| exact IH].
    unfold finallyReaction. intros Hr Hp _.
    rewrite (proj1 (processQueue_flags cfg now _)) in Hr.
    rewrite (proj2 (processQueue_flags cfg now _)) in Hp.
    now apply processQueue_fills.
Qed.

(** X3: no slot stays idle while tasks wait.  In every reachable state of a
    running, unpaused orchestrator in which no [finally] reaction is due,
    the queue is empty or the active-agents map holds [maxConcurrent]
    entries (or more). *)
Theorem no_idle_slot_while_tasks_wait (cfg : OrchestratorConfig)
    (inputs : list Input) :
  isRunning (run cfg inputs) = true -> isPaused (run cfg inputs) = false ->
  no_finally_due (run cfg inputs) ->
  taskQueue (run cfg inputs) = [] \/
  maxConcurrent cfg <= map_size (activeAgents (run cfg inputs)).
Proof.
  unfold run.
  assert (H : forall s,
             (isRunning s = true -> isPaused s = false -> no_finally_due s ->
              taskQueue s = [] \/
              maxConcurrent cfg <= map_size (activeAgents s)) ->
             isRunning (run_from cfg s inputs) = true ->
             isPaused (run_from cfg s inputs) = false ->
             no_finally_due (run_from cfg s inputs) ->
             taskQueue (run_from cfg s inputs) = [] \/
             maxConcurrent cfg
             <= map_size (activeAgents (run_from cfg s inputs))).
  { induction inputs as [| i inputs IH]; intros s Hs; [exact Hs |].
    simpl. apply IH. now apply step_fills. }
  apply H. intros _ _ _. now left.
Qed.

Lemma no_idle_slot_while_tasks_wait_witness :
  let inputs := [do_start 0; do_dispatch (sampleTask "a" high) 1;
                 do_dispatch (sampleTask "b" medium) 2;
                 do_dispatch (sampleTask "c" low) 3] in
  map item_id (taskQueue (run singleSlotConfig inputs)) = ["b"; "c"] /\
  (taskQueue (run singleSlotConfig inputs) = [] \/
   1 <= map_size (activeAgents (run singleSlotConfig inputs))).
Proof.
  intros inputs. split; [reflexivity |].
  apply (no_idle_slot_while_tasks_wait singleSlotConfig inputs);
    [reflexivity | reflexivity |].
  unfold no_finally_due.
  let p := eval vm_compute in (pending (run singleSlotConfig inputs)) in
  change (Forall (fun e => handled e = false) p).
  repeat constructor.
Defined.

(** ** Invariants of the items that can still be attempted *)

(** X4: the retry budget holds for all tasks at all times.  In every
    reachable state, each item that is queued or in an unsettled attempt has
    failed no attempt yet, or retrying is enabled and its count of failed
    attempts is positive and below [maxRetries]. *)
Theorem attempts_within_budget (cfg : OrchestratorConfig)
    (inputs : list Input) :
  Forall (within_budget cfg) (live_items (run cfg inputs)).
Proof.
  apply run_live; unfold within_budget.
  - intros now i H. now rewrite (proj1 (proj2 (boostItem_fields cfg now i))).
  - intros task now. now left.
  - intros now message i H Hretry. right.
    apply andb_true_iff in Hretry. destruct Hretry as [Hr Hlt].
    apply Z.ltb_lt in Hlt. simpl in *. split; [exact Hr |].
    destruct H as [H | (_ & H & _)]; lia.
Qed.

(** ** Age boosting *)

Lemma boostItem_priority (cfg : OrchestratorConfig) (now : Z)
    (i : TaskQueueItem) :
  priority (boostItem cfg now i)
  = if priorityBoostThreshold cfg <? now - addedAt i
    then priority i + (now - addedAt i) / priorityBoostThreshold cfg * 5
    else priority i.
Proof. unfold boostItem. now destruct (_ <? _). Qed.

Lemma boostItem_raises (cfg : OrchestratorConfig) (now : Z)
    (i : TaskQueueItem) :
  0 < priorityBoostThreshold cfg ->
  priority i <= priority (boostItem cfg now i).
Proof.
  intros Hthr. rewrite boostItem_priority.
  destruct (Z.ltb_spec (priorityBoostThreshold cfg) (now - addedAt i));
    [| lia].
  assert (1 <= (now - addedAt i) / priorityBoostThreshold cfg)
    by (apply Z.div_le_lower_bound; lia).
  lia.
Qed.

(** X5: with a positive threshold, age boosting is monotonic in the elapsed
    time: a boost computed at a later instant is never smaller, no boost
    lowers a priority, and an item older than the threshold gains at least
    five points. *)
Theorem boost_monotonic (cfg : OrchestratorConfig) (now now' : Z)
    (i : TaskQueueItem) :
  0 < priorityBoostThreshold cfg -> now <= now' ->
  priority i <= priority (boostItem cfg now i) /\
  priority (boostItem cfg now i) <= priority (boostItem cfg now' i) /\
  (priorityBoostThreshold cfg < now - addedAt i ->
   priority i + 5 <= priority (boostItem cfg now i)).
Proof.
  intros Hthr Hle. rewrite !boostItem_priority.
  set (thr := priorityBoostThreshold cfg) in *.
  set (age := now - addedAt i). set (age' := now' - addedAt i).
  assert (Hage : age <= age') by (unfold age, age'; lia).
  assert (Hdiv : age / thr <= age' / thr) by (apply Z.div_le_mono; lia).
  assert (Hone : thr < age -> 1 <= age / thr).
  { intros H. apply Z.div_le_lower_bound; lia. }
  assert (Hone' : thr < age' -> 1 <= age' / thr).
  { intros H. apply Z.div_le_lower_bound; lia. }
  destruct (Z.ltb_spec thr age), (Z.ltb_spec thr age'); repeat split; lia.
Qed.

Lemma boost_monotonic_witness :
  let i := mkItem (sampleTask "a" low) 35 1000 0 None None in
  priority (boostItem DEFAULT_CONFIG 130000 i) = 45 /\
  priority i <= priority (boostItem DEFAULT_CONFIG 130000 i) /\
  priority (boostItem DEFAULT_CONFIG 130000 i)
  <= priority (boostItem DEFAULT_CONFIG 200000 i) /\
  priority i + 5 <= priority (boostItem DEFAULT_CONFIG 130000 i).
Proof.
  intros i. split; [reflexivity |].
  destruct (@boost_monotonic DEFAULT_CONFIG 130000 200000 i) as (H1 & H2 & H3);
    [simpl; lia | lia |].
  split; [exact H1 |]. split; [exact H2 |]. apply H3. simpl. lia.
Defined.

(** X6: a boost is added to the current priority, not to the score at
    dispatch, so it compounds: for an item older than the (positive)
    threshold, [n] passes of [boostAgedTasks] at one instant add [n] times
    the boost of one pass. *)
Theorem boost_compounds (cfg : OrchestratorConfig) (now : Z)
    (i : TaskQueueItem) (n : nat) :
  0 < priorityBoostThreshold cfg ->
  priorityBoostThreshold cfg < now - addedAt i ->
  priority (Nat.iter n (boostItem cfg now) i)
  = priority i
    + Z.of_nat n * ((now - addedAt i) / priorityBoostThreshold cfg * 5).
Proof.
  intros _ Hage. induction n as [| n IH]; [simpl; lia |].
  rewrite Nat.iter_succ, boostItem_priority.
  assert (Hadded : addedAt (Nat.iter n (boostItem cfg now) i) = addedAt i).
  { clear IH. induction n as [| n IHn]; [reflexivity |].
    rewrite Nat.iter_succ.
    now rewrite (proj2 (proj2 (boostItem_fields cfg now _))). }
  rewrite Hadded. apply Z.ltb_lt in Hage. rewrite Hage, IH. lia.
Qed.

Lemma boost_compounds_witness :
  let i := mkItem (sampleTask "a" low) 35 1000 0 None None in
  priority (Nat.iter 3 (boostItem DEFAULT_CONFIG 130000) i) = 35 + 3 * 10.
Proof.
  intros i.
  rewrite (@boost_compounds DEFAULT_CONFIG 130000 i 3);
    [reflexivity | simpl; lia | simpl; lia].
Defined.

Lemma boostItem_unscored (cfg : OrchestratorConfig) (now : Z)
    (i : TaskQueueItem) :
  unscored (boostItem cfg now i) = unscored i.
Proof. unfold boostItem, unscored. now destruct (_ <? _). Qed.

(** X7: with a threshold other than zero, [boostAgedTasks] changes
    priorities and order only: the queue comes back sorted, with the same
    items up to priority (same tasks, enqueue times, attempt counts and
    errors), and the rest of the state is as it was. *)
Theorem boostAgedTasks_keeps_items (cfg : OrchestratorConfig) (now : Z)
    (s : State) :
  priorityBoostThreshold cfg <> 0 ->
  queue_sorted (taskQueue (boostAgedTasks cfg now s)) /\
  Permutation (map unscored (taskQueue (boostAgedTasks cfg now s)))
              (map unscored (taskQueue s)) /\
  boostAgedTasks cfg now s
  = set_taskQueue (taskQueue (boostAgedTasks cfg now s)) s.
Proof.
  intros _. unfold boostAgedTasks, sortQueue. simpl.
  split; [apply sort_desc_sorted |]. split; [| reflexivity].
  rewrite sort_desc_perm, map_map.
  erewrite map_ext; [reflexivity |]. apply boostItem_unscored.
Qed.

Lemma boostAgedTasks_keeps_items_witness :
  map (fun i => (item_id i, priority i))
      (taskQueue (boostAgedTasks DEFAULT_CONFIG 130000 sampleQueued))
  = [("c", 120); ("l1", 45); ("l2", 45)] /\
  queue_sorted (taskQueue (boostAgedTasks DEFAULT_CONFIG 130000 sampleQueued)).
Proof.
  split; [reflexivity |].
  apply (@boostAgedTasks_keeps_items DEFAULT_CONFIG 130000 sampleQueued).
  simpl. lia.
Defined.

(** X8: with a positive threshold, no waiting task ever has a priority below
    the score it was dispatched with: in every reachable state, each item
    that is queued or in an unsettled attempt has a priority of at least
    [calculatePriority] of its task. *)
Theorem priority_never_below_score (cfg : OrchestratorConfig)
    (inputs : list Input) :
  0 < priorityBoostThreshold cfg ->
  Forall (fun i => calculatePriority (item_task i) <= priority i)
         (live_items (run cfg inputs)).
Proof.
  intros Hthr. apply run_live.
  - intros now i H. pose proof (@boostItem_raises cfg now i Hthr) as Hb.
    rewrite (proj1 (boostItem_fields cfg now i)). lia.
  - intros task now. simpl. lia.
  - intros now message i H _. exact H.
Qed.

Lemma priority_never_below_score_witness :
  Forall (fun i => calculatePriority (item_task i) <= priority i)
         (live_items
            (run DEFAULT_CONFIG
                 [do_dispatch (sampleTask "a" low) 0; do_start 200000])).
Proof.
  apply priority_never_below_score. simpl. lia.
Defined.

(** ** Slots and promise chains *)

Lemma map_set_keys (V : Type) (k : string) (v : V) (m : list (string * V))
    (x : string) :
  In x (map fst (map_set k v m)) <-> In x (map fst m) \/ x = k.
Proof.
  induction m as [| [k' v'] m IH]; simpl.
  - split; [intros [<- | []]; now right | intros [[] | ->]; now left].
  - destruct (String.eqb_spec k' k) as [-> | Hne]; simpl.
    + split; [tauto |]. intros [H | ->]; [exact H | now left].
    + rewrite IH. tauto.
Qed.

Lemma map_set_NoDup (V : Type) (k : string) (v : V) (m : list (string * V)) :
  NoDup (map fst m) -> NoDup (map fst (map_set k v m)).
Proof.
  induction m as [| [k' v'] m IH]; simpl; intros H.
  - constructor; [intros [] | constructor].
  - inversion H as [| ? ? Hnin Hnd]; subst.
    destruct (String.eqb_spec k' k) as [-> | Hne]; simpl.
    + constructor; assumption.
    + constructor; [| now apply IH].
      rewrite map_set_keys. intros [Hin | ->]; [now apply Hnin | congruence].
Qed.

Lemma map_delete_keys (V : Type) (k : string) (m : list (string * V))
    (x : string) :
  NoDup (map fst m) ->
  (In x (map fst (map_delete k m)) <-> In x (map fst m) /\ x <> k).
Proof.
  induction m as [| [k' v'] m IH]; simpl; intros H; [tauto |].
  inversion H as [| ? ? Hnin Hnd]; subst.
  destruct (String.eqb_spec k' k) as [-> | Hne]; simpl.
  - split.
    + intros Hx. split; [now right |]. intros ->. now apply Hnin.
    + intros [[-> | Hx] Hxk]; [congruence | exact Hx].
  - rewrite (IH Hnd). split.
    + intros [<- | [Hx Hxk]]; [split; [now left | congruence] |].
      split; [now right | exact Hxk].
    + intros [[<- | Hx] Hxk]; [now left | right; now split].
Qed.

Lemma map_delete_NoDup (V : Type) (k : string) (m : list (string * V)) :
  NoDup (map fst m) -> NoDup (map fst (map_delete k m)).
Proof.
  induction m as [| [k' v'] m IH]; simpl; intros H; [constructor |].
  inversion H as [| ? ? Hnin Hnd]; subst.
  destruct (String.eqb_spec k' k) as [-> | Hne]; simpl; [exact Hnd |].
  constructor; [| now apply IH].
  rewrite (@map_delete_keys _ k m k' Hnd). tauto.
Qed.

Lemma admitLoop_slots (cfg : OrchestratorConfig) (now : Z)
    (q : list TaskQueueItem) (s : State) :
  NoDup (active_keys s) /\ incl (active_keys s) (map exec_id (pending s)) ->
  NoDup (active_keys (admitLoop cfg now q s)) /\
  incl (active_keys (admitLoop cfg now q s))
       (map exec_id (pending (admitLoop cfg now q s))).
Proof.
  revert s. induction q as [| item rest IH]; intros s H; [exact H |].
  simpl. destruct (_ <? _); [| exact H].
  apply IH. destruct H as [Hnd Hincl].
  unfold active_keys, executeTask. simpl.
  split; [now apply map_set_NoDup |].
  intros x Hx. apply map_set_keys in Hx. rewrite map_app. apply in_app_iff.
  destruct Hx as [Hx | ->]; [left; now apply Hincl | right; now left].
Qed.

Lemma processQueue_slots_kept (cfg : OrchestratorConfig) (now : Z)
    (s : State) :
  NoDup (active_keys s) /\ incl (active_keys s) (map exec_id (pending s)) ->
  NoDup (active_keys (processQueue cfg now s)) /\
  incl (active_keys (processQueue cfg now s))
       (map exec_id (pending (processQueue cfg now s))).
Proof.
  intros H. unfold processQueue.
  destruct (negb (isRunning s) || isPaused s)%bool; [exact H |].
  destruct (priorityBoostOnAge cfg); now apply admitLoop_slots.
Qed.

Lemma markHandled_ids (n : nat) (p : list Execution) :
  map exec_id (markHandled n p) = map exec_id p.
Proof.
  revert p. induction n as [| n IH]; intros [| e p]; simpl; try reflexivity.
  now rewrite IH.
Qed.

Lemma step_slots (cfg : OrchestratorConfig) (s : State) (i : Input) :
  NoDup (active_keys s) /\ incl (active_keys s) (map exec_id (pending s)) ->
  NoDup (active_keys (step cfg s i)) /\
  incl (active_keys (step cfg s i)) (map exec_id (pending (step cfg s i))).
Proof.
  intros H.
  destruct i as [now | | | | now | task now | taskId | eid type ph dt
                | n w now | n now]; simpl step.
  - unfold start. destruct (isRunning s); [exact H |].
    now apply processQueue_slots_kept.
  - exact H.
  - exact H.
  - exact H.
  - unfold resume. now apply processQueue_slots_kept.
  - unfold dispatch. destruct (_ <=? _); simpl fst; [exact H |].
    match goal with
    | |- context [if ?b then _ else _] => destruct b
    end; [now apply processQueue_slots_kept | exact H].
  - unfold cancelTask. now destruct (spliceFirst _ _).
  - unfold handleRARVEvent.
    destruct (map_get eid (activeAgents s)) as [a |] eqn:E; [| exact H].
    destruct (String.eqb type "phase-started"); [| exact H].
    destruct H as [Hnd Hincl]. unfold active_keys. simpl.
    split; [now apply map_set_NoDup |].
    intros x Hx. apply map_set_keys in Hx.
    destruct Hx as [Hx | ->]; [now apply Hincl |].
    apply Hincl. unfold active_keys. clear -E.
    induction (activeAgents s) as [| [k' v'] m IH]; [discriminate |].
    simpl in *. destruct (String.eqb_spec k' eid); [now left |].
    right. now apply IH.
  - destruct (nth_error (pending s) n) as [e |]; [| exact H].
    destruct (handled e); [exact H |].
    unfold settleReaction, handleTaskCompletion, handleTaskError.
    destruct (runExecution cfg w) as [r | m];
      [destruct (success r) | destruct (_ && _)%bool];
      unfold active_keys; simpl; rewrite markHandled_ids; exact H.
  - destruct (nth_error (pending s) n) as [e |] eqn:En; [| exact H].
    destruct (handled e); [| exact H].
    unfold finallyReaction. apply processQueue_slots_kept.
    destruct H as [Hnd Hincl]. unfold active_keys in *. simpl.
    split; [now apply map_delete_NoDup |].
    intros x Hx. apply (@map_delete_keys _ _ _ x Hnd) in Hx.
    destruct Hx as [Hx Hne]. apply Hincl in Hx.
    destruct (pending_split _ _ En) as (l1 & l2 & Hp & _ & Hd).
    rewrite Hd. rewrite Hp in Hx. rewrite map_app in *. simpl in Hx.
    apply in_app_iff in Hx. apply in_app_iff.
    destruct Hx as [Hx | [Hx | Hx]]; [now left | congruence | now right].
Qed.

(** X9: no slot leaks.  In every reachable state the keys of the
    active-agents map are distinct and each one is the execution id of a
    promise chain that has not finished; so once no chain is left the map is
    empty and the reported phase is [idle]. *)
Theorem no_slot_leak (cfg : OrchestratorConfig) (inputs : list Input) :
  NoDup (active_keys (run cfg inputs)) /\
  incl (active_keys (run cfg inputs)) (map exec_id (pending (run cfg inputs)))
  /\ (pending (run cfg inputs) = [] ->
      activeAgents (run cfg inputs) = [] /\
      getCurrentPhase (run cfg inputs) = idle).
Proof.
  assert (H : NoDup (active_keys (run cfg inputs)) /\
              incl (active_keys (run cfg inputs))
                   (map exec_id (pending (run cfg inputs)))).
  { unfold run.
    assert (Hgen : forall s,
               NoDup (active_keys s) /\
               incl (active_keys s) (map exec_id (pending s)) ->
               NoDup (active_keys (run_from cfg s inputs)) /\
               incl (active_keys (run_from cfg s inputs))
                    (map exec_id (pending (run_from cfg s inputs)))).
    { induction inputs as [| i inputs IH]; intros s Hs; [exact Hs |].
      simpl. apply IH. now apply step_slots. }
    apply Hgen. split; [constructor | apply incl_refl]. }
  destruct H as [Hnd Hincl]. split; [exact Hnd |]. split; [exact Hincl |].
  intros Hp. rewrite Hp in Hincl. unfold active_keys in Hincl.
  assert (Hempty : activeAgents (run cfg inputs) = []).
  { destruct (activeAgents (run cfg inputs)) as [| [k a] m]; [reflexivity |].
    exfalso. apply (Hincl k). now left. }
  split; [exact Hempty |].
  unfold getCurrentPhase. now rewrite Hempty.
Qed.

(** ** Results and cost *)

Lemma admitLoop_books (cfg : OrchestratorConfig) (now : Z)
    (q : list TaskQueueItem) (s : State) :
  completedTasks (admitLoop cfg now q s) = completedTasks s /\
  failedTasks (admitLoop cfg now q s) = failedTasks s /\
  totalCost (admitLoop cfg now q s) = totalCost s.
Proof.
  revert s. induction q as [| item rest IH]; intros s; [now repeat split |].
  simpl. destruct (_ <? _); [| now repeat split].
  destruct (IH (executeTask now item (set_taskQueue rest s)))
    as (H1 & H2 & H3).
  now rewrite H1, H2, H3.
Qed.

Lemma processQueue_books (cfg : OrchestratorConfig) (now : Z) (s : State) :
  books_in_order s -> books_in_order (processQueue cfg now s).
Proof.
  unfold books_in_order, processQueue. intros H.
  destruct (negb (isRunning s) || isPaused s)%bool; [exact H |].
  destruct (priorityBoostOnAge cfg);
    match goal with
    | |- context [admitLoop cfg now ?q ?s0] =>
        destruct (admitLoop_books cfg now q s0) as (H1 & H2 & H3);
        rewrite H1, H2, H3; exact H
    end.
Qed.

Lemma costOf_snoc (l : list TaskResult) (r : TaskResult) :
  costOf (l ++ [r]) = (costOf l + cost (metrics r))%Q.
Proof. unfold costOf. now rewrite fold_left_app. Qed.

Lemma step_books (cfg : OrchestratorConfig) (s : State) (i : Input) :
  books_in_order s -> books_in_order (step cfg s i).
Proof.
  intros H.
  destruct i as [now | | | | now | task now | taskId | eid type ph dt
                | n w now | n now]; simpl step.
  - unfold start. destruct (isRunning s); [exact H |].
    now apply processQueue_books.
  - exact H.
  - exact H.
  - exact H.
  - unfold resume. now apply processQueue_books.
  - unfold dispatch. destruct (_ <=? _); simpl fst; [exact H |].
    match goal with
    | |- context [if ?b then _ else _] => destruct b
    end; [now apply processQueue_books | exact H].
  - unfold cancelTask. now destruct (spliceFirst _ _).
  - unfold handleRARVEvent.
    destruct (map_get eid (activeAgents s)); [| exact H].
    now destruct (String.eqb type "phase-started").
  - destruct (nth_error (pending s) n) as [e |]; [| exact H].
    destruct (handled e); [exact H |].
    destruct H as (Hc & Hf & Ht).
    unfold settleReaction, handleTaskCompletion, handleTaskError,
      books_in_order.
    destruct (runExecution cfg w) as [r | m].
    + destruct (success r) eqn:Er; simpl.
      * split; [apply Forall_app; split; [exact Hc | now constructor] |].
        split; [exact Hf |]. now rewrite costOf_snoc, Ht.
      * split; [exact Hc |].
        split; [apply Forall_app; split; [exact Hf | now constructor] |].
        exact Ht.
    + destruct (_ && _)%bool; simpl.
      * now repeat split.
      * split; [exact Hc |].
        split; [apply Forall_app; split; [exact Hf | now constructor] |].
        exact Ht.
  - destruct (nth_error (pending s) n) as [e |]; [| exact H].
    destruct (handled e); [| exact H].
    unfold finallyReaction. now apply processQueue_books.
Qed.

(** X10: the books of results are always in order: in every reachable state
    each completed result is a success, each failed result is not, and
    [totalCost] is the sum, in order of completion, of the costs of the
    completed results; failed attempts cost nothing. *)
Theorem results_and_cost_consistent (cfg : OrchestratorConfig)
    (inputs : list Input) :
  books_in_order (run cfg inputs).
Proof.
  unfold run.
  assert (H : forall s, books_in_order s ->
                        books_in_order (run_from cfg s inputs)).
  { induction inputs as [| i inputs IH]; intros s Hs; [exact Hs |].
    simpl. apply IH. now apply step_books. }
  apply H. repeat split; constructor.
Qed.

(** ** Looking up a result *)

Lemma find_none_ids (taskId : string) (l : list TaskResult) :
  find (fun r => String.eqb (res_taskId r) taskId) l = None
  <-> ~ In taskId (map res_taskId l).
Proof.
  induction l as [| r l IH]; simpl; [tauto |].
  destruct (String.eqb_spec (res_taskId r) taskId) as [E | E].
  - split; [discriminate | intros H; exfalso; apply H; now left].
  - rewrite IH. tauto.
Qed.

Lemma find_app_left (f : TaskResult -> bool) (l1 l2 : list TaskResult)
    (r : TaskResult) :
  find f l1 = Some r -> find f (l1 ++ l2) = Some r.
Proof.
  induction l1 as [| x l1 IH]; [discriminate |].
  simpl. destruct (f x); [trivial | exact IH].
Qed.

(** X11: [getTaskResult] finds a result exactly when the task has one:
    it answers nothing iff the id is neither completed nor failed; what it
    answers carries the id and is in one of the two sets; a completed result
    is preferred to a failed one. *)
Theorem getTaskResult_lookup (taskId : string) (s : State) :
  (getTaskResult taskId s = None
   <-> ~ In taskId (completed_ids s ++ failed_ids s)) /\
  (forall r, getTaskResult taskId s = Some r ->
             res_taskId r = taskId /\
             In r (completedTasks s ++ failedTasks s)) /\
  (In taskId (completed_ids s) ->
   exists r, getTaskResult taskId s = Some r /\ In r (completedTasks s)).
Proof.
  unfold getTaskResult, completed_ids, failed_ids.
  split; [| split].
  - rewrite <- map_app. apply find_none_ids.
  - intros r H. apply find_some in H. destruct H as [Hin Heq].
    apply String.eqb_eq in Heq. now split.
  - intros Hin.
    destruct (find (fun r => String.eqb (res_taskId r) taskId)
                   (completedTasks s)) as [r |] eqn:E.
    + exists r. split; [| now apply find_some in E].
      now apply find_app_left.
    + apply find_none_ids in E. contradiction.
Qed.

Lemma getTaskResult_lookup_witness :
  let s := run singleSlotConfig sampleRun in
  getTaskResult "c" s = None /\
  (exists r, getTaskResult "a" s = Some r /\ In r (completedTasks s)) /\
  (forall r, getTaskResult "b" s = Some r -> res_taskId r = "b").
Proof.
  intros s.
  destruct (getTaskResult_lookup "c" s) as (H1 & _ & _).
  destruct (getTaskResult_lookup "a" s) as (_ & _ & H2).
  destruct (getTaskResult_lookup "b" s) as (_ & H3 & _).
  split; [apply H1; vm_compute; intros [H | [H | []]]; discriminate |].
  split; [apply H2; vm_compute; now left |].
  intros r Hr. exact (proj1 (H3 r Hr)).
Defined.

(** ** Cancelling *)

Lemma spliceFirst_None (f : TaskQueueItem -> bool) (q : list TaskQueueItem) :
  spliceFirst f q = None <-> Forall (fun i => f i = false) q.
Proof.
  induction q as [| i q IH]; simpl; [split; [constructor | reflexivity] |].
  destruct (f i) eqn:Ei.
  - split; [discriminate | intros H; inversion H; congruence].
  - destruct (spliceFirst f q) as [r |].
    + split; [discriminate |]. intros H. inversion H as [| ? ? _ Hq]; subst.
      now apply IH in Hq.
    + split; [| reflexivity]. intros _. constructor; [exact Ei |].
      now apply IH.
Qed.

(** X12: [cancelTask] answers [true] exactly when the id is in the queue;
    it then removes the first queued item with that id and nothing else;
    when the id is not queued - unknown, in flight or finished - it answers
    [false] and changes nothing.  In both cases the promise chains, the
    active-agents map and the results are as before. *)
Theorem cancelTask_only_queued (taskId : string) (s : State) :
  (snd (cancelTask taskId s) = true <-> In taskId (queue_ids s)) /\
  (snd (cancelTask taskId s) = false -> fst (cancelTask taskId s) = s) /\
  (snd (cancelTask taskId s) = true ->
   exists l1 x l2,
     taskQueue s = l1 ++ x :: l2 /\ item_id x = taskId /\
     ~ In taskId (map item_id l1) /\
     taskQueue (fst (cancelTask taskId s)) = l1 ++ l2) /\
  pending (fst (cancelTask taskId s)) = pending s /\
  activeAgents (fst (cancelTask taskId s)) = activeAgents s /\
  completedTasks (fst (cancelTask taskId s)) = completedTasks s /\
  failedTasks (fst (cancelTask taskId s)) = failedTasks s.
Proof.
  unfold cancelTask, queue_ids.
  destruct (spliceFirst _ (taskQueue s)) as [q |] eqn:E; simpl.
  - destruct (spliceFirst_Some _ _ E) as (l1 & x & l2 & Hq & -> & Hx & Hl1).
    apply String.eqb_eq in Hx.
    split; [| split; [discriminate | split; [| now repeat split]]].
    + split; [| reflexivity]. intros _. rewrite Hq, map_app.
      apply in_app_iff. right. now left.
    + intros _. exists l1, x, l2. repeat split; try assumption.
      intros Hin. apply in_map_iff in Hin. destruct Hin as (y & Hy & Hin).
      rewrite Forall_forall in Hl1. specialize (Hl1 y Hin). simpl in Hl1.
      apply String.eqb_neq in Hl1. now apply Hl1.
  - apply spliceFirst_None in E.
    split; [| split; [reflexivity | split; [discriminate | now repeat split]]].
    split; [discriminate |]. intros Hin.
    apply in_map_iff in Hin. destruct Hin as (y & Hy & Hin).
    rewrite Forall_forall in E. specialize (E y Hin). simpl in E.
    apply String.eqb_neq in E. now elim E.
Qed.

Lemma cancelTask_only_queued_witness :
  let s := run singleSlotConfig
             [do_start 0; do_dispatch (sampleTask "a" high) 1;
              do_dispatch (sampleTask "b" medium) 2] in
  snd (cancelTask "a" s) = false /\ fst (cancelTask "a" s) = s /\
  snd (cancelTask "b" s) = true /\
  taskQueue (fst (cancelTask "b" s)) = [].
Proof.
  intros s.
  destruct (cancelTask_only_queued "a" s) as (_ & H2 & _).
  destruct (cancelTask_only_queued "b" s) as (H1 & _ & H3 & _).
  assert (Hb : snd (cancelTask "b" s) = true)
    by (apply H1; vm_compute; now left).
  split; [reflexivity |]. split; [apply H2; reflexivity |].
  split; [exact Hb |].
  destruct (H3 Hb) as (l1 & x & l2 & _ & _ & _ & Hq).
  rewrite Hq. vm_compute in Hq. now destruct l1, l2.
Defined.

(** ** Batches *)

Lemma dispatched_ids_grow (cfg : OrchestratorConfig) (inputs : list Input)
    (s : State) :
  incl (dispatched_ids s) (dispatched_ids (run_from cfg s inputs)).
Proof.
  revert s. induction inputs as [| i inputs IH]; intros s; [apply incl_refl |].
  simpl. eapply incl_tran; [| apply IH].
  destruct (step_ledger (fun _ : string => tt) cfg s i) as [_ Hd].
  { destruct i as [| | | | | | | | n [r | m |] now |]; simpl; try exact I.
    now destruct (nth_error (pending s) n). }
  rewrite Hd. now apply incl_appl, incl_refl.
Qed.

Lemma dispatch_outcome (cfg : OrchestratorConfig) (now : Z) (task : Task)
    (s : State) :
  (snd (dispatch cfg now task s) = Throw "Task queue is full" /\
   fst (dispatch cfg now task s) = s) \/
  (snd (dispatch cfg now task s) = Return (task_id task) /\
   In (task_id task) (dispatched_ids (fst (dispatch cfg now task s)))).
Proof.
  destruct (Z.leb_spec (queueSize cfg) (Z.of_nat (List.length (taskQueue s))))
    as [Hfull | Hroom].
  - left. unfold dispatch. apply Z.leb_le in Hfull. now rewrite Hfull.
  - right.
    destruct (ledger_dispatch (fun _ : string => tt) cfg now task s Hroom)
      as [_ Hd].
    rewrite Hd. split; [| apply in_app_iff; right; now left].
    unfold dispatch. apply Z.leb_gt in Hroom. now rewrite Hroom.
Qed.

Lemma dispatch_grows (cfg : OrchestratorConfig) (now : Z) (task : Task)
    (s : State) :
  incl (dispatched_ids s) (dispatched_ids (fst (dispatch cfg now task s))).
Proof.
  destruct (step_ledger (fun _ : string => tt) cfg s (do_dispatch task now) I)
    as [_ Hd].
  simpl step in Hd. rewrite Hd. apply incl_appl, incl_refl.
Qed.

Lemma dispatchBatch_grows (cfg : OrchestratorConfig)
    (batch : list (Task * Z * list Input)) (s : State) :
  incl (dispatched_ids s) (dispatched_ids (fst (dispatchBatch cfg batch s))).
Proof.
  revert s. induction batch as [| [[task now] others] rest IH]; intros s;
    [apply incl_refl |].
  simpl. pose proof (dispatch_grows cfg now task s) as Hd.
  destruct (dispatch cfg now task s) as [s1 [id | m]]; simpl in *;
    [| exact Hd].
  specialize (IH (run_from cfg s1 others)).
  pose proof (dispatched_ids_grow cfg others s1) as Ho.
  destruct (dispatchBatch cfg rest (run_from cfg s1 others))
    as [s2 [ids | m]]; simpl in *;
    (eapply incl_tran; [exact Hd |]; eapply incl_tran; eassumption).
Qed.

Lemma dispatched_ids_extend (cfg : OrchestratorConfig) (inputs : list Input)
    (s : State) :
  exists added,
    dispatched_ids (run_from cfg s inputs) = dispatched_ids s ++ added.
Proof.
  revert s. induction inputs as [| i inputs IH]; intros s.
  - exists []. now rewrite app_nil_r.
  - simpl. destruct (IH (step cfg s i)) as [added Hadded].
    rewrite Hadded, dispatched_ids_step, <- app_assoc. now eexists.
Qed.

Lemma dispatch_accepts (cfg : OrchestratorConfig) (now : Z) (task : Task)
    (s : State) :
  (snd (dispatch cfg now task s) = Throw "Task queue is full" /\
   fst (dispatch cfg now task s) = s /\
   queueSize cfg <= Z.of_nat (List.length (taskQueue s))) \/
  (snd (dispatch cfg now task s) = Return (task_id task) /\
   dispatched_ids (fst (dispatch cfg now task s))
   = dispatched_ids s ++ [task_id task]).
Proof.
  pose proof (dispatched_ids_step cfg s (do_dispatch task now)) as Hd.
  simpl in Hd. unfold dispatch in *.
  destruct (Z.leb_spec (queueSize cfg) (Z.of_nat (List.length (taskQueue s))))
    as [Hfull | Hroom].
  - left. repeat split. exact Hfull.
  - right. split; [reflexivity | exact Hd].
Qed.

(** X13: [dispatchBatch] is not atomic.  When it returns, the ids are those
    of the batch, in order, and each was accepted during the call, in that
    order.  When it throws, the error is the queue-full error of the first
    task that found the queue full: the tasks before it were dispatched and
    returned their ids, the state is the one that failing task found, and
    the ids of the tasks before it are among the ids accepted during the
    call, in order: nothing is rolled back. *)
Theorem dispatchBatch_not_atomic (cfg : OrchestratorConfig)
    (batch : list (Task * Z * list Input)) (s : State) :
  match snd (dispatchBatch cfg batch s) with
  | Return taskIds =>
      taskIds = batch_ids batch /\
      incl taskIds (dispatched_ids (fst (dispatchBatch cfg batch s))) /\
      exists added,
        dispatched_ids (fst (dispatchBatch cfg batch s))
        = dispatched_ids s ++ added /\
        subsequence taskIds added
  | Throw message =>
      message = "Task queue is full" /\
      exists done failing rest,
        batch = done ++ failing :: rest /\
        incl (batch_ids done)
             (dispatched_ids (fst (dispatchBatch cfg batch s))) /\
        snd (dispatchBatch cfg done s) = Return (batch_ids done) /\
        fst (dispatchBatch cfg batch s) = fst (dispatchBatch cfg done s) /\
        queueSize cfg
        <= Z.of_nat (List.length
                       (taskQueue (fst (dispatchBatch cfg done s)))) /\
        exists added,
          dispatched_ids (fst (dispatchBatch cfg batch s))
          = dispatched_ids s ++ added /\
          subsequence (batch_ids done) added
  end.
Proof.
  revert s. induction batch as [| [[task now] others] rest IH]; intros s.
  - simpl. split; [reflexivity |]. split; [intros x [] |].
    exists []. split; [now rewrite app_nil_r | constructor].
  - simpl dispatchBatch.
    pose proof (dispatch_accepts cfg now task s) as Hacc.
    destruct (dispatch cfg now task s) as [s1 c] eqn:Ed. simpl in Hacc.
    destruct Hacc as [(Hthrow & Hs & Hfull) | [Hret Hids]]; subst c.
    + subst s1. simpl. split; [reflexivity |].
      exists [], (task, now, others), rest. simpl.
      repeat split; [intros x [] | exact Hfull |].
      exists []. split; [now rewrite app_nil_r | constructor].
    + specialize (IH (run_from cfg s1 others)).
      destruct (dispatched_ids_extend cfg others s1) as [between Hbetween].
      destruct (dispatchBatch cfg rest (run_from cfg s1 others))
        as [s2 [ids | m]] eqn:Erest; simpl in *.
      * destruct IH as (Hidsr & Hincl & added & Hadded & Hsub).
        assert (Hall : dispatched_ids s2
                       = dispatched_ids s
                         ++ task_id task :: between ++ added).
        { rewrite Hadded, Hbetween, Hids, <- !app_assoc. reflexivity. }
        split; [now rewrite Hidsr |]. split.
        -- apply incl_cons; [| exact Hincl].
           rewrite Hall. apply in_app_iff. right. now left.
        -- exists (task_id task :: between ++ added).
           split; [exact Hall |].
           constructor. now apply subsequence_app_l.
      * destruct IH as (Hm & done & failing & rest' & Hsplit & Hincl
                        & Hdone & Hstate & Hfull & added & Hadded & Hsub).
        assert (Hall : dispatched_ids s2
                       = dispatched_ids s
                         ++ task_id task :: between ++ added).
        { rewrite Hadded, Hbetween, Hids, <- !app_assoc. reflexivity. }
        split; [exact Hm |].
        exists ((task, now, others) :: done), failing, rest'.
        cbn [dispatchBatch]. rewrite Ed.
        destruct (dispatchBatch cfg done (run_from cfg s1 others))
          as [s3 c3]. simpl in Hdone, Hstate, Hfull. subst c3 s3. simpl.
        split; [now rewrite Hsplit |]. split.
        { apply incl_cons; [| exact Hincl].
          rewrite Hall. apply in_app_iff. right. now left. }
        repeat split; [exact Hfull |].
        exists (task_id task :: between ++ added).
        split; [exact Hall |].
        constructor. now apply subsequence_app_l.
Qed.

(** ** Phase events *)

Lemma map_get_set_same (V : Type) (k : string) (v : V)
    (m : list (string * V)) :
  map_get k (map_set k v m) = Some v.
Proof.
  induction m as [| [k' v'] m IH]; simpl; [now rewrite String.eqb_refl |].
  destruct (String.eqb k' k) eqn:E; simpl; now rewrite E.
Qed.

Lemma map_get_set_other (V : Type) (k k0 : string) (v : V)
    (m : list (string * V)) :
  k0 <> k -> map_get k0 (map_set k v m) = map_get k0 m.
Proof.
  intros Hne. induction m as [| [k' v'] m IH]; simpl.
  - apply String.eqb_neq in Hne. rewrite String.eqb_sym. now rewrite Hne.
  - destruct (String.eqb_spec k' k) as [-> | Hk]; simpl.
    + apply String.eqb_neq in Hne. rewrite String.eqb_sym. now rewrite Hne.
    + now rewrite IH.
Qed.

Lemma map_set_present_keys (V : Type) (k : string) (v v0 : V)
    (m : list (string * V)) :
  map_get k m = Some v0 -> map fst (map_set k v m) = map fst m.
Proof.
  induction m as [| [k' v'] m IH]; simpl; [discriminate |].
  destruct (String.eqb k' k); [reflexivity |].
  intros H. simpl. now rewrite IH.
Qed.

(** X14: a phase event moves one slot and no other.  A [phase-started]
    event of an active execution sets the phase of that slot to the phase of
    the event, keeps its other fields, the other slots and the order of the
    map; any other event, and any event of an execution that is no longer
    active, changes no slot.  Every event is forwarded once, with the
    execution id. *)
Theorem handleRARVEvent_updates_one_slot (executionId type : string)
    (event_phase : RARVPhase) (data_taskId : option string) (s : State) :
  let s' := handleRARVEvent executionId type event_phase data_taskId s in
  (forall a, map_get executionId (activeAgents s) = Some a ->
             type = "phase-started" ->
             map_get executionId (activeAgents s')
             = Some (set_phase event_phase a) /\
             active_keys s' = active_keys s /\
             forall k, k <> executionId ->
                       map_get k (activeAgents s')
                       = map_get k (activeAgents s)) /\
  (type <> "phase-started" \/ map_get executionId (activeAgents s) = None ->
   activeAgents s' = activeAgents s) /\
  (exists ev, emitted s' = emitted s ++ [ev] /\ ev_type ev = type /\
              ev_data_executionId ev = Some executionId) /\
  taskQueue s' = taskQueue s /\ pending s' = pending s.
Proof.
  intros s'. unfold s', handleRARVEvent, active_keys.
  split; [| split; [| split]].
  - intros a Ha ->. rewrite Ha. simpl.
    split; [apply map_get_set_same |].
    split; [now apply (map_set_present_keys _ _ _ Ha) |].
    intros k Hk. now apply map_get_set_other.
  - intros [Hty | Hnone].
    + apply String.eqb_neq in Hty. rewrite Hty.
      now destruct (map_get executionId (activeAgents s)).
    + now rewrite Hnone.
  - exists (mkEvent type
              match data_taskId with
              | Some id => if String.eqb id "" then "orchestrator" else id
              | None => "orchestrator"
              end data_taskId (Some executionId)).
    split; [| split; reflexivity].
    unfold emitEvent. simpl. f_equal.
    destruct (map_get executionId (activeAgents s)); [| reflexivity].
    now destruct (String.eqb type "phase-started").
  - destruct (map_get executionId (activeAgents s)); [| now split].
    now destruct (String.eqb type "phase-started").
Qed.

Lemma handleRARVEvent_updates_one_slot_witness :
  let s := run DEFAULT_CONFIG
             [do_start 0; do_dispatch (sampleTask "a" high) 1;
              do_dispatch (sampleTask "b" low) 1] in
  let s' := handleRARVEvent "exec_b_1" "phase-started" verify None s in
  map phase (map_values (activeAgents s')) = [reason; verify] /\
  activeAgents (handleRARVEvent "exec_gone_1" "phase-started" act None s)
  = activeAgents s.
Proof.
  intros s s'.
  destruct (handleRARVEvent_updates_one_slot "exec_gone_1" "phase-started"
              act None s) as (_ & H & _).
  split; [reflexivity |]. apply H. right. reflexivity.
Defined.

(** ** Immediate admission *)

(** X15: a task dispatched to a running, unpaused orchestrator with an
    empty queue and a free slot is admitted in the same call: the queue is
    still empty afterwards and one promise chain for the task, in its first
    attempt, has been added. *)
Theorem dispatch_admits_at_once (cfg : OrchestratorConfig) (now : Z)
    (task : Task) (s : State) :
  isRunning s = true -> isPaused s = false -> taskQueue s = [] ->
  0 < queueSize cfg -> map_size (activeAgents s) < maxConcurrent cfg ->
  let s' := fst (dispatch cfg now task s) in
  snd (dispatch cfg now task s) = Return (task_id task) /\
  taskQueue s' = [] /\
  exists item,
    pending s'
    = pending s
      ++ [mkExec ("exec_" ++ task_id task ++ "_" ++ show_Z now)%string
                 item false] /\
    item_task item = task /\ attempts item = 0 /\ addedAt item = now /\
    map_get ("exec_" ++ task_id task ++ "_" ++ show_Z now)%string
            (activeAgents s')
    = Some (mkActive ("exec_" ++ task_id task ++ "_" ++ show_Z now)%string
                     (selectAgent task) (task_id task) now reason).
Proof.
  intros Hr Hp Hq Hsize Hslot.
  destruct s as [aa tq ct ft run pa st tc em pe]. simpl in *. subst.
  unfold dispatch. simpl.
  assert (Hroom : (queueSize cfg <=? 0) = false) by (apply Z.leb_gt; lia).
  rewrite Hroom. simpl.
  apply Z.ltb_lt in Hslot.
  unfold processQueue. simpl.
  destruct (priorityBoostOnAge cfg); simpl; rewrite Hslot; simpl.
  - destruct (boostItem_fields cfg now
                (mkItem task (calculatePriority task) now 0 None None))
      as (H1 & H2 & H3).
    simpl in H1, H2, H3. rewrite H1.
    split; [reflexivity |]. split; [reflexivity |].
    eexists. split; [reflexivity |].
    repeat split; try assumption. apply map_get_set_same.
  - split; [reflexivity |]. split; [reflexivity |].
    eexists. split; [reflexivity |].
    repeat split. apply map_get_set_same.
Qed.

Lemma dispatch_admits_at_once_witness :
  let s := run DEFAULT_CONFIG [do_start 0] in
  snd (dispatch DEFAULT_CONFIG 7 (sampleTask "a" high) s) = Return "a" /\
  taskQueue (fst (dispatch DEFAULT_CONFIG 7 (sampleTask "a" high) s)) = [] /\
  map exec_id (pending (fst (dispatch DEFAULT_CONFIG 7 (sampleTask "a" high) s)))
  = ["exec_a_7"].
Proof.
  intros s.
  destruct (@dispatch_admits_at_once DEFAULT_CONFIG 7 (sampleTask "a" high) s)
    as (H1 & H2 & _); try reflexivity.
  split; [exact H1 |]. split; [exact H2 | reflexivity].
Defined.

(** * Properties of the agent factory *)

Lemma agentTypeName_inj (t t' : AgentType) :
  agentTypeName t = agentTypeName t' -> t = t'.
Proof. destruct t, t'; simpl; intros H; try reflexivity; discriminate. Qed.

Lemma map_get_delete_same (V : Type) (k : string) (m : list (string * V)) :
  NoDup (map fst m) -> map_get k (map_delete k m) = None.
Proof.
  induction m as [| [k' v'] m IH]; simpl; intros H; [reflexivity |].
  inversion H as [| ? ? Hnin Hnd]; subst.
  destruct (String.eqb_spec k' k) as [-> | Hne]; simpl.
  - clear -Hnin. induction m as [| [k1 v1] m IH]; [reflexivity |].
    simpl in *. destruct (String.eqb_spec k1 k) as [-> | Hne].
    + exfalso. apply Hnin. now left.
    + apply IH. intros Hin. apply Hnin. now right.
  - apply String.eqb_neq in Hne. rewrite Hne. now apply IH.
Qed.

Lemma map_get_delete_other (V : Type) (k k0 : string)
    (m : list (string * V)) :
  k0 <> k -> map_get k0 (map_delete k m) = map_get k0 m.
Proof.
  intros Hne. induction m as [| [k' v'] m IH]; simpl; [reflexivity |].
  destruct (String.eqb_spec k' k) as [-> | Hk]; simpl.
  - apply String.eqb_neq in Hne. rewrite String.eqb_sym. now rewrite Hne.
  - now rewrite IH.
Qed.

Lemma map_get_app (V : Type) (k : string) (m1 m2 : list (string * V)) :
  map_get k (m1 ++ m2)
  = match map_get k m1 with Some v => Some v | None => map_get k m2 end.
Proof.
  induction m1 as [| [k' v'] m1 IH]; simpl; [reflexivity |].
  now destruct (String.eqb k' k).
Qed.

Lemma map_get_None (V : Type) (k : string) (m : list (string * V)) :
  map_get k m = None <-> ~ In k (map fst m).
Proof.
  induction m as [| [k' v'] m IH]; simpl; [tauto |].
  destruct (String.eqb_spec k' k) as [-> | Hne].
  - split; [discriminate | intros H; exfalso; apply H; now left].
  - rewrite IH. tauto.
Qed.

Lemma map_get_rev (V : Type) (k : string) (m : list (string * V)) :
  NoDup (map fst m) -> map_get k (rev m) = map_get k m.
Proof.
  induction m as [| [k' v'] m IH]; simpl; intros H; [reflexivity |].
  inversion H as [| ? ? Hnin Hnd]; subst.
  rewrite map_get_app, (IH Hnd). simpl.
  destruct (String.eqb_spec k' k) as [-> | Hne].
  - apply map_get_None in Hnin. now rewrite Hnin.
  - now destruct (map_get k m).
Qed.

Lemma fold_set_get (k : string) (l acc : PartialConfig) :
  map_get k (fold_left (fun acc kv => map_set (fst kv) (snd kv) acc) l acc)
  = match map_get k (rev l) with
    | Some v => Some v
    | None => map_get k acc
    end.
Proof.
  induction l as [| [k' v'] l IH] using rev_ind; [reflexivity |].
  rewrite fold_left_app, rev_app_distr. simpl.
  destruct (String.eqb_spec k' k) as [-> | Hne].
  - apply map_get_set_same.
  - rewrite map_get_set_other by congruence. exact IH.
Qed.

(** How [{...a, ...b}] answers a lookup: [b] first, then [a]. *)
Lemma spread_get (a b : PartialConfig) (k : string) :
  distinct_keys a -> distinct_keys b ->
  map_get k (spread a b)
  = match map_get k b with Some v => Some v | None => map_get k a end.
Proof.
  intros Ha Hb. unfold spread.
  rewrite fold_set_get, rev_app_distr, map_get_app.
  rewrite (@map_get_rev _ k b Hb), (@map_get_rev _ k a Ha).
  destruct (map_get k b); [reflexivity |]. now destruct (map_get k a).
Qed.

(** X16: an agent made without a custom configuration is cached: after
    [createAgent(type)] the cache holds the returned object under the type,
    and asking again returns the same object and leaves the factory as it
    is. *)
Theorem createAgent_reuses_cached (t : AgentType) (f : AgentFactory) :
  let f1 := fst (createAgent t None f) in
  let a := snd (createAgent t None f) in
  map_get (agentTypeName t) (agentCache f1) = Some a /\
  createAgent t None f1 = (f1, a).
Proof.
  unfold createAgent.
  destruct (map_get (agentTypeName t) (agentCache f)) as [a |] eqn:E; simpl.
  - now rewrite E.
  - now rewrite map_get_set_same.
Qed.

(** X17: an agent made with a custom configuration is a new object that
    never enters the cache; its configuration is the default configuration
    of the type overridden, key by key, by the custom one. *)
Theorem createAgent_custom_config (t : AgentType) (config : PartialConfig)
    (f : AgentFactory) :
  distinct_keys config ->
  distinct_keys (orEmpty (map_get (agentTypeName t) (defaultConfigs f))) ->
  let f' := fst (createAgent t (Some config) f) in
  let a := snd (createAgent t (Some config) f) in
  agentCache f' = agentCache f /\ defaultConfigs f' = defaultConfigs f /\
  agent_type a = t /\ agent_provider a = f_provider f /\
  agent_ref a = f_allocated f /\ f_allocated f' = S (f_allocated f) /\
  forall k,
    map_get k (agent_config a)
    = match map_get k config with
      | Some v => Some v
      | None => map_get k (orEmpty (map_get (agentTypeName t)
                                            (defaultConfigs f)))
      end.
Proof.
  intros Hc Hd f' a. unfold f', a, createAgent. simpl.
  repeat split; try (now destruct t).
  intros k. now apply spread_get.
Qed.

Lemma createAgent_custom_config_witness :
  let f := newFactory 1 in
  let a := snd (createAgent architect
                  (Some [("maxTokens", cv_number 100)]) f) in
  map_get "maxTokens" (agent_config a) = Some (cv_number 100) /\
  map_get "model" (agent_config a) = Some (cv_string "opus") /\
  agentCache (fst (createAgent architect
                     (Some [("maxTokens", cv_number 100)]) f)) = [].
Proof.
  intros f a.
  destruct (@createAgent_custom_config architect
              [("maxTokens", cv_number 100)] f)
    as (H1 & _ & _ & _ & _ & _ & H2).
  - repeat constructor. intros [].
  - unfold distinct_keys. vm_compute.
    repeat constructor; simpl; intuition discriminate.
  - split; [rewrite H2; reflexivity |].
    split; [rewrite H2; reflexivity | exact H1].
Defined.

Lemma AgentType_eq_dec (t t' : AgentType) : {t = t'} + {t <> t'}.
Proof. decide equality. Qed.

Lemma createAgent_reuses_cached_aux (t : AgentType) (f : AgentFactory) :
  map_get (agentTypeName t) (agentCache (fst (createAgent t None f)))
  = Some (snd (createAgent t None f)).
Proof.
  unfold createAgent.
  destruct (map_get (agentTypeName t) (agentCache f)) as [a |] eqn:E; simpl.
  - exact E.
  - apply map_get_set_same.
Qed.

Lemma createAgent_ok (t : AgentType) (f : AgentFactory) :
  factory_ok f ->
  factory_ok (fst (createAgent t None f)) /\
  agent_type (snd (createAgent t None f)) = t /\
  (forall t' a, map_get (agentTypeName t') (agentCache f) = Some a ->
                map_get (agentTypeName t')
                        (agentCache (fst (createAgent t None f))) = Some a).
Proof.
  intros [Hnd Hsound]. unfold createAgent.
  destruct (map_get (agentTypeName t) (agentCache f)) as [a |] eqn:E; simpl.
  - split; [now split |]. split; [apply (Hsound t a E) | trivial].
  - split; [split |].
    + unfold distinct_keys in *. simpl. now apply map_set_NoDup.
    + intros t' a. simpl.
      destruct (String.eqb_spec (agentTypeName t') (agentTypeName t))
        as [Heq | Hne].
      * rewrite Heq, map_get_set_same. intros [= <-].
        apply agentTypeName_inj in Heq. subst t'.
        unfold instantiateAgent. simpl. split; [now destruct t | lia].
      * rewrite map_get_set_other by exact Hne. intros Ha.
        destruct (Hsound t' a Ha). split; [assumption | lia].
    + split; [unfold instantiateAgent; simpl; now destruct t |].
      intros t' a Ha.
      rewrite map_get_set_other; [exact Ha |].
      intros Heq. rewrite Heq in Ha. congruence.
Qed.

Lemma createAgents_cons (t : AgentType) (ts : list AgentType)
    (agents : list (string * Agent)) (f : AgentFactory) :
  createAgents (t :: ts) agents f
  = createAgents ts
      (map_set (agentTypeName t) (snd (createAgent t None f)) agents)
      (fst (createAgent t None f)).
Proof.
  change (createAgents (t :: ts) agents f)
    with (let (f', a) := createAgent t None f in
          createAgents ts (map_set (agentTypeName t) a agents) f').
  now destruct (createAgent t None f).
Qed.

Lemma createAgents_spec (ts : list AgentType) (agents : list (string * Agent))
    (f : AgentFactory) :
  factory_ok f ->
  factory_ok (fst (createAgents ts agents f)) /\
  (forall t a, map_get (agentTypeName t) (agentCache f) = Some a ->
               map_get (agentTypeName t)
                       (agentCache (fst (createAgents ts agents f)))
               = Some a) /\
  (forall t, In t ts ->
             exists a,
               map_get (agentTypeName t) (snd (createAgents ts agents f))
               = Some a /\
               agent_type a = t /\
               map_get (agentTypeName t)
                       (agentCache (fst (createAgents ts agents f)))
               = Some a) /\
  (forall t, ~ In t ts ->
             map_get (agentTypeName t) (snd (createAgents ts agents f))
             = map_get (agentTypeName t) agents).
Proof.
  revert agents f. induction ts as [| t ts IH]; intros agents f Hok.
  - simpl. split; [exact Hok |]. split; [trivial |].
    split; [intros t [] | trivial].
  - rewrite createAgents_cons.
    destruct (createAgent_ok t Hok) as (Hok1 & Htype & Hmono).
    pose proof (createAgent_reuses_cached_aux t f) as Hcached.
    set (f1 := fst (createAgent t None f)) in *.
    set (a := snd (createAgent t None f)) in *.
    destruct (IH (map_set (agentTypeName t) a agents) f1 Hok1)
      as (Hok' & Hmono' & Hin & Hout).
    split; [exact Hok' |]. split; [| split].
    + intros t' a' Ha'. apply Hmono'. now apply Hmono.
    + intros t' [<- | Ht'].
      * destruct (in_dec AgentType_eq_dec t ts) as [Hi | Hn].
        -- now apply Hin.
        -- exists a. rewrite (Hout t Hn), map_get_set_same.
           split; [reflexivity |]. split; [exact Htype |].
           now apply Hmono'.
      * now apply Hin.
    + intros t' Hn. rewrite Hout by (intros H; apply Hn; now right).
      apply map_get_set_other. intros Heq. apply agentTypeName_inj in Heq.
      apply Hn. now left.
Qed.

(** X18: [setDefaultConfig] takes effect at once and for its type only: the
    next [createAgent] of the type makes a new object, configured with the
    new defaults, instead of returning the cached one; the cached agents and
    the defaults of the other types stay. *)
Theorem setDefaultConfig_invalidates (t : AgentType) (config : PartialConfig)
    (f : AgentFactory) :
  distinct_keys (agentCache f) -> distinct_keys config ->
  let f1 := setDefaultConfig t config f in
  let a := snd (createAgent t None f1) in
  agent_ref a = f_allocated f /\ agent_type a = t /\
  (forall k, map_get k (agent_config a) = map_get k config) /\
  (forall t', t' <> t ->
     map_get (agentTypeName t') (agentCache f1)
     = map_get (agentTypeName t') (agentCache f) /\
     map_get (agentTypeName t') (defaultConfigs f1)
     = map_get (agentTypeName t') (defaultConfigs f)).
Proof.
  intros Hnd Hc f1 a. unfold a, f1, createAgent, setDefaultConfig. simpl.
  rewrite (@map_get_delete_same _ (agentTypeName t) _ Hnd). simpl.
  rewrite map_get_set_same. simpl.
  split; [reflexivity |]. split; [now destruct t |]. split.
  - intros k. rewrite spread_get; [| exact Hc | constructor].
    simpl. reflexivity.
  - intros t' Hne.
    assert (Hk : agentTypeName t' <> agentTypeName t)
      by (intros H; now apply agentTypeName_inj in H).
    split; [now apply map_get_delete_other | now apply map_get_set_other].
Qed.

Lemma setDefaultConfig_invalidates_witness :
  let f := fst (createAllAgents (newFactory 1)) in
  let f1 := setDefaultConfig docs [("model", cv_string "haiku")] f in
  let a := snd (createAgent docs None f1) in
  agent_ref a = 15%nat /\
  map_get "model" (agent_config a) = Some (cv_string "haiku") /\
  map_get "maxTokens" (agent_config a) = None /\
  map_get "qa" (agentCache f1) = map_get "qa" (agentCache f).
Proof.
  intros f f1 a.
  destruct (@setDefaultConfig_invalidates docs
              [("model", cv_string "haiku")] f)
    as (H1 & _ & H2 & H3).
  - unfold distinct_keys. vm_compute.
    repeat constructor; simpl; intuition discriminate.
  - repeat constructor. intros [].
  - split; [exact H1 |]. split; [apply H2 |].
    split; [apply H2 |]. apply (H3 qa). discriminate.
Defined.

Lemma map_set_keys_eq (V : Type) (k : string) (v : V)
    (m : list (string * V)) :
  map fst (map_set k v m) = set_key k (map fst m).
Proof.
  unfold set_key. induction m as [| [k' v'] m IH]; [reflexivity |].
  simpl. rewrite (String.eqb_sym k k').
  destruct (String.eqb k' k); [reflexivity |].
  simpl. rewrite IH. now destruct (existsb (String.eqb k) (map fst m)).
Qed.

Lemma createAgents_keys (ts : list AgentType) (agents : list (string * Agent))
    (f : AgentFactory) :
  map fst (snd (createAgents ts agents f))
  = fold_left (fun keys t => set_key (agentTypeName t) keys) ts
              (map fst agents).
Proof.
  revert agents f. induction ts as [| t ts IH]; intros agents f;
    [reflexivity |].
  rewrite createAgents_cons, IH, map_set_keys_eq. reflexivity.
Qed.

Lemma createAllAgents_each (f : AgentFactory) (t : AgentType) :
  factory_ok f ->
  exists a,
    map_get (agentTypeName t) (snd (createAllAgents f)) = Some a /\
    agent_type a = t /\
    map_get (agentTypeName t) (agentCache (fst (createAllAgents f))) = Some a.
Proof.
  intros Hok. unfold createAllAgents.
  destruct (createAgents_spec getAllAgentTypes [] Hok) as (_ & _ & Hin & _).
  apply Hin. destruct t; simpl; tauto.
Qed.

Lemma newFactory_ok (provider : nat) : factory_ok (newFactory provider).
Proof.
  split; [constructor |]. intros t a H. discriminate.
Qed.

(** X19: [createAllAgents] returns a map with exactly the fifteen agent
    types as keys, in the order of [getAllAgentTypes]; under each key is an
    agent of that type, and it is the agent the factory's cache now holds
    for the type, so a later [createAgent] of the type returns it. *)
Theorem createAllAgents_complete (f : AgentFactory) :
  factory_ok f ->
  let f' := fst (createAllAgents f) in
  let agents := snd (createAllAgents f) in
  map fst agents = map agentTypeName getAllAgentTypes /\
  forall t, exists a,
    getAgent agents t = Some a /\ agent_type a = t /\
    createAgent t None f' = (f', a).
Proof.
  intros Hok f' agents. unfold f', agents, getAgent.
  split; [unfold createAllAgents; rewrite createAgents_keys; reflexivity |].
  intros t. destruct (createAllAgents_each t Hok) as (a & Ha & Htype & Hcache).
  exists a. split; [exact Ha |]. split; [exact Htype |].
  unfold createAgent. now rewrite Hcache.
Qed.

Lemma createAllAgents_complete_witness :
  let agents := snd (createAllAgents (newFactory 7)) in
  List.length agents = 15%nat /\
  exists a, getAgent agents security_review = Some a /\
            agent_type a = security_review.
Proof.
  intros agents.
  destruct (createAllAgents_complete (newFactory_ok 7)) as (Hkeys & Hall).
  split.
  - fold agents in Hkeys. rewrite <- (length_map fst), Hkeys. reflexivity.
  - destruct (Hall security_review) as (a & Ha & Ht & _).
    exists a. now split.
Defined.

(** X20: the orchestrator holds an agent for every kind it can select: in
    the [agents] map of a new orchestrator, [getAgent] of the kind
    [selectAgent] picks for a task answers an agent of that kind, made with
    the orchestrator's provider. *)
Theorem selected_agent_available (provider : nat) (task : Task) :
  exists a,
    getAgent (initializeAgents provider) (selectAgent task) = Some a /\
    agent_type a = selectAgent task /\ agent_provider a = provider.
Proof.
  destruct (createAllAgents_each (selectAgent task) (newFactory_ok provider))
    as (a & Ha & Ht & _).
  exists a. split; [exact Ha |]. split; [exact Ht |].
  unfold initializeAgents in *. clear Ht.
  revert Ha. generalize (selectAgent task). intros t.
  destruct t; vm_compute; intros [= <-]; reflexivity.
Qed.

(** ** The provider of cached agents *)

Lemma map_get_delete_Some (V : Type) (k k0 : string) (v : V)
    (m : list (string * V)) :
  NoDup (map fst m) ->
  map_get k0 (map_delete k m) = Some v -> map_get k0 m = Some v.
Proof.
  intros Hnd H. destruct (String.eqb_spec k0 k) as [-> | Hne].
  - now rewrite map_get_delete_same in H.
  - now rewrite map_get_delete_other in H.
Qed.

Lemma createAgent_current (t : AgentType) (config : option PartialConfig)
    (f : AgentFactory) :
  cache_current f ->
  cache_current (fst (createAgent t config f)) /\
  f_provider (fst (createAgent t config f)) = f_provider f /\
  agent_provider (snd (createAgent t config f)) = f_provider f.
Proof.
  intros Hcur. unfold createAgent.
  destruct config as [c |].
  - simpl. repeat split. exact Hcur.
  - destruct (map_get (agentTypeName t) (agentCache f)) as [a |] eqn:E; simpl.
    + repeat split; [exact Hcur | now apply (Hcur _ _ E)].
    + repeat split. intros k a. simpl.
      destruct (String.eqb_spec k (agentTypeName t)) as [-> | Hne].
      * rewrite map_get_set_same. now intros [= <-].
      * rewrite map_get_set_other by exact Hne. apply Hcur.
Qed.

Lemma createAgent_keeps_ok (t : AgentType) (config : option PartialConfig)
    (f : AgentFactory) :
  factory_ok f -> factory_ok (fst (createAgent t config f)).
Proof.
  intros Hok. destruct config as [c |]; [| now apply createAgent_ok].
  destruct Hok as [Hnd Hsound]. unfold createAgent. simpl.
  split; [exact Hnd |]. intros t' a Ha. simpl in *.
  destruct (Hsound t' a Ha). split; [assumption | lia].
Qed.

Lemma createAgents_current (ts : list AgentType)
    (agents : list (string * Agent)) (f : AgentFactory) :
  cache_current f ->
  cache_current (fst (createAgents ts agents f)) /\
  f_provider (fst (createAgents ts agents f)) = f_provider f.
Proof.
  revert agents f. induction ts as [| t ts IH]; intros agents f Hcur;
    [now split |].
  rewrite createAgents_cons.
  destruct (createAgent_current t None Hcur) as (H1 & H2 & _).
  destruct (IH (map_set (agentTypeName t) (snd (createAgent t None f)) agents)
               _ H1) as [H3 H4].
  split; [exact H3 | congruence].
Qed.

Lemma factoryStep_invariant (f : AgentFactory) (c : FactoryCall) :
  factory_ok f /\ cache_current f ->
  factory_ok (factoryStep f c) /\ cache_current (factoryStep f c).
Proof.
  intros [Hok Hcur].
  destruct c as [t config | | t config | | provider]; simpl.
  - split; [now apply createAgent_keeps_ok |].
    now apply createAgent_current.
  - split; [| now apply createAgents_current].
    now apply (createAgents_spec getAllAgentTypes []).
  - destruct Hok as [Hnd Hsound]. split; [split |].
    + unfold distinct_keys, setDefaultConfig. simpl.
      now apply map_delete_NoDup.
    + intros t' a Ha. simpl in Ha.
      apply (@map_get_delete_Some _ _ _ _ _ Hnd) in Ha. now apply Hsound.
    + intros k a Ha. simpl in Ha.
      apply (@map_get_delete_Some _ _ _ _ _ Hnd) in Ha. now apply (Hcur k).
  - split; [split; [constructor | intros t a H; discriminate] |].
    intros k a H. discriminate.
  - split; [split; [constructor | intros t a H; discriminate] |].
    intros k a H. discriminate.
Qed.

(** X21: the factory never hands out an agent of a replaced provider or of
    the wrong type.  After any sequence of [createAgent], [createAllAgents],
    [setDefaultConfig], [clearCache] and [updateProvider] calls on a new
    factory, [createAgent(type)] answers an agent of that type bound to the
    provider the factory holds at that moment, cached or not. *)
Theorem factory_never_stale (provider : nat) (calls : list FactoryCall)
    (t : AgentType) (config : option PartialConfig) :
  let f := fold_left factoryStep calls (newFactory provider) in
  agent_type (snd (createAgent t config f)) = t /\
  agent_provider (snd (createAgent t config f)) = f_provider f.
Proof.
  intros f.
  assert (Hinv : factory_ok f /\ cache_current f).
  { unfold f.
    assert (H : forall f0, factory_ok f0 /\ cache_current f0 ->
                           factory_ok (fold_left factoryStep calls f0) /\
                           cache_current (fold_left factoryStep calls f0)).
    { induction calls as [| c calls IH]; intros f0 H0; [exact H0 |].
      simpl. apply IH. now apply factoryStep_invariant. }
    apply H. split; [apply newFactory_ok |]. intros k a Ha. discriminate. }
  destruct Hinv as [Hok Hcur].
  split; [| now apply createAgent_current].
  destruct config as [c |].
  - unfold createAgent. simpl. now destruct t.
  - now apply createAgent_ok.
Qed.

(** ** The tables of the factory *)

(** X22: the tables of the factory agree with each other.  For every agent
    type: its description carries the type; it is listed under the category
    of its description and under no other; the class [instantiateAgent]
    picks for it passes the same type to the base constructor; the model of
    its default configuration is the default model of its description, and
    so is the model of its class where the class names one.  The list of all
    types is the four categories in order, without repetition. *)
Theorem factory_tables_agree (t : AgentType) :
  desc_type (getAgentDescription t) = t /\
  (forall c, In t (getAgentsByCategory c)
             <-> c = desc_category (getAgentDescription t)) /\
  class_type (classFor t) = t /\
  (exists cfg,
     map_get (agentTypeName t) initialDefaultConfigs = Some cfg /\
     map_get "model" cfg
     = Some (cv_string (desc_defaultModel (getAgentDescription t)))) /\
  (forall m, class_defaultModel (classFor t) = Some m ->
             m = desc_defaultModel (getAgentDescription t)) /\
  getAllAgentTypes
  = getAgentsByCategory cat_engineering ++ getAgentsByCategory cat_quality
    ++ getAgentsByCategory cat_support ++ getAgentsByCategory cat_planning /\
  NoDup getAllAgentTypes /\ In t getAllAgentTypes.
Proof.
  split; [now destruct t |]. split.
  { intros c. split.
    - destruct t, c; simpl; intros H; try reflexivity;
        repeat (destruct H as [H | H]; try discriminate); contradiction.
    - intros ->. destruct t; simpl; tauto. }
  split; [now destruct t |]. split.
  { destruct t; eexists; split; reflexivity. }
  split.
  { destruct t; simpl; intros m H; congruence. }
  split; [reflexivity |]. split.
  - repeat constructor; simpl; intuition discriminate.
  - destruct t; simpl; tauto.
Qed.
